(** * Hopper: message discovery over a rendered chat document

    A shallow embedding of the four platform strategies of the Hopper
    browser extension (ChatGPT, Qwen, Claude, DeepSeek) and the properties
    that its specification states about message discovery.

    - [JS]       strings as sequences of UTF-16 code units, the string
                 methods and the regular expressions the strategies use;
    - [DOM]      the rendered document: a tree of element and text nodes,
                 selectors, document position, layout boxes;
    - [ChatGPT], [Qwen], [Claude], [DeepSeek]   the strategies, one module
                 per source object, method by method;
    - the theorems, one per claim of the specification. *)

From Stdlib Require Import ZArith NArith Ascii String DecimalString DecimalNat
  DecimalFacts.
From stdpp Require Import base list gmap sorting.

Local Open Scope Z_scope.
Local Open Scope nat_scope.

Set Warnings "-register-all".

(** ** JavaScript strings *)

Module JS.

(** A string is its sequence of UTF-16 code units. *)
Abbreviation jsstring := (list N).

(** A string literal of the source (all of them are ASCII). *)
Definition lit (s : string) : jsstring :=
  (fun a => N_of_ascii a) <$> list_ascii_of_string s.
Arguments lit s%_string.

(** [WhiteSpace] and [LineTerminator] of ECMAScript: what [trim] removes and
    what [\s] matches. *)
Definition isWhiteSpace (c : N) : bool :=
  ((9 <=? c) && (c <=? 13) || (c =? 32) || (c =? 160) || (c =? 5760)
   || (8192 <=? c) && (c <=? 8202) || (c =? 8232) || (c =? 8233)
   || (c =? 8239) || (c =? 8287) || (c =? 12288) || (c =? 65279))%N.

Fixpoint trimStart (s : jsstring) : jsstring :=
  match s with
  | c :: s' => if isWhiteSpace c then trimStart s' else s
  | [] => []
  end.

Definition trimEnd (s : jsstring) : jsstring :=
  reverse (trimStart (reverse s)).

(** [s.trim()] *)
Definition trim (s : jsstring) : jsstring := trimEnd (trimStart s).

(** [s.replace(/\s+/g, ' ')]: [inRun] tells that the previous code unit was
    white space, whose run has already been replaced. *)
Fixpoint replaceRuns (inRun : bool) (s : jsstring) : jsstring :=
  match s with
  | [] => []
  | c :: s' =>
      if isWhiteSpace c
      then (if inRun then replaceRuns true s' else 32%N :: replaceRuns true s')
      else c :: replaceRuns false s'
  end.

Definition collapseWhiteSpace (s : jsstring) : jsstring := replaceRuns false s.

(** [s.replace(/\s/g, '')] *)
Definition stripWhiteSpace (s : jsstring) : jsstring :=
  filter (fun c => negb (isWhiteSpace c)) s.

(** [s.substring(0, n)] *)
Definition substring0 (n : nat) (s : jsstring) : jsstring := take n s.

Definition eqb (s t : jsstring) : bool := bool_decide (s = t).

Fixpoint startsWith (s prefix : jsstring) : bool :=
  match prefix, s with
  | [], _ => true
  | p :: prefix', c :: s' => (p =? c)%N && startsWith s' prefix'
  | _ :: _, [] => false
  end.

Definition endsWith (s suffix : jsstring) : bool :=
  startsWith (reverse s) (reverse suffix).

(** [s.includes(t)] *)
Fixpoint includes (s t : jsstring) : bool :=
  startsWith s t ||
  match s with
  | [] => false
  | _ :: s' => includes s' t
  end.

(** The ASCII case mapping, on the letters A-Z and a-z: what a regular
    expression with the flag [i] and a pattern of ASCII code units
    compares with, and what a selector does with the value of an attribute
    that HTML matches without regard to case. *)
Definition lowerUnit (c : N) : N :=
  if ((65 <=? c) && (c <=? 90))%N then (c + 32)%N else c.

Definition upperUnit (c : N) : N :=
  if ((97 <=? c) && (c <=? 122))%N then (c - 32)%N else c.

(** The simple lower-case mappings of the Unicode Character Database
    (version 14.0), as runs: in the run from [first] to [last] every
    [step]-th code point, counted from [first], has a lower-case form, and
    that of [first] is [lower]; the forms follow at the same distance. *)
Definition lowerCaseMappings : list (N * N * N * N) :=
  [(65, 90, 1, 97); (192, 214, 1, 224); (216, 222, 1, 248);
   (256, 302, 2, 257); (306, 310, 2, 307); (313, 327, 2, 314);
   (330, 374, 2, 331); (376, 376, 1, 255); (377, 381, 2, 378);
   (385, 385, 1, 595); (386, 388, 2, 387); (390, 390, 1, 596);
   (391, 391, 1, 392); (393, 394, 1, 598); (395, 395, 1, 396);
   (398, 398, 1, 477); (399, 399, 1, 601); (400, 400, 1, 603);
   (401, 401, 1, 402); (403, 403, 1, 608); (404, 404, 1, 611);
   (406, 406, 1, 617); (407, 407, 1, 616); (408, 408, 1, 409);
   (412, 412, 1, 623); (413, 413, 1, 626); (415, 415, 1, 629);
   (416, 420, 2, 417); (422, 422, 1, 640); (423, 423, 1, 424);
   (425, 425, 1, 643); (428, 428, 1, 429); (430, 430, 1, 648);
   (431, 431, 1, 432); (433, 434, 1, 650); (435, 437, 2, 436);
   (439, 439, 1, 658); (440, 440, 1, 441); (444, 444, 1, 445);
   (452, 452, 1, 454); (453, 453, 1, 454); (455, 455, 1, 457);
   (456, 456, 1, 457); (458, 458, 1, 460); (459, 475, 2, 460);
   (478, 494, 2, 479); (497, 497, 1, 499); (498, 500, 2, 499);
   (502, 502, 1, 405); (503, 503, 1, 447); (504, 542, 2, 505);
   (544, 544, 1, 414); (546, 562, 2, 547); (570, 570, 1, 11365);
   (571, 571, 1, 572); (573, 573, 1, 410); (574, 574, 1, 11366);
   (577, 577, 1, 578); (579, 579, 1, 384); (580, 580, 1, 649);
   (581, 581, 1, 652); (582, 590, 2, 583); (880, 882, 2, 881);
   (886, 886, 1, 887); (895, 895, 1, 1011); (902, 902, 1, 940);
   (904, 906, 1, 941); (908, 908, 1, 972); (910, 911, 1, 973);
   (913, 929, 1, 945); (931, 939, 1, 963); (975, 975, 1, 983);
   (984, 1006, 2, 985); (1012, 1012, 1, 952); (1015, 1015, 1, 1016);
   (1017, 1017, 1, 1010); (1018, 1018, 1, 1019); (1021, 1023, 1, 891);
   (1024, 1039, 1, 1104); (1040, 1071, 1, 1072); (1120, 1152, 2, 1121);
   (1162, 1214, 2, 1163); (1216, 1216, 1, 1231); (1217, 1229, 2, 1218);
   (1232, 1326, 2, 1233); (1329, 1366, 1, 1377); (4256, 4293, 1, 11520);
   (4295, 4295, 1, 11559); (4301, 4301, 1, 11565); (5024, 5103, 1, 43888);
   (5104, 5109, 1, 5112); (7312, 7354, 1, 4304); (7357, 7359, 1, 4349);
   (7680, 7828, 2, 7681); (7838, 7838, 1, 223); (7840, 7934, 2, 7841);
   (7944, 7951, 1, 7936); (7960, 7965, 1, 7952); (7976, 7983, 1, 7968);
   (7992, 7999, 1, 7984); (8008, 8013, 1, 8000); (8025, 8031, 2, 8017);
   (8040, 8047, 1, 8032); (8072, 8079, 1, 8064); (8088, 8095, 1, 8080);
   (8104, 8111, 1, 8096); (8120, 8121, 1, 8112); (8122, 8123, 1, 8048);
   (8124, 8124, 1, 8115); (8136, 8139, 1, 8050); (8140, 8140, 1, 8131);
   (8152, 8153, 1, 8144); (8154, 8155, 1, 8054); (8168, 8169, 1, 8160);
   (8170, 8171, 1, 8058); (8172, 8172, 1, 8165); (8184, 8185, 1, 8056);
   (8186, 8187, 1, 8060); (8188, 8188, 1, 8179); (8486, 8486, 1, 969);
   (8490, 8490, 1, 107); (8491, 8491, 1, 229); (8498, 8498, 1, 8526);
   (8544, 8559, 1, 8560); (8579, 8579, 1, 8580); (9398, 9423, 1, 9424);
   (11264, 11311, 1, 11312); (11360, 11360, 1, 11361);
   (11362, 11362, 1, 619); (11363, 11363, 1, 7549); (11364, 11364, 1, 637);
   (11367, 11371, 2, 11368); (11373, 11373, 1, 593); (11374, 11374, 1, 625);
   (11375, 11375, 1, 592); (11376, 11376, 1, 594); (11378, 11378, 1, 11379);
   (11381, 11381, 1, 11382); (11390, 11391, 1, 575);
   (11392, 11490, 2, 11393); (11499, 11501, 2, 11500);
   (11506, 11506, 1, 11507); (42560, 42604, 2, 42561);
   (42624, 42650, 2, 42625); (42786, 42798, 2, 42787);
   (42802, 42862, 2, 42803); (42873, 42875, 2, 42874);
   (42877, 42877, 1, 7545); (42878, 42886, 2, 42879);
   (42891, 42891, 1, 42892); (42893, 42893, 1, 613);
   (42896, 42898, 2, 42897); (42902, 42920, 2, 42903);
   (42922, 42922, 1, 614); (42923, 42923, 1, 604); (42924, 42924, 1, 609);
   (42925, 42925, 1, 620); (42926, 42926, 1, 618); (42928, 42928, 1, 670);
   (42929, 42929, 1, 647); (42930, 42930, 1, 669); (42931, 42931, 1, 43859);
   (42932, 42946, 2, 42933); (42948, 42948, 1, 42900);
   (42949, 42949, 1, 642); (42950, 42950, 1, 7566); (42951, 42953, 2, 42952);
   (42960, 42960, 1, 42961); (42966, 42968, 2, 42967);
   (42997, 42997, 1, 42998); (65313, 65338, 1, 65345);
   (66560, 66599, 1, 66600); (66736, 66771, 1, 66776);
   (66928, 66938, 1, 66967); (66940, 66954, 1, 66979);
   (66956, 66962, 1, 66995); (66964, 66965, 1, 67003);
   (68736, 68786, 1, 68800); (71840, 71871, 1, 71872);
   (93760, 93791, 1, 93792); (125184, 125217, 1, 125218)]%N.

(** The code points with the property Cased that are not Case_Ignorable,
    and those with the property Case_Ignorable, as ranges. *)
Definition casedLetters : list (N * N) :=
  [(65, 90); (97, 122); (170, 170); (181, 181); (186, 186); (192, 214);
   (216, 246); (248, 442); (444, 447); (452, 659); (661, 687); (880, 883);
   (886, 887); (891, 893); (895, 895); (902, 902); (904, 906); (908, 908);
   (910, 929); (931, 1013); (1015, 1153); (1162, 1327); (1329, 1366);
   (1376, 1416); (4256, 4293); (4295, 4295); (4301, 4301); (4304, 4346);
   (4349, 4351); (5024, 5109); (5112, 5117); (7296, 7304); (7312, 7354);
   (7357, 7359); (7424, 7467); (7531, 7543); (7545, 7578); (7680, 7957);
   (7960, 7965); (7968, 8005); (8008, 8013); (8016, 8023); (8025, 8025);
   (8027, 8027); (8029, 8029); (8031, 8061); (8064, 8116); (8118, 8124);
   (8126, 8126); (8130, 8132); (8134, 8140); (8144, 8147); (8150, 8155);
   (8160, 8172); (8178, 8180); (8182, 8188); (8450, 8450); (8455, 8455);
   (8458, 8467); (8469, 8469); (8473, 8477); (8484, 8484); (8486, 8486);
   (8488, 8488); (8490, 8493); (8495, 8500); (8505, 8505); (8508, 8511);
   (8517, 8521); (8526, 8526); (8544, 8575); (8579, 8580); (9398, 9449);
   (11264, 11387); (11390, 11492); (11499, 11502); (11506, 11507);
   (11520, 11557); (11559, 11559); (11565, 11565); (42560, 42605);
   (42624, 42651); (42786, 42863); (42865, 42887); (42891, 42894);
   (42896, 42954); (42960, 42961); (42963, 42963); (42965, 42969);
   (42997, 42998); (43002, 43002); (43824, 43866); (43872, 43880);
   (43888, 43967); (64256, 64262); (64275, 64279); (65313, 65338);
   (65345, 65370); (66560, 66639); (66736, 66771); (66776, 66811);
   (66928, 66938); (66940, 66954); (66956, 66962); (66964, 66965);
   (66967, 66977); (66979, 66993); (66995, 67001); (67003, 67004);
   (68736, 68786); (68800, 68850); (71840, 71903); (93760, 93823);
   (119808, 119892); (119894, 119964); (119966, 119967); (119970, 119970);
   (119973, 119974); (119977, 119980); (119982, 119993); (119995, 119995);
   (119997, 120003); (120005, 120069); (120071, 120074); (120077, 120084);
   (120086, 120092); (120094, 120121); (120123, 120126); (120128, 120132);
   (120134, 120134); (120138, 120144); (120146, 120485); (120488, 120512);
   (120514, 120538); (120540, 120570); (120572, 120596); (120598, 120628);
   (120630, 120654); (120656, 120686); (120688, 120712); (120714, 120744);
   (120746, 120770); (120772, 120779); (122624, 122633); (122635, 122654);
   (125184, 125251); (127280, 127305); (127312, 127337); (127344, 127369)]%N.

Definition caseIgnorable : list (N * N) :=
  [(39, 39); (46, 46); (58, 58); (94, 94); (96, 96); (168, 168); (173, 173);
   (175, 175); (180, 180); (183, 184); (688, 879); (884, 885); (890, 890);
   (900, 901); (903, 903); (1155, 1161); (1369, 1369); (1375, 1375);
   (1425, 1469); (1471, 1471); (1473, 1474); (1476, 1477); (1479, 1479);
   (1524, 1524); (1536, 1541); (1552, 1562); (1564, 1564); (1600, 1600);
   (1611, 1631); (1648, 1648); (1750, 1757); (1759, 1768); (1770, 1773);
   (1807, 1807); (1809, 1809); (1840, 1866); (1958, 1968); (2027, 2037);
   (2042, 2042); (2045, 2045); (2070, 2093); (2137, 2139); (2184, 2184);
   (2192, 2193); (2200, 2207); (2249, 2306); (2362, 2362); (2364, 2364);
   (2369, 2376); (2381, 2381); (2385, 2391); (2402, 2403); (2417, 2417);
   (2433, 2433); (2492, 2492); (2497, 2500); (2509, 2509); (2530, 2531);
   (2558, 2558); (2561, 2562); (2620, 2620); (2625, 2626); (2631, 2632);
   (2635, 2637); (2641, 2641); (2672, 2673); (2677, 2677); (2689, 2690);
   (2748, 2748); (2753, 2757); (2759, 2760); (2765, 2765); (2786, 2787);
   (2810, 2815); (2817, 2817); (2876, 2876); (2879, 2879); (2881, 2884);
   (2893, 2893); (2901, 2902); (2914, 2915); (2946, 2946); (3008, 3008);
   (3021, 3021); (3072, 3072); (3076, 3076); (3132, 3132); (3134, 3136);
   (3142, 3144); (3146, 3149); (3157, 3158); (3170, 3171); (3201, 3201);
   (3260, 3260); (3263, 3263); (3270, 3270); (3276, 3277); (3298, 3299);
   (3328, 3329); (3387, 3388); (3393, 3396); (3405, 3405); (3426, 3427);
   (3457, 3457); (3530, 3530); (3538, 3540); (3542, 3542); (3633, 3633);
   (3636, 3642); (3654, 3662); (3761, 3761); (3764, 3772); (3782, 3782);
   (3784, 3789); (3864, 3865); (3893, 3893); (3895, 3895); (3897, 3897);
   (3953, 3966); (3968, 3972); (3974, 3975); (3981, 3991); (3993, 4028);
   (4038, 4038); (4141, 4144); (4146, 4151); (4153, 4154); (4157, 4158);
   (4184, 4185); (4190, 4192); (4209, 4212); (4226, 4226); (4229, 4230);
   (4237, 4237); (4253, 4253); (4348, 4348); (4957, 4959); (5906, 5908);
   (5938, 5939); (5970, 5971); (6002, 6003); (6068, 6069); (6071, 6077);
   (6086, 6086); (6089, 6099); (6103, 6103); (6109, 6109); (6155, 6159);
   (6211, 6211); (6277, 6278); (6313, 6313); (6432, 6434); (6439, 6440);
   (6450, 6450); (6457, 6459); (6679, 6680); (6683, 6683); (6742, 6742);
   (6744, 6750); (6752, 6752); (6754, 6754); (6757, 6764); (6771, 6780);
   (6783, 6783); (6823, 6823); (6832, 6862); (6912, 6915); (6964, 6964);
   (6966, 6970); (6972, 6972); (6978, 6978); (7019, 7027); (7040, 7041);
   (7074, 7077); (7080, 7081); (7083, 7085); (7142, 7142); (7144, 7145);
   (7149, 7149); (7151, 7153); (7212, 7219); (7222, 7223); (7288, 7293);
   (7376, 7378); (7380, 7392); (7394, 7400); (7405, 7405); (7412, 7412);
   (7416, 7417); (7468, 7530); (7544, 7544); (7579, 7679); (8125, 8125);
   (8127, 8129); (8141, 8143); (8157, 8159); (8173, 8175); (8189, 8190);
   (8203, 8207); (8216, 8217); (8228, 8228); (8231, 8231); (8234, 8238);
   (8288, 8292); (8294, 8303); (8305, 8305); (8319, 8319); (8336, 8348);
   (8400, 8432); (11388, 11389); (11503, 11505); (11631, 11631);
   (11647, 11647); (11744, 11775); (11823, 11823); (12293, 12293);
   (12330, 12333); (12337, 12341); (12347, 12347); (12441, 12446);
   (12540, 12542); (40981, 40981); (42232, 42237); (42508, 42508);
   (42607, 42610); (42612, 42621); (42623, 42623); (42652, 42655);
   (42736, 42737); (42752, 42785); (42864, 42864); (42888, 42890);
   (42994, 42996); (43000, 43001); (43010, 43010); (43014, 43014);
   (43019, 43019); (43045, 43046); (43052, 43052); (43204, 43205);
   (43232, 43249); (43263, 43263); (43302, 43309); (43335, 43345);
   (43392, 43394); (43443, 43443); (43446, 43449); (43452, 43453);
   (43471, 43471); (43493, 43494); (43561, 43566); (43569, 43570);
   (43573, 43574); (43587, 43587); (43596, 43596); (43632, 43632);
   (43644, 43644); (43696, 43696); (43698, 43700); (43703, 43704);
   (43710, 43711); (43713, 43713); (43741, 43741); (43756, 43757);
   (43763, 43764); (43766, 43766); (43867, 43871); (43881, 43883);
   (44005, 44005); (44008, 44008); (44013, 44013); (64286, 64286);
   (64434, 64450); (65024, 65039); (65043, 65043); (65056, 65071);
   (65106, 65106); (65109, 65109); (65279, 65279); (65287, 65287);
   (65294, 65294); (65306, 65306); (65342, 65342); (65344, 65344);
   (65392, 65392); (65438, 65439); (65507, 65507); (65529, 65531);
   (66045, 66045); (66272, 66272); (66422, 66426); (67456, 67461);
   (67463, 67504); (67506, 67514); (68097, 68099); (68101, 68102);
   (68108, 68111); (68152, 68154); (68159, 68159); (68325, 68326);
   (68900, 68903); (69291, 69292); (69446, 69456); (69506, 69509);
   (69633, 69633); (69688, 69702); (69744, 69744); (69747, 69748);
   (69759, 69761); (69811, 69814); (69817, 69818); (69821, 69821);
   (69826, 69826); (69837, 69837); (69888, 69890); (69927, 69931);
   (69933, 69940); (70003, 70003); (70016, 70017); (70070, 70078);
   (70089, 70092); (70095, 70095); (70191, 70193); (70196, 70196);
   (70198, 70199); (70206, 70206); (70367, 70367); (70371, 70378);
   (70400, 70401); (70459, 70460); (70464, 70464); (70502, 70508);
   (70512, 70516); (70712, 70719); (70722, 70724); (70726, 70726);
   (70750, 70750); (70835, 70840); (70842, 70842); (70847, 70848);
   (70850, 70851); (71090, 71093); (71100, 71101); (71103, 71104);
   (71132, 71133); (71219, 71226); (71229, 71229); (71231, 71232);
   (71339, 71339); (71341, 71341); (71344, 71349); (71351, 71351);
   (71453, 71455); (71458, 71461); (71463, 71467); (71727, 71735);
   (71737, 71738); (71995, 71996); (71998, 71998); (72003, 72003);
   (72148, 72151); (72154, 72155); (72160, 72160); (72193, 72202);
   (72243, 72248); (72251, 72254); (72263, 72263); (72273, 72278);
   (72281, 72283); (72330, 72342); (72344, 72345); (72752, 72758);
   (72760, 72765); (72767, 72767); (72850, 72871); (72874, 72880);
   (72882, 72883); (72885, 72886); (73009, 73014); (73018, 73018);
   (73020, 73021); (73023, 73029); (73031, 73031); (73104, 73105);
   (73109, 73109); (73111, 73111); (73459, 73460); (78896, 78904);
   (92912, 92916); (92976, 92982); (92992, 92995); (94031, 94031);
   (94095, 94111); (94176, 94177); (94179, 94180); (110576, 110579);
   (110581, 110587); (110589, 110590); (113821, 113822); (113824, 113827);
   (118528, 118573); (118576, 118598); (119143, 119145); (119155, 119170);
   (119173, 119179); (119210, 119213); (119362, 119364); (121344, 121398);
   (121403, 121452); (121461, 121461); (121476, 121476); (121499, 121503);
   (121505, 121519); (122880, 122886); (122888, 122904); (122907, 122913);
   (122915, 122916); (122918, 122922); (123184, 123197); (123566, 123566);
   (123628, 123631); (125136, 125142); (125252, 125259); (127995, 127999);
   (917505, 917505); (917536, 917631); (917760, 917999)]%N.

Definition inRanges (ranges : list (N * N)) (c : N) : bool :=
  existsb (fun r => (fst r <=? c)%N && (c <=? snd r)%N) ranges.

Fixpoint lowerIn (runs : list (N * N * N * N)) (c : N) : N :=
  match runs with
  | [] => c
  | (first, last, step, lower) :: runs' =>
      if ((first <=? c) && (c <=? last) && ((c - first) mod step =? 0))%N
      then (lower + (c - first))%N
      else lowerIn runs' c
  end.

(** The lower-case form of a code point that has one code point as its
    form. *)
Definition lowerPoint (c : N) : N := lowerIn lowerCaseMappings c.

(** The code points of a string: a lead surrogate followed by a trail
    surrogate is one code point, every other code unit is one by itself. *)
Definition isLead (c : N) : bool := ((55296 <=? c) && (c <=? 56319))%N.
Definition isTrail (c : N) : bool := ((56320 <=? c) && (c <=? 57343))%N.

Fixpoint codePoints (s : jsstring) : list N :=
  match s with
  | [] => []
  | hi :: s' =>
      match s' with
      | lo :: s'' =>
          if isLead hi && isTrail lo
          then (65536 + (hi - 55296) * 1024 + (lo - 56320))%N :: codePoints s''
          else hi :: codePoints s'
      | [] => [hi]
      end
  end.

Definition codeUnits (c : N) : jsstring :=
  if (c <? 65536)%N then [c]
  else [(55296 + (c - 65536) / 1024)%N; (56320 + (c - 65536) mod 1024)%N].

(** Whether a cased letter follows, after any number of case-ignorable
    code points. *)
Fixpoint followedByCased (rest : list N) : bool :=
  match rest with
  | [] => false
  | c :: rest' =>
      if inRanges caseIgnorable c then followedByCased rest'
      else inRanges casedLetters c
  end.

(** The lower-case mapping of a sequence of code points. [afterCased] tells
    that the last code point so far that is not case-ignorable is a cased
    letter. The capital sigma (931) becomes the final sigma (962) after a
    cased letter when no cased letter follows, the small sigma (963)
    otherwise; the capital I with dot above (304) becomes two code
    points. *)
Fixpoint lowerPoints (afterCased : bool) (cps : list N) : list N :=
  match cps with
  | [] => []
  | c :: rest =>
      let afterCased' :=
        if inRanges caseIgnorable c then afterCased
        else inRanges casedLetters c in
      (if (c =? 931)%N
       then [if afterCased && negb (followedByCased rest) then 962%N else 963%N]
       else if (c =? 304)%N then [105%N; 775%N]
       else [lowerPoint c])
      ++ lowerPoints afterCased' rest
  end.

(** [s.toLowerCase()]: the code points of the string are mapped by the
    locale-insensitive lower-case mapping of the Unicode Character
    Database, which the tables above give. *)
Definition toLowerCase (s : jsstring) : jsstring :=
  flat_map codeUnits (lowerPoints false (codePoints s)).

(** [String(n)] for a non-negative integer: its decimal digits. *)
Definition ofNat (n : nat) : jsstring :=
  lit (NilZero.string_of_uint (Nat.to_uint n)).

(** [a.sort(cmp)]. ECMAScript fixes the result for a consistent comparator:
    the stable sorted arrangement. Insertion from the right end computes
    it: an element goes before the first one that it does not have to
    follow. *)
Fixpoint insertSorted {A} (cmp : A -> A -> Z) (x : A) (l : list A) : list A :=
  match l with
  | [] => [x]
  | y :: l' => if (cmp x y <=? 0)%Z then x :: l else y :: insertSorted cmp x l'
  end.

Definition sort {A} (cmp : A -> A -> Z) (l : list A) : list A :=
  foldr (insertSorted cmp) [] l.

(** [a.forEach((x, i) => ...)] with the state that the callback updates. *)
Fixpoint forEach {A St} (f : St -> A -> nat -> St) (l : list A) (i : nat)
  (s : St) : St :=
  match l with
  | [] => s
  | x :: l' => forEach f l' (S i) (f s x i)
  end.

(** [a.join(sep)] *)
Fixpoint join (sep : jsstring) (a : list jsstring) : jsstring :=
  match a with
  | [] => []
  | [x] => x
  | x :: a' => x ++ sep ++ join sep a'
  end.

(** *** Regular expressions

    The patterns of the source are sequences of literal code units, optional
    code units, character classes and white-space runs, possibly with
    alternatives at top level and a [^] anchor; none has a capture group
    whose text is used. Matching is the backtracking, greedy, leftmost
    matching of ECMAScript. *)

Inductive atom :=
| Chr (c : N)              (* a literal code unit *)
| OptChr (c : N)           (* [c?] *)
| OneOf (cs : list N)      (* a class such as [[.!?]] *)
| Space0                   (* [\s*] *)
| Space1.                  (* [\s+] *)

Record regex := Regex {
  anchored : bool;               (* the pattern starts with [^] *)
  alternatives : list (list atom);
  ignoreCase : bool;             (* flag [i] *)
  global : bool                  (* flag [g] *)
}.

(** A string literal between double quotes, inside a longer literal. *)
Definition quoted (s : string) : jsstring := [34%N] ++ lit s ++ [34%N].
Arguments quoted s%_string.

Definition chars (s : string) : list atom := Chr <$> lit s.
Arguments chars s%_string.

(** Comparison of a pattern unit with an input unit. Under [i] both are
    canonicalized; the patterns are ASCII, and ECMAScript never canonicalizes
    a unit outside ASCII to one inside it. *)
Definition unitEq (ic : bool) (p c : N) : bool :=
  if ic then (upperUnit p =? upperUnit c)%N else (p =? c)%N.

(** Greedy [\s*] followed by the continuation [k]: the longest run first,
    giving white space back while [k] fails. The result counts the code units
    consumed. *)
Fixpoint spaces (k : jsstring -> option nat) (s : jsstring) : option nat :=
  match s with
  | x :: s' =>
      if isWhiteSpace x
      then match spaces k s' with
           | Some n => Some (S n)
           | None => k s
           end
      else k s
  | [] => k []
  end.

Fixpoint matchAtoms (ic : bool) (p : list atom) (s : jsstring) {struct p}
  : option nat :=
  match p with
  | [] => Some 0
  | a :: p' =>
      match a with
      | Chr c =>
          match s with
          | x :: s' => if unitEq ic c x then S <$> matchAtoms ic p' s' else None
          | [] => None
          end
      | OptChr c =>
          match s with
          | x :: s' =>
              if unitEq ic c x
              then match matchAtoms ic p' s' with
                   | Some n => Some (S n)
                   | None => matchAtoms ic p' s
                   end
              else matchAtoms ic p' s
          | [] => matchAtoms ic p' []
          end
      | OneOf cs =>
          match s with
          | x :: s' =>
              if existsb (fun c => unitEq ic c x) cs
              then S <$> matchAtoms ic p' s' else None
          | [] => None
          end
      | Space0 => spaces (matchAtoms ic p') s
      | Space1 =>
          match s with
          | x :: s' =>
              if isWhiteSpace x then S <$> spaces (matchAtoms ic p') s' else None
          | [] => None
          end
      end
  end.

(** The length of the match starting at the head of [s]: the first
    alternative that matches. *)
Fixpoint matchAlts (ic : bool) (alts : list (list atom)) (s : jsstring)
  : option nat :=
  match alts with
  | [] => None
  | p :: alts' =>
      match matchAtoms ic p s with
      | Some n => Some n
      | None => matchAlts ic alts' s
      end
  end.

Definition matchHere (r : regex) (s : jsstring) : option nat :=
  matchAlts (ignoreCase r) (alternatives r) s.

(** The leftmost match: the text before it and its length. *)
Fixpoint search (r : regex) (before : jsstring) (s : jsstring)
  : option (jsstring * nat) :=
  match matchHere r s with
  | Some n => Some (reverse before, n)
  | None =>
      match s with
      | [] => None
      | c :: s' => search r (c :: before) s'
      end
  end.

Definition exec (r : regex) (s : jsstring) : option (jsstring * nat) :=
  if anchored r
  then (fun n => ([], n)) <$> matchHere r s
  else search r [] s.

(** [r.test(s)] *)
Definition test (r : regex) (s : jsstring) : bool :=
  bool_decide (is_Some (exec r s)).

(** All the matches of a global pattern, left to right, not overlapping.
    [skip] counts the code units of the current match still to pass. None of
    the patterns matches the empty string. *)
Fixpoint matchesFrom (r : regex) (skip : nat) (s : jsstring) : list jsstring :=
  match s with
  | [] => []
  | _ :: s' =>
      match skip with
      | S k => matchesFrom r k s'
      | 0 =>
          match matchHere r s with
          | Some (S k) => take (S k) s :: matchesFrom r k s'
          | _ => matchesFrom r 0 s'
          end
      end
  end.

(** [s.match(r)]: [None] is [null]; otherwise the array that [match]
    returns, which for a global pattern holds every match and for the others
    the one match (the patterns have no capture groups to add). *)
Definition match_ (r : regex) (s : jsstring) : option (list jsstring) :=
  if global r
  then match matchesFrom r 0 s with
       | [] => None
       | ms => Some ms
       end
  else (fun bn => [take (snd bn) (drop (length (fst bn)) s)]) <$> exec r s.

(** [s.replace(r, '')] *)
Fixpoint removeFrom (r : regex) (skip : nat) (s : jsstring) : jsstring :=
  match s with
  | [] => []
  | c :: s' =>
      match skip with
      | S k => removeFrom r k s'
      | 0 =>
          match matchHere r s with
          | Some (S k) => removeFrom r k s'
          | _ => c :: removeFrom r 0 s'
          end
      end
  end.

Definition remove (r : regex) (s : jsstring) : jsstring :=
  if global r
  then removeFrom r 0 s
  else match exec r s with
       | Some (before, n) => before ++ drop (length before + n) s
       | None => s
       end.

(** [s.split(r)], for a pattern that does not match the empty string: the
    pieces between the matches, the last piece included even when empty. *)
Fixpoint splitFrom (r : regex) (skip : nat) (piece : jsstring) (s : jsstring)
  : list jsstring :=
  match s with
  | [] => [reverse piece]
  | c :: s' =>
      match skip with
      | S k => splitFrom r k piece s'
      | 0 =>
          match matchHere r s with
          | Some (S k) => reverse piece :: splitFrom r k [] s'
          | _ => splitFrom r 0 (c :: piece) s'
          end
      end
  end.

Definition split (r : regex) (s : jsstring) : list jsstring := splitFrom r 0 [] s.

End JS.

Import JS.

(** ** The rendered document *)

Module DOM.

(** What layout gives for an element: the rectangle of
    [getBoundingClientRect()], [offsetHeight], the [display] and
    [visibility] of [getComputedStyle()] and the rendered [innerText].
    Lengths are in CSS pixels, taken as integers. *)
Record box := Box {
  top : Z;
  bottom : Z;
  width : Z;
  height : Z;
  offsetHeight : Z;
  display : jsstring;
  visibility : jsstring;
  innerText : jsstring
}.

(** A node is a text node or an element with its local name (lower case, as
    the HTML parser gives it), its attributes, its layout and its child
    nodes. *)
Inductive node :=
| Text (data : jsstring)
| Elem (localName : jsstring) (attributes : list (jsstring * jsstring))
       (layout : box) (childNodes : list node).

(** An element is referred to by its position: the child indices from the
    root of its tree down to it. Two references are the same element exactly
    when the paths are equal. *)
Abbreviation path := (list nat).

Fixpoint nodeAt (n : node) (p : path) : option node :=
  match p with
  | [] => Some n
  | i :: p' =>
      match n with
      | Elem _ _ _ cs =>
          match cs !! i with
          | Some c => nodeAt c p'
          | None => None
          end
      | Text _ => None
      end
  end.

Definition isElement (n : node) : bool :=
  match n with
  | Elem _ _ _ _ => true
  | Text _ => false
  end.

Definition childNodesOf (n : node) : list node :=
  match n with
  | Elem _ _ _ cs => cs
  | Text _ => []
  end.

Definition box0 : box := Box 0 0 0 0 0 [] [] [].

Definition layoutOf (n : node) : box :=
  match n with
  | Elem _ _ l _ => l
  | Text _ => box0
  end.

Definition tagOf (n : node) : jsstring :=
  match n with
  | Elem t _ _ _ => t
  | Text _ => []
  end.

Fixpoint assoc (a : jsstring) (l : list (jsstring * jsstring)) : option jsstring :=
  match l with
  | [] => None
  | (k, v) :: l' => if JS.eqb k a then Some v else assoc a l'
  end.

(** [el.getAttribute(a)] *)
Definition getAttribute (n : node) (a : jsstring) : option jsstring :=
  match n with
  | Elem _ attrs _ _ => assoc a attrs
  | Text _ => None
  end.

(** [el.id] and [el.classList.toString()]: the attribute's value, or the
    empty string. *)
Definition idOf (n : node) : jsstring := default [] (getAttribute n (lit "id")).
Definition className (n : node) : jsstring := default [] (getAttribute n (lit "class")).

Definition isAsciiSpace (c : N) : bool :=
  ((c =? 9) || (c =? 10) || (c =? 12) || (c =? 13) || (c =? 32))%N.

(** The tokens of a space-separated attribute value. *)
Fixpoint tokensFrom (cur : jsstring) (s : jsstring) : list jsstring :=
  match s with
  | [] => match cur with [] => [] | _ => [reverse cur] end
  | c :: s' =>
      if isAsciiSpace c
      then match cur with
           | [] => tokensFrom [] s'
           | _ => reverse cur :: tokensFrom [] s'
           end
      else tokensFrom (c :: cur) s'
  end.

Definition classList (n : node) : list jsstring := tokensFrom [] (className n).

(** [el.classList.contains(c)] *)
Definition hasClass (n : node) (c : jsstring) : bool :=
  existsb (JS.eqb c) (classList n).

(** [n.textContent]: the text of the descendants, in document order. *)
Fixpoint textContent (n : node) : jsstring :=
  match n with
  | Text d => d
  | Elem _ _ _ cs =>
      (fix all (cs : list node) : jsstring :=
         match cs with
         | [] => []
         | c :: cs' => textContent c ++ all cs'
         end) cs
  end.

(** The elements of the subtree of [n], which is at [p]: [n] first when it
    is an element, then its descendants, in document order. *)
Fixpoint elementsOf (n : node) (p : path) : list path :=
  match n with
  | Text _ => []
  | Elem _ _ _ cs =>
      p :: (fix kids (cs : list node) (i : nat) : list path :=
              match cs with
              | [] => []
              | c :: cs' => elementsOf c (p ++ [i]) ++ kids cs' (S i)
              end) cs 0
  end.

(** The element descendants of the element at [p]. *)
Definition descendants (root : node) (p : path) : list path :=
  match nodeAt root p with
  | Some n => drop 1 (elementsOf n p)
  | None => []
  end.

(** The node at [p] followed by its ancestors, nearest first; empty when
    [p] is not a position of the tree. *)
Fixpoint lineage (n : node) (p : path) (above : list node) : list node :=
  match p with
  | [] => n :: above
  | i :: p' =>
      match n with
      | Elem _ _ _ cs =>
          match cs !! i with
          | Some c => lineage c p' (n :: above)
          | None => []
          end
      | Text _ => []
      end
  end.

(** *** Selectors *)

Inductive simple :=
| Type_ (t : jsstring)                 (* [div] *)
| Attr (a : jsstring)                  (* [[a]] *)
| Class (c : jsstring)                 (* [.c] *)
| Id (i : jsstring)                    (* [#i] *)
| AttrEq (a v : jsstring)              (* [[a="v"]] *)
| AttrPrefix (a v : jsstring)          (* [[a^="v"]] *)
| AttrSub (a v : jsstring).            (* [[a*="v"]] *)

(** A compound selector is a sequence of simple selectors on one element, a
    complex selector is a sequence of compound selectors separated by the
    descendant combinator (written left to right as in the source, the
    subject last), and a selector list is what the commas separate. *)
Abbreviation compound := (list simple).
Abbreviation complex := (list compound).
Abbreviation selector := (list complex).

(** The attributes whose values a selector matches without regard to ASCII
    case on an HTML element of an HTML document (HTML, "Case-sensitivity of
    selectors"); the values of all other attributes are matched as they
    are. The documents are HTML documents in no-quirks mode and their
    elements are HTML elements, so a class or an [id] is matched as it
    is. *)
Definition caseInsensitiveAttributes : list jsstring :=
  lit <$>
    [ "accept"; "accept-charset"; "align"; "alink"; "axis"; "bgcolor";
      "charset"; "checked"; "clear"; "codetype"; "color"; "compact";
      "declare"; "defer"; "dir"; "direction"; "disabled"; "enctype"; "face";
      "frame"; "hreflang"; "http-equiv"; "lang"; "language"; "link"; "media";
      "method"; "multiple"; "nohref"; "noresize"; "noshade"; "nowrap";
      "readonly"; "rel"; "rev"; "rules"; "scope"; "scrolling"; "selected";
      "shape"; "target"; "text"; "type"; "valign"; "valuetype"; "vlink"
    ]%string.

(** A value as the selector compares it, for the attribute [a]. *)
Definition comparedValue (a : jsstring) (x : jsstring) : jsstring :=
  if bool_decide (a ∈ caseInsensitiveAttributes) then lowerUnit <$> x else x.

Definition matchSimple (n : node) (s : simple) : bool :=
  match s with
  | Type_ t => JS.eqb (tagOf n) t
  | Class c => hasClass n c
  | Id i => bool_decide (getAttribute n (lit "id") = Some i)
  | Attr a => bool_decide (is_Some (getAttribute n a))
  | AttrEq a v =>
      match getAttribute n a with
      | Some x => JS.eqb (comparedValue a x) (comparedValue a v)
      | None => false
      end
  | AttrPrefix a v =>
      match getAttribute n a with
      | Some x =>
          negb (JS.eqb v [])
          && startsWith (comparedValue a x) (comparedValue a v)
      | None => false
      end
  | AttrSub a v =>
      match getAttribute n a with
      | Some x =>
          negb (JS.eqb v [])
          && includes (comparedValue a x) (comparedValue a v)
      | None => false
      end
  end.

Definition matchCompound (n : node) (c : compound) : bool :=
  isElement n && forallb (matchSimple n) c.

(** The compounds [cs], nearest first, are matched by ancestors taken in
    order from [above], nearest first. *)
Fixpoint matchAbove (above : list node) (cs : list compound) {struct above}
  : bool :=
  match cs with
  | [] => true
  | c :: cs' =>
      match above with
      | [] => false
      | a :: above' =>
          if matchCompound a c then matchAbove above' cs' else matchAbove above' cs
      end
  end.

Definition matchComplex (self : node) (above : list node) (cx : complex) : bool :=
  match reverse cx with
  | [] => false
  | subject :: outer => matchCompound self subject && matchAbove above outer
  end.

(** [el.matches(sel)] for the element at [p] of the tree [root]. *)
Definition matchesAt (root : node) (sel : selector) (p : path) : bool :=
  match lineage root p [] with
  | self :: above => existsb (matchComplex self above) sel
  | [] => false
  end.

(** [el.querySelectorAll(sel)], [el.querySelector(sel)] for the element at
    [p]: among its descendants, in document order. *)
Definition querySelectorAll (root : node) (p : path) (sel : selector) : list path :=
  List.filter (matchesAt root sel) (descendants root p).

Definition querySelector (root : node) (p : path) (sel : selector) : option path :=
  head (querySelectorAll root p sel).

(** [document.querySelectorAll(sel)], [document.querySelector(sel)]: among
    all the elements of the document, its root element included. *)
Definition documentQuerySelectorAll (root : node) (sel : selector) : list path :=
  List.filter (matchesAt root sel) (elementsOf root []).

Definition documentQuerySelector (root : node) (sel : selector) : option path :=
  head (documentQuerySelectorAll root sel).

(** *** Tree navigation *)

(** [el.parentElement]: [None] for the root element, whose parent is the
    document. *)
Fixpoint parentElement (p : path) : option path :=
  match p with
  | [] => None
  | [_] => Some []
  | i :: p' => (cons i) <$> parentElement p'
  end.

(** The positions of the element children of the element at [p]:
    [Array.from(el.children)]. *)
Fixpoint elementIndices (cs : list node) (i : nat) : list nat :=
  match cs with
  | [] => []
  | c :: cs' =>
      if isElement c then i :: elementIndices cs' (S i) else elementIndices cs' (S i)
  end.

Definition children (root : node) (p : path) : list path :=
  match nodeAt root p with
  | Some n => (fun i => p ++ [i]) <$> elementIndices (childNodesOf n) 0
  | None => []
  end.

(** [a.indexOf(x)], [a.findIndex(f)]: [None] is [-1]. *)
Fixpoint findIndex {A} (f : A -> bool) (l : list A) : option nat :=
  match l with
  | [] => None
  | x :: l' => if f x then Some 0 else S <$> findIndex f l'
  end.

Definition indexOf (l : list path) (p : path) : option nat :=
  findIndex (fun q => bool_decide (q = p)) l.

(** [a.includes(x)] on an array of elements. *)
Definition includesEl (l : list path) (p : path) : bool :=
  bool_decide (p ∈ l).

(** [el.nextElementSibling] *)
Definition nextElementSibling (root : node) (p : path) : option path :=
  match parentElement p with
  | None => None
  | Some parent =>
      let sibs := children root parent in
      match indexOf sibs p with
      | Some i => sibs !! S i
      | None => None
      end
  end.

(** [el.closest(sel)]: the element itself or its nearest matching ancestor.
    The recursion is on the number of steps still allowed, at most the depth
    of [p]. *)
Fixpoint closestFrom (root : node) (sel : selector) (steps : nat) (p : path)
  : option path :=
  if matchesAt root sel p then Some p
  else match steps with
       | 0 => None
       | S k =>
           match parentElement p with
           | Some q => closestFrom root sel k q
           | None => None
           end
       end.

Definition closest (root : node) (p : path) (sel : selector) : option path :=
  closestFrom root sel (length p) p.

(** *** Document position *)

(** [before p q]: the element at [p] comes before the one at [q] in document
    order (an ancestor comes before its descendants). *)
Fixpoint before (p q : path) : bool :=
  match p, q with
  | [], [] => false
  | [], _ :: _ => true
  | _ :: _, [] => false
  | i :: p', j :: q' =>
      if i <? j then true else if i =? j then before p' q' else false
  end.

Fixpoint isPrefix (p q : path) : bool :=
  match p, q with
  | [], _ => true
  | i :: p', j :: q' => (i =? j) && isPrefix p' q'
  | _ :: _, [] => false
  end.

(** [a.contains(b)]: [b] is [a] or a descendant of it. *)
Definition contains (a b : path) : bool := isPrefix a b.

Definition DOCUMENT_POSITION_PRECEDING : Z := 2.
Definition DOCUMENT_POSITION_FOLLOWING : Z := 4.
Definition DOCUMENT_POSITION_CONTAINS : Z := 8.
Definition DOCUMENT_POSITION_CONTAINED_BY : Z := 16.

(** [a.compareDocumentPosition(b)] for two elements of one tree: the bit
    mask that describes where [b] is with respect to [a]. *)
Definition compareDocumentPosition (a b : path) : Z :=
  if bool_decide (a = b) then 0%Z
  else if isPrefix a b
       then Z.lor DOCUMENT_POSITION_CONTAINED_BY DOCUMENT_POSITION_FOLLOWING
  else if isPrefix b a
       then Z.lor DOCUMENT_POSITION_CONTAINS DOCUMENT_POSITION_PRECEDING
  else if before a b then DOCUMENT_POSITION_FOLLOWING
  else DOCUMENT_POSITION_PRECEDING.

(** *** Cloning and removal *)

(** [el.cloneNode(true)]: the subtree, as the root of a tree of its own. *)
Definition cloneNode (root : node) (p : path) : option node := nodeAt root p.

(** [els.forEach(el => el.remove())] on a tree [n] (at [p]), for elements
    [els] found in it beforehand: each is taken out of its parent, with its
    subtree. *)
Fixpoint removeAll (els : list path) (n : node) (p : path) : node :=
  match n with
  | Text _ => n
  | Elem t a l cs =>
      Elem t a l
        ((fix kids (cs : list node) (i : nat) : list node :=
            match cs with
            | [] => []
            | c :: cs' =>
                if includesEl els (p ++ [i])
                then kids cs' (S i)
                else removeAll els c (p ++ [i]) :: kids cs' (S i)
            end) cs 0)
  end.

(** [clone.querySelectorAll(sel).forEach(el => el.remove())] then
    [clone.textContent]. *)
Definition strippedText (clone : node) (sel : selector) : jsstring :=
  textContent (removeAll (querySelectorAll clone [] sel) clone []).

Definition textAt (root : node) (p : path) : jsstring :=
  match nodeAt root p with
  | Some n => textContent n
  | None => []
  end.

Definition layoutAt (root : node) (p : path) : box :=
  match nodeAt root p with
  | Some n => layoutOf n
  | None => box0
  end.

(** *** The window *)

(** [document] is given by its root element. [now] gives the value of the
    n-th call of [Date.now()] during a scan. *)
Record window := Window {
  document : node;
  innerHeight : Z;
  now : nat -> Z
}.

Definition isTag (t : jsstring) (n : node) : bool :=
  isElement n && JS.eqb (tagOf n) t.

(** [document.body]: the first [body] or [frameset] child of the [html]
    root element, if any. *)
Definition body (root : node) : option path :=
  if isTag (lit "html") root
  then (fun i => [i]) <$>
       findIndex (fun c => isTag (lit "body") c || isTag (lit "frameset") c)
                 (childNodesOf root)
  else None.

End DOM.

Import DOM.

(** A message record, as the strategies build it. [order] is [None] for a
    record that has no such property. *)
Module Message.
Record t := Make {
  id : jsstring;
  role : jsstring;
  content : jsstring;
  fullContent : jsstring;
  element : path;
  timestamp : Z;
  order : option nat
}.
End Message.

(** The content fingerprint that every strategy puts in the identifier:
    [content.substring(0, 50).replace(/\s/g, '').substring(0, 20)]. *)
Definition contentHash (content : jsstring) : jsstring :=
  substring0 20 (stripWhiteSpace (substring0 50 content)).

(** The template [`msg-${platform}-${role}-${index}-${contentHash}`]. *)
Definition messageId (platform role : jsstring) (index : nat) (hash : jsstring)
  : jsstring :=
  lit "msg-" ++ platform ++ lit "-" ++ role ++ lit "-" ++ ofNat index
    ++ lit "-" ++ hash.

(** [a || b] on values that are [null] or an element. *)
Definition orElse {A} (a b : option A) : option A :=
  match a with
  | Some _ => a
  | None => b
  end.
Infix "<||>" := orElse (at level 51, right associativity).

(** ** The ChatGPT strategy (src/unnamed/part_000) *)

Module ChatGPT.

Definition name : jsstring := lit "ChatGPT".
Definition hostnames : list jsstring := [lit "chat.openai.com"; lit "chatgpt.com"].

(** [main] *)
Definition selMain : selector := [[[Type_ (lit "main")]]].
(** [[data-message-author-role]] *)
Definition selRole : selector := [[[Attr (lit "data-message-author-role")]]].
(** [.whitespace-pre-wrap], [.markdown], [.text-base], [[class*="message"]] *)
Definition selWhitespace : selector := [[[Class (lit "whitespace-pre-wrap")]]].
Definition selMarkdown : selector := [[[Class (lit "markdown")]]].
Definition selTextBase : selector := [[[Class (lit "text-base")]]].
Definition selMessage : selector := [[[AttrSub (lit "class") (lit "message")]]].

(** One priority of the content chain: when [content] is still empty and
    the selector finds below [el] an element whose trimmed text is not
    empty, that text. *)
Definition tryContent (root : node) (el : path) (sel : selector)
  (content : jsstring) : jsstring :=
  match content with
  | _ :: _ => content
  | [] =>
      match querySelector root el sel with
      | Some found =>
          match trim (textAt root found) with
          | [] => content
          | t => t
          end
      | None => content
      end
  end.

(** The content of one message element, before normalization. *)
Definition extractContent (root : node) (el : path) : jsstring :=
  let content := tryContent root el selWhitespace [] in
  let content := tryContent root el selMarkdown content in
  let content := tryContent root el selTextBase content in
  match content with
  | _ :: _ => content
  | [] =>
      let messageContent := default el (querySelector root el selMessage) in
      trim (textAt root messageContent)
  end.

(** The body of the [forEach] callback: the messages collected so far, the
    element and its index. *)
Definition step (w : window) (newMessages : list Message.t) (el : path)
  (index : nat) : list Message.t :=
  let root := document w in
  match nodeAt root el ≫= (fun n => getAttribute n (lit "data-message-author-role")) with
  | None | Some [] => newMessages
  | Some roleAttr =>
      let role := roleAttr in
      let content := trim (collapseWhiteSpace (extractContent root el)) in
      match content with
      | [] => newMessages
      | _ =>
          newMessages ++
            [Message.Make
               (messageId (lit "chatgpt") role index (contentHash content))
               role
               (substring0 200 content)
               content
               el
               (now w (length newMessages))
               None]
      end
  end.

Definition detectMessages (w : window) : list Message.t :=
  match documentQuerySelector (document w) selMain with
  | None => []
  | Some container =>
      let messageElements := querySelectorAll (document w) container selRole in
      forEach (step w) messageElements 0 []
  end.

Definition getContainer (w : window) : option path :=
  documentQuerySelector (document w) selMain.

Definition getMessageSelector : jsstring := lit "[data-message-author-role]".

End ChatGPT.

(** ** The Qwen strategy (src/background.js) *)

Module Qwen.

Definition name : jsstring := lit "Qwen".
Definition hostnames : list jsstring := [lit "chat.qwen.ai"; lit "qwen.ai"].

(** [.chat-messages-container], [[class*="chat-messages"]], [main] *)
Definition selContainer : selector := [[[Class (lit "chat-messages-container")]]].
Definition selChatMessages : selector := [[[AttrSub (lit "class") (lit "chat-messages")]]].
Definition selMain : selector := [[[Type_ (lit "main")]]].

(** [div[id^="message-"]] *)
Definition selAllMessages : selector :=
  [[[Type_ (lit "div"); AttrPrefix (lit "id") (lit "message-")]]].

(** [.response-message-body, .markdown-content-container,
    .text-response-render-container] *)
Definition selResponseContent : selector :=
  [[[Class (lit "response-message-body")]];
   [[Class (lit "markdown-content-container")]];
   [[Class (lit "text-response-render-container")]]].

(** The user content selectors, in the order tried. *)
Definition userContentSelectors : list selector :=
  [ (* .user-message-text-content p.user-message-content.whitespace-pre-wrap *)
    [[[Class (lit "user-message-text-content")];
      [Type_ (lit "p"); Class (lit "user-message-content");
       Class (lit "whitespace-pre-wrap")]]];
    (* p.user-message-content.whitespace-pre-wrap *)
    [[[Type_ (lit "p"); Class (lit "user-message-content");
       Class (lit "whitespace-pre-wrap")]]];
    (* p.user-message-content *)
    [[[Type_ (lit "p"); Class (lit "user-message-content")]]];
    (* [class*="user-message-content"] *)
    [[[AttrSub (lit "class") (lit "user-message-content")]]] ].

(** [.user-message-text-content] *)
Definition selTextContainer : selector :=
  [[[Class (lit "user-message-text-content")]]].

(** The assistant content selectors, in the order tried. *)
Definition assistantContentSelectors : list selector :=
  [ (* #response-content-container.markdown-content-container *)
    [[[Id (lit "response-content-container");
       Class (lit "markdown-content-container")]]];
    (* .markdown-content-container.markdown-prose *)
    [[[Class (lit "markdown-content-container"); Class (lit "markdown-prose")]]];
    (* .text-response-render-container *)
    [[[Class (lit "text-response-render-container")]]];
    (* .markdown-content-container *)
    [[[Class (lit "markdown-content-container")]]] ].

(** [.response-message-body] *)
Definition selResponseBody : selector := [[[Class (lit "response-message-body")]]].

(** [button, svg, .message-footer, [class*="button"], [class*="footer"]] *)
Definition selControls : selector :=
  [[[Type_ (lit "button")]]; [[Type_ (lit "svg")]];
   [[Class (lit "message-footer")]];
   [[AttrSub (lit "class") (lit "button")]];
   [[AttrSub (lit "class") (lit "footer")]]].

(** The same with [[class*="action"]] added. *)
Definition selControlsAndActions : selector :=
  selControls ++ [[[AttrSub (lit "class") (lit "action")]]].

(** The first element that one of the selectors finds below [el]: the chain
    of [if (!contentEl) contentEl = msgEl.querySelector(...)]. *)
Fixpoint firstFound (root : node) (el : path) (sels : list selector) : option path :=
  match sels with
  | [] => None
  | sel :: sels' => querySelector root el sel <||> firstFound root el sels'
  end.

(** Clone the element at [el], remove what [sel] finds in the clone and take
    the trimmed text. *)
Definition cloneStripTrim (root : node) (el : path) (sel : selector) : jsstring :=
  match cloneNode root el with
  | Some clone => trim (strippedText clone sel)
  | None => []
  end.

Definition userContent (root : node) (msgEl : path) : jsstring :=
  match firstFound root msgEl userContentSelectors with
  | Some contentEl => trim (textAt root contentEl)
  | None =>
      match querySelector root msgEl selTextContainer with
      | Some textContainer => cloneStripTrim root textContainer selControls
      | None => cloneStripTrim root msgEl selControlsAndActions
      end
  end.

Definition assistantContent (root : node) (msgEl : path) : jsstring :=
  match firstFound root msgEl assistantContentSelectors with
  | Some contentContainer => cloneStripTrim root contentContainer selControlsAndActions
  | None =>
      match querySelector root msgEl selResponseBody with
      | Some responseBody => cloneStripTrim root responseBody selControls
      | None => cloneStripTrim root msgEl selControlsAndActions
      end
  end.

(** The state of the scan loop: [messages], [order] and [seen]. *)
Record scan := Scan {
  messages : list Message.t;
  order : nat;
  seen : gset (list N)
}.

(** [msgId.includes('input-container') || msgId.includes('button-') ||
    msgId.includes('language')] *)
Definition isNonMessageId (msgId : jsstring) : bool :=
  includes msgId (lit "input-container") || includes msgId (lit "button-")
  || includes msgId (lit "language").

Definition hasUserClass (n : node) : bool := hasClass n (lit "user-message").

Definition hasResponseClass (n : node) : bool :=
  hasClass n (lit "response-meesage-container")
  || hasClass n (lit "response-message-container").

Definition hasResponseContent (root : node) (msgEl : path) : bool :=
  bool_decide (is_Some (querySelector root msgEl selResponseContent)).

(** The body of the [forEach] callback. *)
Definition step (w : window) (st : scan) (msgEl : path) (idx : nat) : scan :=
  let root := document w in
  match nodeAt root msgEl with
  | None => st
  | Some n =>
      let msgId := idOf n in
      if JS.eqb msgId [] || bool_decide (msgId ∈ seen st) then st
      else if isNonMessageId msgId then st
      else
        let isUserMessage := hasUserClass n in
        let isAssistantMessage :=
          hasResponseClass n || hasResponseContent root msgEl in
        if negb isUserMessage && negb isAssistantMessage then st
        else
          let seen' := {[ msgId ]} ∪ seen st in
          let role := if isUserMessage then lit "user" else lit "assistant" in
          let content :=
            if isUserMessage then userContent root msgEl
            else assistantContent root msgEl in
          match content with
          | [] => Scan (messages st) (order st) seen'
          | _ =>
              Scan
                (messages st ++
                   [Message.Make
                      (messageId (lit "qwen") role (order st) (contentHash content))
                      role
                      (substring0 200 content)
                      content
                      msgEl
                      (now w (length (messages st)))
                      (Some (order st))])
                (S (order st))
                seen'
          end
  end.

(** The comparator of the final sort. *)
Definition byPosition (a b : Message.t) : Z :=
  let aPos := compareDocumentPosition (Message.element a) (Message.element b) in
  if (Z.land aPos DOCUMENT_POSITION_FOLLOWING =? 0)%Z then 1%Z else (-1)%Z.

Definition setOrder (idx : nat) (msg : Message.t) : Message.t :=
  Message.Make (Message.id msg) (Message.role msg) (Message.content msg)
    (Message.fullContent msg) (Message.element msg) (Message.timestamp msg)
    (Some idx).

(** [messages.sort(...)] and then [messages.forEach((msg, idx) => msg.order = idx)]. *)
Definition sortAndReorder (messages : list Message.t) : list Message.t :=
  imap setOrder (JS.sort byPosition messages).

(** The container resolution at the head of [detectMessages] and in
    [getContainer]. *)
Definition resolveContainer (root : node) : option path :=
  documentQuerySelector root selContainer
  <||> documentQuerySelector root selChatMessages
  <||> documentQuerySelector root selMain
  <||> body root.

Definition detectMessages (w : window) : list Message.t :=
  let container := resolveContainer (document w) in
  let allMessages := documentQuerySelectorAll (document w) selAllMessages in
  sortAndReorder (messages (forEach (step w) allMessages 0 (Scan [] 0 ∅))).

Definition getContainer (w : window) : option path :=
  resolveContainer (document w).

Definition getMessageSelector : jsstring :=
  lit "div.user-message[id^=" ++ quoted "message-" ++ lit "], div[id^="
    ++ quoted "message-" ++ lit "][class*="
    ++ quoted "response-meesage-container" ++ lit "]".

(** [[class*="response-meesage-container"]] on a [div[id^="message-"]] *)
Definition selAssistantMessages : selector :=
  [[[Type_ (lit "div"); AttrPrefix (lit "id") (lit "message-");
     AttrSub (lit "class") (lit "response-meesage-container")]]].

(** [#response-content-container, .markdown-content-container] *)
Definition selStreamingContent : selector :=
  [[[Id (lit "response-content-container")]];
   [[Class (lit "markdown-content-container")]]].

(** [[class*="loading"], [class*="streaming"], [aria-busy="true"]] *)
Definition selLoading : selector :=
  [[[AttrSub (lit "class") (lit "loading")]];
   [[AttrSub (lit "class") (lit "streaming")]];
   [[AttrEq (lit "aria-busy") (lit "true")]]].

Definition isStreaming (w : window) : bool :=
  let root := document w in
  let assistantMessages := documentQuerySelectorAll root selAssistantMessages in
  existsb
    (fun msg =>
       match querySelector root msg selStreamingContent with
       | Some contentContainer =>
           bool_decide (is_Some (querySelector root msg selLoading))
       | None => false
       end)
    assistantMessages.

Definition getDebounceTime : Z := 400.
Definition getStreamingWaitTime : Z := 1500.

End Qwen.

(** ** The Claude strategy (src/background.js) *)

Module Claude.

Definition name : jsstring := lit "Claude".
Definition hostnames : list jsstring := [lit "claude.ai"].

(** [[data-testid="conversation-turn-list"]], [main],
    [[class*="conversation"]] *)
Definition selTurnList : selector :=
  [[[AttrEq (lit "data-testid") (lit "conversation-turn-list")]]].
Definition selMain : selector := [[[Type_ (lit "main")]]].
Definition selConversation : selector :=
  [[[AttrSub (lit "class") (lit "conversation")]]].

(** [[data-testid="user-message"]], [[data-testid="chat-user-message-content"]] *)
Definition selUserMessage : selector :=
  [[[AttrEq (lit "data-testid") (lit "user-message")]]].
Definition selChatUserContent : selector :=
  [[[AttrEq (lit "data-testid") (lit "chat-user-message-content")]]].

(** The container resolution at the head of [detectMessages]. *)
Definition resolveContainer (root : node) : option path :=
  documentQuerySelector root selTurnList
  <||> documentQuerySelector root selMain
  <||> documentQuerySelector root selConversation
  <||> body root.

(** The user elements: the first of four queries that finds any. *)
Definition findUserElements (root : node) (container : path) : list path :=
  let userElements := querySelectorAll root container selUserMessage in
  let userElements :=
    if length userElements =? 0
    then documentQuerySelectorAll root selUserMessage else userElements in
  let userElements :=
    if length userElements =? 0
    then querySelectorAll root container selChatUserContent else userElements in
  let userElements :=
    if length userElements =? 0
    then documentQuerySelectorAll root selChatUserContent else userElements in
  userElements.

(** [el.textContent || el.innerText || ''] *)
Definition renderedText (root : node) (el : path) : jsstring :=
  match textAt root el with
  | [] => innerText (layoutAt root el)
  | t => t
  end.

(** *** Heuristic A: the siblings of the ancestors *)

Definition assistantSelectors : list selector :=
  [ [[[AttrEq (lit "data-testid") (lit "chat-assistant-message-content")]]];
    [[[AttrEq (lit "data-testid") (lit "assistant-message")]]];
    [[[Class (lit "assistant-message")]]];
    [[[AttrEq (lit "data-role") (lit "assistant")]]];
    [[[Type_ (lit "div"); AttrSub (lit "class") (lit "assistant")]]];
    [[[Class (lit "claude-response")]]];
    [[[Type_ (lit "div"); AttrSub (lit "class") (lit "claude")]]];
    [[[Type_ (lit "div"); AttrSub (lit "class") (lit "response")]]] ].

(** [if (!assistantBlocks.includes(b)) assistantBlocks.push(b)] *)
Definition pushNew (assistantBlocks : list path) (b : path) : list path :=
  if includesEl assistantBlocks b then assistantBlocks else assistantBlocks ++ [b].

(** [el.classList.toString().toLowerCase()] *)
Definition lowerClasses (root : node) (el : path) : jsstring :=
  match nodeAt root el with
  | Some n => toLowerCase (className n)
  | None => []
  end.

Definition looksLikeUser (root : node) (el : path) : bool :=
  let classList := lowerClasses root el in
  includes classList (lit "user") || includes classList (lit "human").

(** The [for] loop over the siblings that follow the parent; it stops at a
    user element. *)
Fixpoint scanParentSiblings (root : node) (userElements : list path)
  (siblings : list path) (assistantBlocks : list path) : list path :=
  match siblings with
  | [] => assistantBlocks
  | sibling :: rest =>
      if includesEl userElements sibling then assistantBlocks
      else
        let assistantBlocks :=
          foldl (fun blocks selector =>
                   foldl pushNew blocks (querySelectorAll root sibling selector))
                assistantBlocks assistantSelectors in
        let siblingText := trim (textAt root sibling) in
        let assistantBlocks :=
          if (20 <? length siblingText)
             && (30 <? offsetHeight (layoutAt root sibling))%Z
             && negb (includesEl userElements sibling)
          then if looksLikeUser root sibling then assistantBlocks
               else pushNew assistantBlocks sibling
          else assistantBlocks in
        scanParentSiblings root userElements rest assistantBlocks
  end.

(** The [while] loop over the next siblings of the current element, at most
    [checked] of them still to look at. *)
Fixpoint scanNextSiblings (root : node) (userElements : list path)
  (checked : nat) (nextSibling : option path) (assistantBlocks : list path)
  : list path :=
  match checked, nextSibling with
  | S checked', Some next =>
      if includesEl userElements next then assistantBlocks
      else
        let text := trim (textAt root next) in
        let assistantBlocks :=
          if (20 <? length text) && (30 <? offsetHeight (layoutAt root next))%Z
          then if looksLikeUser root next then assistantBlocks
               else pushNew assistantBlocks next
          else assistantBlocks in
        scanNextSiblings root userElements checked'
          (nextElementSibling root next) assistantBlocks
  | _, _ => assistantBlocks
  end.

(** The ascent, [depth] levels still allowed. *)
Fixpoint ascend (root : node) (userElements : list path) (depth : nat)
  (current : path) (assistantBlocks : list path) : list path :=
  match depth with
  | 0 => assistantBlocks
  | S depth' =>
      match parentElement current with
      | None => assistantBlocks
      | Some parent =>
          let parentSiblings :=
            match parentElement parent with
            | Some grand => children root grand
            | None => []
            end in
          let first :=
            match indexOf parentSiblings parent with
            | Some parentIndex => parentIndex + 1
            | None => 0
            end in
          let assistantBlocks :=
            scanParentSiblings root userElements
              (take 4 (drop first parentSiblings)) assistantBlocks in
          let assistantBlocks :=
            scanNextSiblings root userElements 10
              (nextElementSibling root current) assistantBlocks in
          if 0 <? length assistantBlocks then assistantBlocks
          else ascend root userElements depth' parent assistantBlocks
      end
  end.

Definition maxDepth : nat := 10.

Definition heuristicA (root : node) (userElements : list path) (userEl : path)
  : list path :=
  ascend root userElements maxDepth userEl [].

(** *** Heuristic B: the blocks between two user messages *)

(** [div[class*="Message"], div[class*="message"], div[class*="Content"],
    div[class*="content"]] *)
Definition selCandidates : selector :=
  [[[Type_ (lit "div"); AttrSub (lit "class") (lit "Message")]];
   [[Type_ (lit "div"); AttrSub (lit "class") (lit "message")]];
   [[Type_ (lit "div"); AttrSub (lit "class") (lit "Content")]];
   [[Type_ (lit "div"); AttrSub (lit "class") (lit "content")]]].

(** [button, input, form, nav, header, footer] *)
Definition selChrome : selector :=
  [[[Type_ (lit "button")]]; [[Type_ (lit "input")]]; [[Type_ (lit "form")]];
   [[Type_ (lit "nav")]]; [[Type_ (lit "header")]]; [[Type_ (lit "footer")]]].

(** [/^(claude can make mistakes|please double-check|pondering)/i] *)
Definition reShortDisclaimer : regex :=
  Regex true
    [chars "claude can make mistakes"; chars "please double-check";
     chars "pondering"]
    true false.

(** The loop over the ancestors, [depth] levels still allowed. *)
Fixpoint parentHasAssistantClass (root : node) (depth : nat)
  (parent : option path) : bool :=
  match depth, parent with
  | S depth', Some par =>
      let parentClass := lowerClasses root par in
      if includes parentClass (lit "assistant")
         || includes parentClass (lit "claude")
         || includes parentClass (lit "response")
      then true
      else parentHasAssistantClass root depth' (parentElement par)
  | _, _ => false
  end.

(** The callback on one candidate. *)
Definition spatialStep (root : node) (userElements : list path)
  (userRect : box) (nextUserRect : option box)
  (assistantBlocks : list path) (el : path) : list path :=
  if includesEl userElements el
     || bool_decide (is_Some (closest root el selUserMessage))
  then assistantBlocks
  else
    let elRect := layoutAt root el in
    if (top elRect <=? bottom userRect)%Z then assistantBlocks
    else if match nextUserRect with
            | Some next => (top next <=? top elRect)%Z
            | None => false
            end
    then assistantBlocks
    else
      let text := trim (textAt root el) in
      if (length text <? 20) || (offsetHeight elRect <? 30)%Z then assistantBlocks
      else
        let classList := lowerClasses root el in
        let hasAssistantClass :=
          includes classList (lit "assistant") || includes classList (lit "claude")
          || includes classList (lit "response") || includes classList (lit "ai") in
        if hasAssistantClass
           || parentHasAssistantClass root 5 (parentElement el)
        then pushNew assistantBlocks el
        else if (bottom userRect + 50 <? top elRect)%Z
                && match nextUserRect with
                   | Some next => (bottom elRect <? top next - 50)%Z
                   | None => true
                   end
        then
          let tagName := toLowerCase (match nodeAt root el with
                                      | Some n => tagOf n
                                      | None => []
                                      end) in
          let isDisclaimer :=
            JS.test reShortDisclaimer text && (length text <? 100) in
          if JS.eqb tagName (lit "div")
             && negb (bool_decide (is_Some (closest root el selChrome)))
             && negb isDisclaimer
             && (30 <? length text)
          then pushNew assistantBlocks el
          else assistantBlocks
        else assistantBlocks.

Definition heuristicB (root : node) (userElements : list path) (userEl : path)
  : list path :=
  let userRect := layoutAt root userEl in
  let userIndex : Z :=
    match indexOf userElements userEl with
    | Some i => Z.of_nat i
    | None => (-1)%Z
    end in
  let nextUserRect :=
    if (userIndex <? Z.of_nat (length userElements) - 1)%Z
    then layoutAt root <$> userElements !! Z.to_nat (userIndex + 1)
    else None in
  let candidates := documentQuerySelectorAll root selCandidates in
  foldl (spatialStep root userElements userRect nextUserRect) [] candidates.

(** The assistant blocks of one user element. *)
Definition findAssistantBlocks (root : node) (userElements : list path)
  (userEl : path) : list path :=
  let assistantBlocks := heuristicA root userElements userEl in
  if length assistantBlocks =? 0
  then heuristicB root userElements userEl
  else assistantBlocks.

(** *** Aggregation of the blocks into one turn *)

(** [assistantBlocks.sort((a, b) => rectA.top - rectB.top)] *)
Definition byTop (root : node) (a b : path) : Z :=
  (top (layoutAt root a) - top (layoutAt root b))%Z.

Definition disclaimerPatterns : list regex :=
  [ (* /claude can make mistakes\.?\s*please double-check responses\.?/gi *)
    Regex false
      [chars "claude can make mistakes" ++ [OptChr 46; Space0]
         ++ chars "please double-check responses" ++ [OptChr 46]]
      true true;
    (* /pondering,?\s*stand by\.\.\./gi *)
    Regex false
      [chars "pondering" ++ [OptChr 44; Space0] ++ chars "stand by..."]
      true true;
    (* /^claude can make mistakes/i *)
    Regex true [chars "claude can make mistakes"] true false;
    (* /^please double-check/i *)
    Regex true [chars "please double-check"] true false ].

(** [assistantBlocks.map(block => (block.textContent || block.innerText ||
    '').trim()).filter(text => text.length > 0)] *)
Definition blockTextsOf (root : node) (assistantBlocks : list path)
  : list jsstring :=
  List.filter (fun text => 0 <? length text)
    ((fun block => trim (renderedText root block)) <$> assistantBlocks).

(** The disclaimers are removed one pattern after the other, trimming each
    time. *)
Definition cleanText (text : jsstring) : jsstring :=
  foldl (fun cleaned pattern => trim (JS.remove pattern cleaned)) text
        disclaimerPatterns.

Definition cleanBlockTexts (blockTexts : list jsstring) : list jsstring :=
  List.filter (fun text => 0 <? length text) (cleanText <$> blockTexts).

Definition blockTextsToUse (blockTexts : list jsstring) : list jsstring :=
  let cleanedBlockTexts := cleanBlockTexts blockTexts in
  if 0 <? length cleanedBlockTexts then cleanedBlockTexts else blockTexts.

(** [a < b * 0.8] and [a >= b * 0.8], [a >= b * 0.7], [a >= b * 0.5] for
    two lengths. The source multiplies in floating point; for lengths the
    rounded product is on the same side of every integer as the exact one,
    so the comparisons are those of the exact values. *)
Definition below80 (a b : nat) : bool := 5 * a <? 4 * b.
Definition atLeast80 (a b : nat) : bool := 4 * b <=? 5 * a.
Definition atLeast70 (a b : nat) : bool := 7 * b <=? 10 * a.
Definition atLeast50 (a b : nat) : bool := b <=? 2 * a.

(** The state of the deduplication: the array [uniqueTexts] and the set
    [seenContent], whose members are kept in insertion order, the order in
    which [for (const seen of seenContent)] visits them. *)
Record dedup := Dedup {
  uniqueTexts : list jsstring;
  seenContent : list jsstring
}.

Definition setAdd (x : jsstring) (s : list jsstring) : list jsstring :=
  if bool_decide (x ∈ s) then s else s ++ [x].

Definition setDelete (x : jsstring) (s : list jsstring) : list jsstring :=
  List.filter (fun y => negb (JS.eqb y x)) s.

(** [a.splice(i, 1)] *)
Definition splice1 {A} (i : nat) (a : list A) : list A := take i a ++ drop (S i) a.

(** The inner loop over the members [toVisit] of [seenContent]. The result
    tells whether the current text is a substring of a text seen, and gives
    the state after a replacement, if one was made. *)
Fixpoint compareWithSeen (currentNormalized : jsstring) (toVisit : list jsstring)
  (st : dedup) : bool * dedup :=
  match toVisit with
  | [] => (false, st)
  | seen :: rest =>
      if below80 (length currentNormalized) (length seen)
         && includes seen currentNormalized
      then (true, st)
      else if below80 (length seen) (length currentNormalized)
              && includes currentNormalized seen
      then
        match findIndex (fun t => JS.eqb (toLowerCase (trim t)) seen)
                        (uniqueTexts st) with
        | Some indexToRemove =>
            (false, Dedup (splice1 indexToRemove (uniqueTexts st))
                          (setDelete seen (seenContent st)))
        | None => (false, st)
        end
      else compareWithSeen currentNormalized rest st
  end.

(** One turn of the outer loop. *)
Definition dedupStep (st : dedup) (blockText : jsstring) : dedup :=
  let current := trim blockText in
  match current with
  | [] => st
  | _ =>
      let currentNormalized := toLowerCase current in
      if bool_decide (currentNormalized ∈ seenContent st) then st
      else
        let '(isSubstring, st) :=
          compareWithSeen currentNormalized (seenContent st) st in
        if isSubstring then st
        else Dedup (uniqueTexts st ++ [current])
                   (setAdd currentNormalized (seenContent st))
  end.

(** The deduplicated texts, with the first usable text kept when nothing
    else is. *)
Definition dedupBlocks (toUse : list jsstring) : list jsstring :=
  let uniqueTexts := uniqueTexts (foldl dedupStep (Dedup [] []) toUse) in
  if (length uniqueTexts =? 0) && (0 <? length toUse)
  then match List.find (fun b => 0 <? length (trim b)) toUse with
       | Some firstBlock => uniqueTexts ++ [trim firstBlock]
       | None => uniqueTexts
       end
  else uniqueTexts.

(** [uniqueTexts.join(' ').replace(/\s+/g, ' ').trim()] *)
Definition combine (uniqueTexts : list jsstring) : jsstring :=
  trim (collapseWhiteSpace (join (lit " ") uniqueTexts)).

(** [/[.!?]\s+/] *)
Definition reSentenceEnd : regex :=
  Regex false [[OneOf (lit ".!?"); Space1]] false false.

(** The state of the sentence loop: [uniqueSentences] and [seenSentences]. *)
Record sentenceScan := SentenceScan {
  uniqueSentences : list jsstring;
  seenSentences : gset (list N)
}.

Definition sentenceStep (st : sentenceScan) (sentence : jsstring) : sentenceScan :=
  let normalized := substring0 50 (toLowerCase (trim sentence)) in
  if bool_decide (normalized ∈ seenSentences st) then st
  else SentenceScan (uniqueSentences st ++ [trim sentence])
                    ({[ normalized ]} ∪ seenSentences st).

(** The sentence-level deduplication. *)
Definition dedupSentences (combinedContent : jsstring) : jsstring :=
  let originalCombined := combinedContent in
  let sentences :=
    List.filter (fun s => 0 <? length (trim s))
                (JS.split reSentenceEnd combinedContent) in
  if 1 <? length sentences
  then
    let uniqueSentences :=
      uniqueSentences (foldl sentenceStep (SentenceScan [] ∅) sentences) in
    let deduplicated := trim (join (lit ". ") uniqueSentences) in
    if (0 <? length deduplicated)
       && atLeast50 (length deduplicated) (length originalCombined)
    then deduplicated
    else originalCombined
  else combinedContent.

(** [matches.reduce((sum, m) => sum + m.length, 0)] *)
Definition totalLength (matches : list jsstring) : nat :=
  foldl (fun sum m => sum + length m) 0 matches.

Definition isOnlyDisclaimer (combinedContent : jsstring) : bool :=
  existsb
    (fun pattern =>
       match JS.match_ pattern combinedContent with
       | None => false
       | Some matches =>
           let disclaimerLength := totalLength matches in
           atLeast80 disclaimerLength (length combinedContent)
           && (length combinedContent <? 150)
       end)
    disclaimerPatterns.

Definition thinkingPatterns : list regex :=
  [ (* /^pondering,?\s*stand by\.\.\./i *)
    Regex true [chars "pondering" ++ [OptChr 44; Space0] ++ chars "stand by..."]
      true false;
    (* /^thinking\.\.\./i *)
    Regex true [chars "thinking..."] true false;
    (* /^generating\.\.\./i *)
    Regex true [chars "generating..."] true false;
    (* /pondering,?\s*stand by/i *)
    Regex false [chars "pondering" ++ [OptChr 44; Space0] ++ chars "stand by"]
      true false;
    (* /^stand by/i *)
    Regex true [chars "stand by"] true false;
    (* /^searching/i *)
    Regex true [chars "searching"] true false;
    (* /^web searching/i *)
    Regex true [chars "web searching"] true false;
    (* /^browsing/i *)
    Regex true [chars "browsing"] true false;
    (* /^checking/i *)
    Regex true [chars "checking"] true false;
    (* /^looking up/i *)
    Regex true [chars "looking up"] true false;
    (* /^running/i *)
    Regex true [chars "running"] true false;
    (* /^analyzing/i *)
    Regex true [chars "analyzing"] true false;
    (* /^reading/i *)
    Regex true [chars "reading"] true false ].

Definition isThinkingOnly (combinedContent : jsstring) : bool :=
  existsb
    (fun pattern =>
       match JS.match_ pattern combinedContent with
       | None => false
       | Some matches =>
           atLeast70 (length (default [] (head matches))) (length combinedContent)
           || (length combinedContent <? 100)
       end)
    thinkingPatterns.

Definition endsWithEllipsis (combinedContent : jsstring) : bool :=
  endsWith (trim combinedContent) (lit "...") && (length combinedContent <? 200).

(** The final validation: whether the assembled turn is emitted. *)
Definition isValidTurn (combinedContent : jsstring) : bool :=
  (10 <=? length combinedContent)
  && negb (isOnlyDisclaimer combinedContent)
  && negb (isThinkingOnly combinedContent)
  && negb (endsWithEllipsis combinedContent).

(** From the texts of the blocks to the content of the turn, before the
    final validation. *)
Definition assembleTurn (blockTexts : list jsstring) : jsstring :=
  dedupSentences (combine (dedupBlocks (blockTextsToUse blockTexts))).

(** The content assembled for one user element: its blocks, sorted by their
    top, give the texts. *)
Definition turnContent (root : node) (userElements : list path) (userEl : path)
  : jsstring :=
  assembleTurn
    (blockTextsOf root
       (JS.sort (byTop root) (findAssistantBlocks root userElements userEl))).

(** *** The scan *)

(** The state of the scan loop: [newMessages] and [messageOrder]. *)
Record scan := Scan {
  newMessages : list Message.t;
  messageOrder : nat
}.

Definition push (w : window) (st : scan) (id role content : jsstring)
  (el : path) : scan :=
  Scan
    (newMessages st ++
       [Message.Make id role (substring0 200 content) content el
          (now w (length (newMessages st))) (Some (messageOrder st))])
    (S (messageOrder st)).

(** The first half of the callback: the user message. *)
Definition userStep (w : window) (st : scan) (userEl : path) (userIndex : nat)
  : scan :=
  let userContent := collapseWhiteSpace (trim (renderedText (document w) userEl)) in
  if 1 <=? length userContent
  then push w st
         (messageId (lit "claude") (lit "user") userIndex (contentHash userContent))
         (lit "user") userContent userEl
  else st.

(** The second half: the assistant response. *)
Definition assistantStep (w : window) (userElements : list path) (st : scan)
  (userEl : path) (userIndex : nat) : scan :=
  let root := document w in
  let assistantBlocks := findAssistantBlocks root userElements userEl in
  if 0 <? length assistantBlocks
  then
    let assistantBlocks := JS.sort (byTop root) assistantBlocks in
    let combinedContent := assembleTurn (blockTextsOf root assistantBlocks) in
    if isValidTurn combinedContent
    then push w st
           (messageId (lit "claude") (lit "assistant") userIndex
              (contentHash combinedContent))
           (lit "assistant") combinedContent (default [] (head assistantBlocks))
    else st
  else st.

Definition step (w : window) (userElements : list path) (st : scan)
  (userEl : path) (userIndex : nat) : scan :=
  assistantStep w userElements (userStep w st userEl userIndex) userEl userIndex.

(** When no container is found, [container.querySelectorAll] throws and the
    outer [catch] returns the empty array. *)
Definition detectMessages (w : window) : list Message.t :=
  match resolveContainer (document w) with
  | None => []
  | Some container =>
      let userElements := findUserElements (document w) container in
      newMessages (forEach (step w userElements) userElements 0 (Scan [] 0))
  end.

Definition getContainer (w : window) : option path :=
  documentQuerySelector (document w) selTurnList
  <||> documentQuerySelector (document w) selMain
  <||> body (document w).

Definition getMessageSelector : jsstring :=
  lit "[data-testid=" ++ quoted "user-message" ++ lit "], [data-testid="
    ++ quoted "chat-user-message-content" ++ lit "], div[class*="
    ++ quoted "Message" ++ lit "], div[class*=" ++ quoted "message" ++ lit "]".

Definition getDebounceTime : Z := 1000.
Definition getStreamingWaitTime : Z := 3000.

(** [[class*="spinner"], [class*="loading"], [class*="thinking"],
    [aria-label*="thinking"], [aria-label*="generating"]] *)
Definition selSpinners : selector :=
  [[[AttrSub (lit "class") (lit "spinner")]];
   [[AttrSub (lit "class") (lit "loading")]];
   [[AttrSub (lit "class") (lit "thinking")]];
   [[AttrSub (lit "aria-label") (lit "thinking")]];
   [[AttrSub (lit "aria-label") (lit "generating")]]].

Definition selDiv : selector := [[[Type_ (lit "div")]]].

(** [[data-testid="chat-input"], textarea, input[type="text"]] *)
Definition selInputArea : selector :=
  [[[AttrEq (lit "data-testid") (lit "chat-input")]];
   [[Type_ (lit "textarea")]];
   [[Type_ (lit "input"); AttrEq (lit "type") (lit "text")]]].

(** [/^(pondering|stand by|thinking|generating)/i] and the same without the
    anchor. *)
Definition reBusyStart : regex :=
  Regex true [chars "pondering"; chars "stand by"; chars "thinking";
              chars "generating"] true false.
Definition reBusy : regex :=
  Regex false [chars "pondering"; chars "stand by"; chars "thinking";
               chars "generating"] true false.

Definition isVisible (rect : box) : bool :=
  (0 <? width rect)%Z && (0 <? height rect)%Z
  && negb (JS.eqb (display rect) (lit "none"))
  && negb (JS.eqb (visibility rect) (lit "hidden")).

Definition spinnerShown (w : window) : bool :=
  existsb
    (fun spinner =>
       let rect := layoutAt (document w) spinner in
       isVisible rect && (top rect <? innerHeight w + 500)%Z)
    (documentQuerySelectorAll (document w) selSpinners).

Definition incompleteAtBottom (w : window) : bool :=
  let root := document w in
  let userMessages := documentQuerySelectorAll root selUserMessage in
  match last userMessages with
  | None => false
  | Some lastUserMsg =>
      let lastUserRect := layoutAt root lastUserMsg in
      (top lastUserRect <? innerHeight w + 1000)%Z
      && existsb
           (fun div =>
              let divRect := layoutAt root div in
              (bottom lastUserRect <? top divRect)%Z
              && (top divRect <? bottom lastUserRect + 300)%Z
              && (0 <? width divRect)%Z && (0 <? height divRect)%Z
              && (let text := trim (textAt root div) in
                  (0 <? length text)
                  && (endsWith text (lit "...") && (length text <? 200)
                      || (length text <? 50) && JS.test reBusyStart text)))
           (documentQuerySelectorAll root selDiv)
  end.

Definition busyNearInput (w : window) : bool :=
  let root := document w in
  match documentQuerySelector root selInputArea with
  | None => false
  | Some inputArea =>
      let inputRect := layoutAt root inputArea in
      (top inputRect <? innerHeight w)%Z
      && existsb
           (fun div =>
              let divRect := layoutAt root div in
              (top divRect <? top inputRect)%Z
              && (top inputRect - 200 <? bottom divRect)%Z
              && (let text := trim (textAt root div) in
                  (0 <? length text) && (length text <? 100)
                  && JS.test reBusy text))
           (documentQuerySelectorAll root selDiv)
  end.

Definition isStreaming (w : window) : bool :=
  spinnerShown w || incompleteAtBottom w || busyNearInput w.

End Claude.

(** The outcome of a method that a [TypeError] can interrupt. *)
Inductive completion (A : Type) :=
| Normal (value : A)
| Throw (error : jsstring).
Arguments Normal {A} value.
Arguments Throw {A} error.

(** ** The DeepSeek strategy (src/background.js) *)

Module DeepSeek.

Definition name : jsstring := lit "DeepSeek".
Definition hostnames : list jsstring :=
  [lit "chat.deepseek.com"; lit "www.deepseek.com"; lit "deepseek.com"].

Definition byClass (c : string) : selector := [[[Class (lit c)]]].
Definition byClassPart (c : string) : selector := [[[AttrSub (lit "class") (lit c)]]].
Arguments byClass c%_string.
Arguments byClassPart c%_string.

Definition selMain : selector := [[[Type_ (lit "main")]]].

(** [.fbb737a4, [class*="fbb737a4"]] *)
Definition selUserSignature : selector :=
  byClass "fbb737a4" ++ byClassPart "fbb737a4".

(** [._4f9bf79, [class*="_4f9bf79"], ._43c05b5, [class*="_43c05b5"]] *)
Definition selAssistantSignature : selector :=
  byClass "_4f9bf79" ++ byClassPart "_4f9bf79"
  ++ byClass "_43c05b5" ++ byClassPart "_43c05b5".

(** The container resolution at the head of [detectMessages]. *)
Definition resolveContainer (root : node) : option path :=
  documentQuerySelector root (byClass "ds-scroll-area")
  <||> documentQuerySelector root (byClassPart "ds-scroll-area")
  <||> documentQuerySelector root (byClassPart "_0f72b0b")
  <||> documentQuerySelector root selMain
  <||> body root.

(** The message elements: the first query that finds any. *)
Definition findMessageElements (root : node) (container : path) : list path :=
  let messageElements := querySelectorAll root container (byClass "ds-message") in
  let messageElements :=
    if length messageElements =? 0
    then querySelectorAll root container (byClassPart "ds-message")
    else messageElements in
  let messageElements :=
    if length messageElements =? 0
    then documentQuerySelectorAll root (byClass "ds-message")
    else messageElements in
  let messageElements :=
    if length messageElements =? 0
    then documentQuerySelectorAll root (byClassPart "ds-message")
    else messageElements in
  if length messageElements =? 0
  then
    let messageElements := querySelectorAll root container selUserSignature in
    if length messageElements =? 0
    then querySelectorAll root container selAssistantSignature
    else messageElements
  else messageElements.

(** The comparator of the sort; [compareDocumentPosition] does not throw. *)
Definition byPosition (a b : path) : Z :=
  let position := compareDocumentPosition a b in
  if negb (Z.land position DOCUMENT_POSITION_FOLLOWING =? 0)%Z then (-1)%Z
  else if negb (Z.land position DOCUMENT_POSITION_PRECEDING =? 0)%Z then 1%Z
  else 0%Z.

(** [msgEl.closest('._4f9bf79') || msgEl.closest('[class*="_4f9bf79"]') ||
    msgEl.closest('._43c05b5') || msgEl.closest('[class*="_43c05b5"]')] *)
Definition assistantContainerOf (root : node) (msgEl : path) : option path :=
  closest root msgEl (byClass "_4f9bf79")
  <||> closest root msgEl (byClassPart "_4f9bf79")
  <||> closest root msgEl (byClass "_43c05b5")
  <||> closest root msgEl (byClassPart "_43c05b5").

(** The role (or [None] for [null]) and the trimmed content of a message
    element. *)
Definition classify (root : node) (msgEl : path) : option jsstring * jsstring :=
  let userContent :=
    querySelector root msgEl (byClass "fbb737a4")
    <||> querySelector root msgEl (byClassPart "fbb737a4") in
  match userContent with
  | Some userContent => (Some (lit "user"), trim (textAt root userContent))
  | None =>
      let markdownContent :=
        querySelector root msgEl (byClass "ds-markdown")
        <||> querySelector root msgEl (byClassPart "ds-markdown") in
      let assistantContainer := assistantContainerOf root msgEl in
      match markdownContent, assistantContainer with
      | Some markdownContent, _ =>
          (Some (lit "assistant"), trim (textAt root markdownContent))
      | None, Some _ => (Some (lit "assistant"), trim (textAt root msgEl))
      | None, None =>
          let hasMarkdownClass :=
            includes (match nodeAt root msgEl with
                      | Some n => className n
                      | None => []
                      end) (lit "ds-markdown")
            || bool_decide (is_Some (querySelector root msgEl (byClassPart "markdown"))) in
          if hasMarkdownClass
          then (Some (lit "assistant"), trim (textAt root msgEl))
          else (None, [])
      end
  end.

(** The state of the scan loop: [newMessages] and [messageOrder]. *)
Record scan := Scan {
  newMessages : list Message.t;
  messageOrder : nat
}.

(** The body of the [forEach] callback. *)
Definition step (w : window) (st : scan) (msgEl : path) (index : nat) : scan :=
  let root := document w in
  let '(role, content) := classify root msgEl in
  let content :=
    match content with
    | [] => content
    | _ => trim (collapseWhiteSpace content)
    end in
  match role, content with
  | None, _ | _, [] => st
  | Some role, _ =>
      let scrollElement :=
        if JS.eqb role (lit "assistant")
        then default msgEl (assistantContainerOf root msgEl)
        else msgEl in
      Scan
        (newMessages st ++
           [Message.Make
              (messageId (lit "deepseek") role index (contentHash content))
              role
              (substring0 200 content)
              content
              scrollElement
              (now w (length (newMessages st)))
              (Some (messageOrder st))])
        (S (messageOrder st))
  end.

(** When no container is found, [container.querySelectorAll] throws and the
    outer [catch] returns the empty array. *)
Definition detectMessages (w : window) : list Message.t :=
  match resolveContainer (document w) with
  | None => []
  | Some container =>
      let messageElements := findMessageElements (document w) container in
      let sortedElements := JS.sort byPosition messageElements in
      newMessages (forEach (step w) sortedElements 0 (Scan [] 0))
  end.

(** The [while] loop of [getContainer], with [commonParent] an element:
    [current] goes up until it is [commonParent], is inside it, or is
    [null]. [steps] bounds the iterations by the depth of [current]. *)
Fixpoint walkUp (steps : nat) (commonParent : path) (current : option path)
  : option path :=
  match steps, current with
  | S steps', Some c =>
      if negb (bool_decide (c = commonParent)) && negb (contains commonParent c)
      then walkUp steps' commonParent (parentElement c)
      else current
  | _, _ => current
  end.

(** One turn of the [for] loop over [testMessages]. With [commonParent]
    being [null], [commonParent.contains] throws. *)
Definition commonParentStep (commonParent : completion (option path))
  (testMessage : path) : completion (option path) :=
  match commonParent with
  | Throw e => Throw e
  | Normal None => Throw (lit "TypeError")
  | Normal (Some cp) =>
      let current := walkUp (S (length testMessage)) cp (Some testMessage) in
      if bool_decide (current = Some cp)
      then Normal (parentElement cp)
      else Normal (Some cp)
  end.

(** The ancestor traversal: the parent of the first message, then the loop
    over the messages of index 1 to 4. *)
Definition commonParentOf (testMessages : list path) : completion (option path) :=
  match testMessages with
  | [] => Normal None
  | first :: _ =>
      foldl commonParentStep (Normal (parentElement first))
            (take 4 (drop 1 testMessages))
  end.

Definition getContainer (w : window) : completion (option path) :=
  let root := document w in
  let container :=
    documentQuerySelector root (byClass "ds-scroll-area")
    <||> documentQuerySelector root (byClassPart "ds-scroll-area")
    <||> documentQuerySelector root (byClassPart "_0f72b0b") in
  match container with
  | Some _ => Normal container
  | None =>
      match commonParentOf (documentQuerySelectorAll root (byClass "ds-message")) with
      | Throw e => Throw e
      | Normal container =>
          Normal (container <||> documentQuerySelector root selMain <||> body root)
      end
  end.

Definition getMessageSelector : jsstring :=
  lit ".ds-message, [class*=" ++ quoted "ds-message"
    ++ lit "], .fbb737a4, .ds-markdown, [class*=" ++ quoted "_4f9bf79"
    ++ lit "], [class*=" ++ quoted "_43c05b5" ++ lit "]".

(** [[class*="streaming"], [class*="typing"], [class*="loading"],
    [class*="generating"]] *)
Definition selIndicators : selector :=
  byClassPart "streaming" ++ byClassPart "typing" ++ byClassPart "loading"
  ++ byClassPart "generating".

Definition isStreaming (w : window) : bool :=
  let viewportBottom := innerHeight w in
  existsb
    (fun indicator =>
       let rect := layoutAt (document w) indicator in
       (0 <? width rect)%Z && (0 <? height rect)%Z
       && negb (JS.eqb (display rect) (lit "none"))
       && negb (JS.eqb (visibility rect) (lit "hidden"))
       && (top rect <? viewportBottom + 500)%Z && (-500 <? bottom rect)%Z)
    (documentQuerySelectorAll (document w) selIndicators).

Definition getDebounceTime : Z := 300.
Definition getStreamingWaitTime : Z := 1500.

End DeepSeek.

(** ** The platforms *)

(** A strategy object, with the members that the properties below are about;
    a member that the object does not have is [None]. *)
Record platform := Platform {
  name : jsstring;
  hostnames : list jsstring;
  detectMessages : window -> list Message.t;
  getContainer : window -> completion (option path);
  getMessageSelector : jsstring;
  isStreaming : option (window -> bool);
  getDebounceTime : option Z;
  getStreamingWaitTime : option Z
}.

Definition chatgpt : platform :=
  Platform ChatGPT.name ChatGPT.hostnames ChatGPT.detectMessages
    (fun w => Normal (ChatGPT.getContainer w)) ChatGPT.getMessageSelector
    None None None.

Definition qwen : platform :=
  Platform Qwen.name Qwen.hostnames Qwen.detectMessages
    (fun w => Normal (Qwen.getContainer w)) Qwen.getMessageSelector
    (Some Qwen.isStreaming) (Some Qwen.getDebounceTime)
    (Some Qwen.getStreamingWaitTime).

Definition claude : platform :=
  Platform Claude.name Claude.hostnames Claude.detectMessages
    (fun w => Normal (Claude.getContainer w)) Claude.getMessageSelector
    (Some Claude.isStreaming) (Some Claude.getDebounceTime)
    (Some Claude.getStreamingWaitTime).

Definition deepseek : platform :=
  Platform DeepSeek.name DeepSeek.hostnames DeepSeek.detectMessages
    DeepSeek.getContainer DeepSeek.getMessageSelector
    (Some DeepSeek.isStreaming) (Some DeepSeek.getDebounceTime)
    (Some DeepSeek.getStreamingWaitTime).

(** [window.HopperPlatform] *)
Definition HopperPlatform : list platform := [chatgpt; qwen; claude; deepseek].

(** What a record of each strategy looks like: the identifier, the preview
    and the full content are made from one text, and the strategy decides
    the roles and the text. *)
Definition record (tag role : jsstring) (index : nat) (text : jsstring)
  (el : path) (ts : Z) (ord : option nat) : Message.t :=
  Message.Make (messageId tag role index (contentHash text)) role
    (substring0 200 text) text el ts ord.

(** ** Sample documents *)

Module Sample.

Definition attrs (l : list (string * string)) : list (jsstring * jsstring) :=
  (fun av => (lit (fst av), lit (snd av))) <$> l.

(** An element without layout, an element with a box of the given top and
    height, a text node. *)
Definition el (tag : string) (a : list (string * string)) (cs : list node) : node :=
  Elem (lit tag) (attrs a) box0 cs.

Definition block (tag : string) (a : list (string * string)) (t h : Z)
  (cs : list node) : node :=
  Elem (lit tag) (attrs a) (Box t (t + h) 100 h h [] [] []) cs.

Definition txt (s : string) : node := Text (lit s).

Definition page (content : list node) : node :=
  el "html" [] [el "head" [] []; el "body" [] content].

Definition windowOf (root : node) : window :=
  Window root 800 (fun k => Z.of_nat k).

Local Open Scope string_scope.

(** A ChatGPT page whose only message has an empty action bar. *)
Definition chatgptActionBar : node :=
  page [el "main" []
          [el "div" [("data-message-author-role", "user")]
             [txt "Hello"; el "span" [("class", "message-actions")] []]]].

(** A ChatGPT page with a user message and a tool message. *)
Definition chatgptTool : node :=
  page [el "main" []
          [el "div" [("data-message-author-role", "user")] [txt "What is 6 x 7?"];
           el "div" [("data-message-author-role", "tool")] [txt "42"]]].

(** A page without [main]. *)
Definition noMain : node := page [el "div" [] [txt "Loading"]].

(** A Qwen page: a question, and an answer that keeps a line break and two
    spaces in its text. *)
Definition qwenChat : node :=
  page [el "div" [("id", "message-1"); ("class", "user-message")]
          [el "p" [("class", "user-message-content")] [txt "Question"]];
        el "div" [("id", "message-2"); ("class", "response-message-container")]
          [el "div" [("class", "markdown-content-container")]
             [Text (lit "Line one" ++ [10%N] ++ lit "line  two")]]].

(** A Qwen page whose message has none of the content containers: its text
    sits next to a copy button. *)
Definition qwenBareMessage : node :=
  el "div" [("id", "message-7"); ("class", "user-message")]
    [txt " How are you? "; el "button" [] [txt "Copy"]].

Definition qwenBare : node := page [qwenBareMessage].

(** A Claude page: one user message, followed by one block with the text
    [s]. *)
Definition claudeTurn (s : string) : node :=
  page [el "main" []
          [el "div" [] [el "div" [("data-testid", "user-message")] [txt "Question?"]];
           block "div" [("class", "response")] 100 40 [txt s]]].

(** A DeepSeek page: a question and an answer inside one container. *)
Definition deepseekChat : node :=
  page [el "div" [("class", "ds-scroll-area")]
          [el "div" [("class", "ds-message")]
             [el "div" [("class", "fbb737a4")] [txt "Q  1"]];
           el "div" [("class", "ds-message")]
             [el "div" [("class", "ds-markdown")] [txt "A 1"]]]].

(** A Claude page whose response is a marked block with a short text. *)
Definition claudeShort : node :=
  page [el "main" []
          [el "div" [] [el "div" [("data-testid", "user-message")] [txt "Is it so?"]];
           el "div" [] [el "div" [("class", "assistant-message")] [txt "Yes."]]]].

(** A DeepSeek page whose messages sit in one assistant container, the
    question first. *)
Definition deepseekNested : node :=
  page [el "div" [("class", "ds-scroll-area")]
          [el "div" [("class", "_4f9bf79")]
             [el "div" [("class", "ds-message")]
                [el "div" [("class", "fbb737a4")] [txt "Q 1"]];
              el "div" [("class", "ds-message")]
                [el "div" [("class", "ds-markdown")] [txt "A 1"]]]]].

(** A DeepSeek page without scroll area whose root element is itself marked
    as a message. *)
Definition deepseekRootMessage : node :=
  el "html" [("class", "ds-message")]
    [el "head" [] [];
     el "body" []
       [el "div" [("class", "ds-message")]
          [el "div" [("class", "fbb737a4")] [txt "Q 1"]]]].

(** A Claude page with two questions in one block, followed by a block that
    holds the one response. *)
Definition claudeTwoQuestions : node :=
  page [el "main" []
          [el "div" []
             [el "div" [("data-testid", "user-message")] [txt "First question"];
              el "div" [("data-testid", "user-message")] [txt "Second question"]];
           el "div" []
             [el "div" [("class", "assistant-message")]
                [txt "One answer for both of them."]]]].

(** A document without body. *)
Definition noBody : node := el "html" [] [el "head" [] []].

(** A DeepSeek page whose message carries none of the role signatures. *)
Definition deepseekPlain : node :=
  page [el "div" [("class", "ds-scroll-area")]
          [el "div" [("class", "ds-message")] [txt "Plain text"]]].

(** A Claude page whose user message holds an edit button. *)
Definition claudeWithButton : node :=
  page [el "main" []
          [el "div" [("data-testid", "user-message")]
             [txt "Question?"; el "button" [] [txt "Edit"]]]].

(** Two records discovered in the reverse of their document order. *)
Definition discoveredBackwards : list Message.t :=
  [record (lit "qwen") (lit "assistant") 0 (lit "Answer") [1; 1] 0 (Some 0);
   record (lit "qwen") (lit "user") 1 (lit "Question") [1; 0] 1 (Some 1)].

End Sample.

(** ** What the properties are stated with *)

(** The disclaimer that the Claude application shows below a response. *)
Definition claudeDisclaimer : jsstring :=
  lit "Claude can make mistakes. Please double-check responses.".

(** A text is normalized when collapsing its white-space runs and trimming
    it change nothing. *)
Definition normalized (s : jsstring) : Prop :=
  collapseWhiteSpace s = s /\ trim s = s.

(** What a scan shows of a record apart from its capture time. *)
Definition shown (m : Message.t) : jsstring * jsstring * jsstring :=
  (Message.id m, Message.role m, Message.content m).

(** The identifier of a record is made of the strategy's tag, the role, an
    index and the fingerprint of the full content. *)
Definition derivedId (tag : jsstring) (m : Message.t) : Prop :=
  exists index : nat,
    Message.id m
    = messageId tag (Message.role m) index (contentHash (Message.fullContent m)).

(** [result] is what an ordered chain of attempts that ends on
    [document.body] resolves to: the element that the first successful
    attempt finds, the body when no attempt finds one. It is a node in
    every case. *)
Definition resolvesChain (attempts : list (option path)) (bodyEl : path)
  (result : option path) : Prop :=
  exists n k,
    result = Some n
    /\ (attempts ++ [Some bodyEl]) !! k = Some (Some n)
    /\ forall j, j < k -> (attempts ++ [Some bodyEl]) !! j = Some None.

(** A text of the document at or below the element at [el]: the text
    content of an element there, as it is, or in a copy of the element from
    which the controls that a selector of the Qwen strategy finds have been
    taken out. *)
Definition textBelow (root : node) (el : path) (raw : jsstring) : Prop :=
  exists p n,
    isPrefix el p = true
    /\ nodeAt root p = Some n
    /\ (raw = textContent n
        \/ raw = strippedText n Qwen.selControls
        \/ raw = strippedText n Qwen.selControlsAndActions).

(** The tag that each strategy writes in its identifiers. *)
Definition tagOfPlatform (p : platform) : jsstring := toLowerCase (name p).

(** The positions of a sequence of records. *)
Definition positions (l : list Message.t) : list path := Message.element <$> l.

(** Document order on positions, and on what has a position. *)
Definition precedes (p q : path) : Prop := before p q = true.

Definition precedesBy {A} (key : A -> path) (x y : A) : Prop :=
  precedes (key x) (key y).



Inductive chatgptRecord : Message.t -> Prop :=
| ChatgptRecord role index raw el ts :
    role <> [] ->
    trim (collapseWhiteSpace raw) <> [] ->
    chatgptRecord
      (record (lit "chatgpt") role index (trim (collapseWhiteSpace raw)) el ts None).

Inductive qwenRecord : Message.t -> Prop :=
| QwenRecord role index raw el ts ord :
    role = lit "user" \/ role = lit "assistant" ->
    trim raw <> [] ->
    qwenRecord (record (lit "qwen") role index (trim raw) el ts (Some ord)).

Inductive claudeRecord : Message.t -> Prop :=
| ClaudeUser index raw el ts ord :
    collapseWhiteSpace (trim raw) <> [] ->
    claudeRecord
      (record (lit "claude") (lit "user") index (collapseWhiteSpace (trim raw))
         el ts (Some ord))
| ClaudeAssistant index blockTexts el ts ord :
    Claude.isValidTurn (Claude.assembleTurn blockTexts) = true ->
    claudeRecord
      (record (lit "claude") (lit "assistant") index
         (Claude.assembleTurn blockTexts) el ts (Some ord)).

Inductive deepseekRecord : Message.t -> Prop :=
| DeepseekRecord role index raw el ts ord :
    role = lit "user" \/ role = lit "assistant" ->
    trim (collapseWhiteSpace raw) <> [] ->
    deepseekRecord
      (record (lit "deepseek") role index (trim (collapseWhiteSpace raw)) el ts
         (Some ord)).

(** The element descendants contributed by the children [cs] of the element
    at [p], the first of them being child number [i]. *)
Fixpoint elementsOfChildren (cs : list node) (p : path) (i : nat) : list path :=
  match cs with
  | [] => []
  | c :: cs' => elementsOf c (p ++ [i]) ++ elementsOfChildren cs' p (S i)
  end.

(** The order counter of a scan loop numbers the records collected so far. *)
Definition counted (newMessages : list Message.t) (messageOrder : nat) : Prop :=
  Message.order <$> newMessages = Some <$> seq 0 (length newMessages)
  /\ messageOrder = length newMessages.

(** The structure of a normalized text: its white space is single spaces
    ([afterSpace] tells that the previous code unit was one), and it neither
    starts nor ends with white space. *)
Fixpoint spaced (afterSpace : bool) (s : jsstring) : bool :=
  match s with
  | [] => true
  | c :: s' =>
      if isWhiteSpace c
      then (c =? 32)%N && negb afterSpace && spaced true s'
      else spaced false s'
  end.

Definition startsClean (s : jsstring) : Prop :=
  match head s with
  | Some c => isWhiteSpace c = false
  | None => True
  end.

Definition endsClean (s : jsstring) : Prop :=
  match last s with
  | Some c => isWhiteSpace c = false
  | None => True
  end.

Definition tidy (s : jsstring) : Prop :=
  spaced false s = true /\ startsClean s /\ endsClean s.

(** [piece] is a run of consecutive code units of [s]. *)
Definition infix (piece s : jsstring) : Prop :=
  exists a b, s = a ++ piece ++ b.

(** A record without its capture time, and a window whose clock stands
    still: what a scan computes apart from the time. *)
Definition untimed (m : Message.t) : Message.t :=
  Message.Make (Message.id m) (Message.role m) (Message.content m)
    (Message.fullContent m) (Message.element m) 0 (Message.order m).

Definition still (w : window) : window :=
  Window (document w) 0 (fun _ => 0%Z).

(** ** The storage relay (src/background.js, the message listener) *)

Module Storage.

(** A value that a request carries and that the storage keeps: what JSON
    can hold, numbers being taken as integers. *)
Inductive value :=
| Null
| Bool (b : bool)
| Num (n : Z)
| Str (s : jsstring)
| Arr (items : list value)
| Obj (fields : list (jsstring * value)).

(** Whether [v || d] is [v]. *)
Definition truthy (v : value) : bool :=
  match v with
  | Null => false
  | Bool b => b
  | Num n => negb (n =? 0)%Z
  | Str s => negb (JS.eqb s [])
  | Arr _ | Obj _ => true
  end.

(** A request that a content script sends, by its [type]; a save request
    carries the value to store. [Other] is a request of any other type. *)
Inductive request :=
| SAVE_MESSAGES (messages : value)
| GET_MESSAGES
| SAVE_FAVORITES (favorites : value)
| GET_FAVORITES
| GET_THEME
| SAVE_THEME (theme : value)
| Other (type : jsstring).

(** What [sendResponse] is called with: [{ success: true }],
    [{ messages: v }], [{ favorites: v }] or [{ theme: v }]. *)
Inductive response :=
| Success
| Messages (v : value)
| Favorites (v : value)
| Theme (v : value).

(** [result.key || d] for the result of [chrome.storage.local.get([key])]. *)
Definition getOr (local : gmap (list N) value) (key : jsstring) (d : value)
  : value :=
  match local !! key with
  | Some v => if truthy v then v else d
  | None => d
  end.

(** What one call of the listener gives: the content of
    [chrome.storage.local] once its callback has run, the response sent (if
    any) and whether the listener returned [true]. *)
Record outcome := Outcome {
  local : gmap (list N) value;
  sent : option response;
  keepsChannelOpen : bool
}.

Definition onMessage (req : request) (local : gmap (list N) value) : outcome :=
  match req with
  | SAVE_MESSAGES messages =>
      Outcome (<[lit "messages" := messages]> local) (Some Success) true
  | GET_MESSAGES =>
      Outcome local (Some (Messages (getOr local (lit "messages") (Arr [])))) true
  | SAVE_FAVORITES favorites =>
      Outcome (<[lit "favorites" := favorites]> local) (Some Success) true
  | GET_FAVORITES =>
      Outcome local (Some (Favorites (getOr local (lit "favorites") (Arr [])))) true
  | GET_THEME =>
      Outcome local (Some (Theme (getOr local (lit "hopperTheme") (Str (lit "dark")))))
        true
  | SAVE_THEME theme =>
      Outcome (<[lit "hopperTheme" := theme]> local) (Some Success) true
  | Other _ => Outcome local None false
  end.

(** The get request that reads what a save request writes. *)
Definition readerOf (req : request) : option request :=
  match req with
  | SAVE_MESSAGES _ => Some GET_MESSAGES
  | SAVE_FAVORITES _ => Some GET_FAVORITES
  | SAVE_THEME _ => Some GET_THEME
  | _ => None
  end.

Definition isGet (req : request) : bool :=
  match req with
  | GET_MESSAGES | GET_FAVORITES | GET_THEME => true
  | _ => false
  end.

End Storage.

(** ** [isActive] of the four strategies *)

Module IsActive.

(** [this.hostnames.includes(window.location.hostname)] *)
Definition chatgpt (hostname : jsstring) : bool :=
  bool_decide (hostname ∈ ChatGPT.hostnames).

(** [this.hostnames.some(host => window.location.hostname.includes(host))] *)
Definition qwen (hostname : jsstring) : bool :=
  existsb (fun host => includes hostname host) Qwen.hostnames.

Definition claude (hostname : jsstring) : bool :=
  bool_decide (hostname ∈ Claude.hostnames).

Definition deepseek (hostname : jsstring) : bool :=
  bool_decide (hostname ∈ DeepSeek.hostnames).

(** The four tests, in the order of [HopperPlatform]. *)
Definition all : list (jsstring -> bool) := [chatgpt; qwen; claude; deepseek].

End IsActive.

(** ** [normalizeUrl] of the four strategies *)

Module NormalizeUrl.

(** [url.split('#')[0]]: the text before the first [#]. *)
Fixpoint beforeHash (url : jsstring) : jsstring :=
  match url with
  | [] => []
  | c :: url' => if (c =? 35)%N then [] else c :: beforeHash url'
  end.

(** [s.replace(/\/$/, '')]: without the last code unit when it is [/]. *)
Definition dropFinalSlash (s : jsstring) : jsstring :=
  if bool_decide (last s = Some 47%N) then take (length s - 1) s else s.

(** The [catch] branch: [url.split('#')[0].replace(/\/$/, '')]. *)
Definition fallback (url : jsstring) : jsstring := dropFinalSlash (beforeHash url).

(** [[^\/]+] at the head of [s]: the longest run without [/]. *)
Fixpoint segment (s : jsstring) : jsstring :=
  match s with
  | [] => []
  | c :: s' => if (c =? 47)%N then [] else c :: segment s'
  end.

(** [pathname.match(/\/c\/([^\/]+)/)]: the capture of the leftmost match,
    [None] when there is no match. *)
Fixpoint conversationId (pathname : jsstring) : option jsstring :=
  match pathname with
  | [] => None
  | _ :: rest =>
      if startsWith pathname (lit "/c/")
      then match segment (drop 3 pathname) with
           | [] => conversationId rest
           | id => Some id
           end
      else conversationId rest
  end.

Section WithURL.

(** [new URL(url)]: the [pathname] and the [search] of the parsed address,
    or [None] when the constructor throws. *)
Variable parseURL : jsstring -> option (jsstring * jsstring).

(** ChatGPT, Claude and DeepSeek: [u.pathname + (u.search || '')]. *)
Definition chatgpt (url : jsstring) : jsstring :=
  match parseURL url with
  | Some (pathname, search) => pathname ++ search
  | None => fallback url
  end.

Definition claude (url : jsstring) : jsstring :=
  match parseURL url with
  | Some (pathname, search) => pathname ++ search
  | None => fallback url
  end.

Definition deepseek (url : jsstring) : jsstring :=
  match parseURL url with
  | Some (pathname, search) => pathname ++ search
  | None => fallback url
  end.

(** Qwen: the conversation of the path [/c/{id}] when there is one. *)
Definition qwen (url : jsstring) : jsstring :=
  match parseURL url with
  | Some (pathname, search) =>
      match conversationId pathname with
      | Some id => lit "/c/" ++ id
      | None => pathname ++ search
      end
  | None => fallback url
  end.

End WithURL.

End NormalizeUrl.

(** ** The identifiers of a batch *)

(** A record is labelled by a role and an index when its role is that role
    and its identifier is made, for the strategy's tag, of that role, that
    index and some fingerprint. *)
Definition labelled (tag : jsstring) (m : Message.t) (key : jsstring * nat) : Prop :=
  Message.role m = key.1
  /\ exists hash, Message.id m = messageId tag key.1 key.2 hash.

(** The records are labelled by pairwise distinct keys, all of which
    satisfy [Q]. *)
Definition keyed (tag : jsstring) (Q : jsstring * nat -> Prop)
  (msgs : list Message.t) : Prop :=
  exists keys, Forall2 (labelled tag) msgs keys /\ NoDup keys /\ Forall Q keys.

(** A ChatGPT page whose two messages have the roles [a-1] and [a]. *)
Definition chatgptHyphen : node :=
  Sample.page
    [Sample.el "main" []
       [Sample.el "div" [("data-message-author-role"%string, "a-1"%string)]
          [Sample.txt "x"];
        Sample.el "div" [("data-message-author-role"%string, "a"%string)]
          [Sample.txt "0-x"]]].

(** ** The deduplication state of a Claude turn *)

(** The set [seenContent] holds the lower-case forms of the texts kept, in
    the same order, each once, and the texts kept are trimmed. *)
Definition consistent (st : Claude.dedup) : Prop :=
  Claude.seenContent st = toLowerCase <$> Claude.uniqueTexts st
  /\ NoDup (Claude.seenContent st)
  /\ Forall (fun t => trim t = t) (Claude.uniqueTexts st).

(** A text has ink when one of its code units is not white space. *)
Definition inked (s : jsstring) : Prop :=
  exists c, c ∈ s /\ isWhiteSpace c = false.

(** A DeepSeek page without scroll area whose two messages sit in two
    blocks of their own. *)
Definition deepseekApart : node :=
  Sample.page
    [Sample.el "div" []
       [Sample.el "div" [("class"%string, "ds-message"%string)]
          [Sample.el "div" [("class"%string, "fbb737a4"%string)] [Sample.txt "Q 1"]]];
     Sample.el "div" []
       [Sample.el "div" [("class"%string, "ds-message"%string)]
          [Sample.el "div" [("class"%string, "ds-markdown"%string)]
             [Sample.txt "A 1"]]]].

(** A Claude page whose response is a block that only its class and its
    place below the question tell. *)
Definition claudeSpatial : node :=
  Sample.page
    [Sample.el "main" []
       [Sample.el "section" []
          [Sample.el "div" [("data-testid"%string, "user-message"%string)]
             [Sample.txt "Question?"]];
        Sample.el "section" []
          [Sample.el "p" []
             [Sample.block "div" [("class"%string, "response-content"%string)] 100 40
                [Sample.txt "The answer to that question is 42."]]]]].

(** The [id] attribute of the element that a record comes from. *)
Definition elementId (root : node) (m : Message.t) : jsstring :=
  match nodeAt root (Message.element m) with
  | Some n => idOf n
  | None => []
  end.

(** A DeepSeek page that shows a loading indicator below its answer. *)
Definition deepseekLoading : node :=
  Sample.page
    [Sample.el "div" [("class"%string, "ds-scroll-area"%string)]
       [Sample.el "div" [("class"%string, "ds-message"%string)]
          [Sample.el "div" [("class"%string, "ds-markdown"%string)]
             [Sample.txt "A 1"]];
        Sample.block "div" [("class"%string, "loading"%string)] 700 20 []]].

(** The positions of the records of the user, in the order of the records. *)
Definition isUserRecord (m : Message.t) : bool :=
  JS.eqb (Message.role m) (lit "user").

Definition userPositions (l : list Message.t) : list path :=
  positions (List.filter isUserRecord l).

(** Blocks from top to bottom. *)
Definition topFirst (root : node) (a b : path) : Prop :=
  (top (layoutAt root a) <= top (layoutAt root b))%Z.

(** A Qwen page whose answer is still loading, with the class of the
    message spelt as the streaming test spells it, and the same page with
    the class spelt [response-message-container]. *)
Definition qwenLoading (messageClass : string) : node :=
  Sample.page
    [Sample.el "div" [("id"%string, "message-2"%string); ("class"%string, messageClass)]
       [Sample.el "div"
          [("class"%string, "markdown-content-container loading"%string)]
          [Sample.txt "Partial answer"]]].

(** ** Properties *)

Arguments substring0 : simpl never.
Arguments contentHash : simpl never.
Arguments messageId : simpl never.
Arguments trim : simpl never.
Arguments collapseWhiteSpace : simpl never.
Arguments lit : simpl never.

(** *** Loops *)

Section ForEach.
Context {A St : Type} (f : St -> A -> nat -> St).

(** An invariant of the state that every call of the callback keeps holds
    after the loop. *)
Lemma forEach_invariant (P : St -> Prop) (l : list A) :
  (forall s x i, x ∈ l -> P s -> P (f s x i)) ->
  forall i s, P s -> P (forEach f l i s).
Proof.
  induction l as [|x l IH]; intros Hstep i s Hs; simpl; [done|].
  apply IH.
  - intros s' y j Hy. apply Hstep. by right.
  - apply Hstep; [by left|done].
Qed.

Lemma forEach_app (l1 l2 : list A) (i : nat) (s : St) :
  forEach f (l1 ++ l2) i s = forEach f l2 (i + length l1) (forEach f l1 i s).
Proof.
  revert i s. induction l1 as [|x l1 IH]; intros i s; simpl.
  - by rewrite Nat.add_0_r.
  - rewrite IH. f_equal. lia.
Qed.
End ForEach.

(** Two runs of a loop over the same array keep a relation between their
    states that every pair of calls keeps. *)
Lemma forEach_related {A St} (f g : St -> A -> nat -> St) (R : St -> St -> Prop)
  (l : list A) :
  (forall s t x i, R s t -> R (f s x i) (g t x i)) ->
  forall i s t, R s t -> R (forEach f l i s) (forEach g l i t).
Proof.
  intros Hstep. induction l as [|x l IH]; intros i s t Hst; simpl; [done|].
  apply IH. by apply Hstep.
Qed.

(** *** C5: the timing contract *)

(** C5, as stated, fails: the ChatGPT strategy has no streaming detection and
    no timing constant. *)
Lemma chatgpt_lacks_timing :
  chatgpt ∈ HopperPlatform
  /\ isStreaming chatgpt = None
  /\ getDebounceTime chatgpt = None
  /\ getStreamingWaitTime chatgpt = None.
Proof. repeat split; try reflexivity. by left. Qed.

(** C5 (amended): the Qwen, Claude and DeepSeek strategies provide a boolean
    streaming detection and the two timing constants, the debounce between
    300 and 1000 ms and the settle time between 1500 and 3000 ms. *)
Theorem timing_contract (p : platform) :
  p ∈ [qwen; claude; deepseek] ->
  (exists detect : window -> bool, isStreaming p = Some detect)
  /\ (exists d : Z, getDebounceTime p = Some d /\ (300 <= d <= 1000)%Z)
  /\ (exists s : Z, getStreamingWaitTime p = Some s /\ (1500 <= s <= 3000)%Z).
Proof.
  rewrite !elem_of_cons, elem_of_nil.
  intros [-> | [-> | [-> | []]]]; simpl;
    (split; [eexists; reflexivity|]);
    split; eexists; (split; [reflexivity|]); unfold Qwen.getDebounceTime,
      Qwen.getStreamingWaitTime, Claude.getDebounceTime,
      Claude.getStreamingWaitTime, DeepSeek.getDebounceTime,
      DeepSeek.getStreamingWaitTime; lia.
Qed.

Lemma timing_contract_witness :
  claude ∈ [qwen; claude; deepseek]
  /\ (exists d : Z, getDebounceTime claude = Some d /\ (300 <= d <= 1000)%Z).
Proof.
  assert (H : claude ∈ [qwen; claude; deepseek]) by (right; left).
  split; [exact H|].
  exact (proj1 (proj2 (timing_contract claude H))).
Defined.

(** *** C8: the deduplication of blocks *)

(** C8: from the block texts "The answer is 42." and "42.", the second, whose
    lower-case text is a substring of the first's and shorter than 80% of it,
    is dropped, and the assembled text is "The answer is 42.". *)
Theorem claude_dedup_law :
  includes (toLowerCase (lit "The answer is 42.")) (toLowerCase (lit "42.")) = true
  /\ Claude.below80 (length (lit "42.")) (length (lit "The answer is 42.")) = true
  /\ Claude.dedupBlocks (Claude.blockTextsToUse [lit "The answer is 42."; lit "42."])
     = [lit "The answer is 42."]
  /\ Claude.assembleTurn [lit "The answer is 42."; lit "42."]
     = lit "The answer is 42."
  /\ Claude.isValidTurn (lit "The answer is 42.") = true.
Proof. repeat split; vm_compute; reflexivity. Qed.

(** *** The records of each strategy *)

Lemma cloneStripTrim_trimmed root el sel :
  exists raw, Qwen.cloneStripTrim root el sel = trim raw.
Proof.
  unfold Qwen.cloneStripTrim. destruct (cloneNode root el).
  - eauto.
  - by exists [].
Qed.

Lemma qwen_userContent_trimmed root msgEl :
  exists raw, Qwen.userContent root msgEl = trim raw.
Proof.
  unfold Qwen.userContent.
  destruct (Qwen.firstFound _ _ _); [eauto|].
  destruct (querySelector _ _ _); apply cloneStripTrim_trimmed.
Qed.

Lemma qwen_assistantContent_trimmed root msgEl :
  exists raw, Qwen.assistantContent root msgEl = trim raw.
Proof.
  unfold Qwen.assistantContent.
  destruct (Qwen.firstFound _ _ _); [apply cloneStripTrim_trimmed|].
  destruct (querySelector _ _ _); apply cloneStripTrim_trimmed.
Qed.

Lemma chatgpt_step_records w newMessages el index :
  Forall chatgptRecord newMessages ->
  Forall chatgptRecord (ChatGPT.step w newMessages el index).
Proof.
  intros H. unfold ChatGPT.step.
  destruct (nodeAt (document w) el ≫= _) as [[|c role]|]; try done.
  destruct (trim (collapseWhiteSpace _)) eqn:E; [done|].
  apply Forall_app; split; [done|]. apply Forall_singleton.
  rewrite <- E. apply ChatgptRecord; [done|]. by rewrite E.
Qed.

Lemma chatgpt_records w m :
  m ∈ ChatGPT.detectMessages w -> chatgptRecord m.
Proof.
  unfold ChatGPT.detectMessages.
  destruct (documentQuerySelector _ _); [|by intros ?%elem_of_nil].
  revert m. apply Forall_forall.
  apply (forEach_invariant _ (Forall chatgptRecord)); [|constructor].
  intros. by apply chatgpt_step_records.
Qed.

Lemma qwen_step_records w st msgEl idx :
  Forall qwenRecord (Qwen.messages st) ->
  Forall qwenRecord (Qwen.messages (Qwen.step w st msgEl idx)).
Proof.
  intros H. unfold Qwen.step.
  destruct (nodeAt _ _) as [n|]; [|done].
  destruct (_ || _); [done|]. destruct (Qwen.isNonMessageId _); [done|].
  destruct (negb _ && _); [done|].
  destruct (Qwen.hasUserClass n).
  - destruct (qwen_userContent_trimmed (document w) msgEl) as [raw ->].
    destruct (trim raw) eqn:E; [done|]. simpl.
    apply Forall_app; split; [done|]. apply Forall_singleton.
    rewrite <- E. apply QwenRecord; [by left | by rewrite E].
  - destruct (qwen_assistantContent_trimmed (document w) msgEl) as [raw ->].
    destruct (trim raw) eqn:E; [done|]. simpl.
    apply Forall_app; split; [done|]. apply Forall_singleton.
    rewrite <- E. apply QwenRecord; [by right | by rewrite E].
Qed.

(** [sort] rearranges. *)
Lemma insertSorted_Permutation {A} (cmp : A -> A -> Z) x l :
  JS.insertSorted cmp x l ≡ₚ x :: l.
Proof.
  induction l as [|y l IH]; simpl; [done|].
  destruct (cmp x y <=? 0)%Z; [done|].
  rewrite IH. apply Permutation_swap.
Qed.

Lemma sort_Permutation {A} (cmp : A -> A -> Z) l : JS.sort cmp l ≡ₚ l.
Proof.
  induction l as [|x l IH]; simpl; [done|].
  by rewrite insertSorted_Permutation, IH.
Qed.

Lemma sort_length {A} (cmp : A -> A -> Z) l : length (JS.sort cmp l) = length l.
Proof. by rewrite sort_Permutation. Qed.

Lemma elem_of_sort {A} (cmp : A -> A -> Z) l x : x ∈ JS.sort cmp l <-> x ∈ l.
Proof. by rewrite sort_Permutation. Qed.

Lemma qwen_setOrder_record idx m : qwenRecord m -> qwenRecord (Qwen.setOrder idx m).
Proof. intros [role index raw el ts ord Hrole Hraw]. by apply QwenRecord. Qed.

Lemma qwen_scan_records w l i :
  Forall qwenRecord (Qwen.messages (forEach (Qwen.step w) l i (Qwen.Scan [] 0 ∅))).
Proof.
  apply (forEach_invariant _ (fun st => Forall qwenRecord (Qwen.messages st)));
    [|constructor].
  intros. by apply qwen_step_records.
Qed.

Lemma qwen_records w m : m ∈ Qwen.detectMessages w -> qwenRecord m.
Proof.
  unfold Qwen.detectMessages, Qwen.sortAndReorder.
  intros (i & m0 & -> & Hm0)%elem_of_lookup_imap_1.
  apply qwen_setOrder_record.
  apply list_elem_of_lookup_2, elem_of_sort in Hm0.
  revert m0 Hm0. apply Forall_forall, qwen_scan_records.
Qed.

Lemma claude_push_records w st tag role text el :
  Forall claudeRecord (Claude.newMessages st) ->
  (forall ts ord,
      claudeRecord
        (Message.Make tag role (substring0 200 text) text el ts (Some ord))) ->
  Forall claudeRecord (Claude.newMessages (Claude.push w st tag role text el)).
Proof.
  intros H Hnew. unfold Claude.push; simpl.
  apply Forall_app; split; [done|]. by apply Forall_singleton.
Qed.

Lemma claude_step_records w userElements st userEl userIndex :
  Forall claudeRecord (Claude.newMessages st) ->
  Forall claudeRecord
    (Claude.newMessages (Claude.step w userElements st userEl userIndex)).
Proof.
  intros H. unfold Claude.step.
  assert (Hu : Forall claudeRecord
                 (Claude.newMessages (Claude.userStep w st userEl userIndex))).
  { unfold Claude.userStep.
    destruct (1 <=? length _) eqn:E; [|done].
    apply claude_push_records; [done|]. intros ts ord.
    apply ClaudeUser. intros Hnil. rewrite Hnil in E. done. }
  unfold Claude.assistantStep.
  destruct (0 <? length _); [|done].
  destruct (Claude.isValidTurn _) eqn:E; [|done].
  apply claude_push_records; [done|]. intros ts ord.
  by apply ClaudeAssistant.
Qed.

Lemma claude_records w m : m ∈ Claude.detectMessages w -> claudeRecord m.
Proof.
  unfold Claude.detectMessages.
  destruct (Claude.resolveContainer _); [|by intros ?%elem_of_nil].
  revert m. apply Forall_forall.
  apply (forEach_invariant _ (fun st => Forall claudeRecord (Claude.newMessages st)));
    [|constructor].
  intros. by apply claude_step_records.
Qed.

Lemma deepseek_classify_role root msgEl role content :
  DeepSeek.classify root msgEl = (Some role, content) ->
  role = lit "user" \/ role = lit "assistant".
Proof.
  unfold DeepSeek.classify.
  destruct (_ <||> _); [intros [= <- _]; by left|].
  destruct (_ <||> _); [intros [= <- _]; by right|].
  destruct (DeepSeek.assistantContainerOf _ _); [intros [= <- _]; by right|].
  destruct (_ || _); [intros [= <- _]; by right|done].
Qed.

Lemma deepseek_step_records w st msgEl index :
  Forall deepseekRecord (DeepSeek.newMessages st) ->
  Forall deepseekRecord (DeepSeek.newMessages (DeepSeek.step w st msgEl index)).
Proof.
  intros H. unfold DeepSeek.step.
  destruct (DeepSeek.classify _ _) as [[role|] content] eqn:Hc; [|done].
  apply deepseek_classify_role in Hc.
  destruct content as [|c content]; [done|].
  destruct (trim (collapseWhiteSpace (c :: content))) eqn:E; [done|].
  simpl. apply Forall_app; split; [done|]. apply Forall_singleton.
  rewrite <- E. apply DeepseekRecord; [done | by rewrite E].
Qed.

Lemma deepseek_records w m : m ∈ DeepSeek.detectMessages w -> deepseekRecord m.
Proof.
  unfold DeepSeek.detectMessages.
  destruct (DeepSeek.resolveContainer _); [|by intros ?%elem_of_nil].
  revert m. apply Forall_forall.
  apply (forEach_invariant _ (fun st => Forall deepseekRecord (DeepSeek.newMessages st)));
    [|constructor].
  intros. by apply deepseek_step_records.
Qed.

Lemma user_is_not_assistant : lit "user" <> lit "assistant".
Proof. intros H. vm_compute in H. discriminate. Qed.

(** *** C3: the disclaimer *)

(** C3, as stated, fails: the text "Model can make mistakes. Please
    double-check responses." passes the final validation, and a page whose
    response block holds it gets an assistant record with that content. *)
Lemma claude_model_text_emitted :
  Claude.isValidTurn
    (lit "Model can make mistakes. Please double-check responses.") = true
  /\ exists m,
       m ∈ Claude.detectMessages
             (Sample.windowOf
                (Sample.claudeTurn
                   "Model can make mistakes. Please double-check responses."))
       /\ Message.role m = lit "assistant"
       /\ Message.fullContent m
          = lit "Model can make mistakes. Please double-check responses.".
Proof.
  split; [by vm_compute|].
  eexists. split; [|split].
  - vm_compute. right. left.
  - reflexivity.
  - reflexivity.
Qed.

(** C3 (amended): in the Claude strategy, an assembled assistant turn whose
    content is "Claude can make mistakes. Please double-check responses."
    (56 characters, matched whole by the first disclaimer pattern) fails the
    final validation: the scan state is unchanged, no assistant record is
    emitted for that user turn. *)
Theorem claude_disclaimer_rejected (w : window) (userElements : list path)
  (st : Claude.scan) (userEl : path) (userIndex : nat) :
  Claude.turnContent (document w) userElements userEl = claudeDisclaimer ->
  Claude.isOnlyDisclaimer claudeDisclaimer = true
  /\ Claude.assistantStep w userElements st userEl userIndex = st.
Proof.
  intros H. split; [by vm_compute|].
  unfold Claude.assistantStep. destruct (0 <? length _); [|done].
  unfold Claude.turnContent in H. rewrite H.
  by replace (Claude.isValidTurn claudeDisclaimer) with false by (by vm_compute).
Qed.

Lemma claude_disclaimer_rejected_witness :
  let w :=
    Sample.windowOf
      (Sample.claudeTurn "Claude can make mistakes. Please double-check responses.") in
  Claude.turnContent (document w) [[1; 0; 0; 0]] [1; 0; 0; 0] = claudeDisclaimer
  /\ Claude.assistantStep w [[1; 0; 0; 0]] (Claude.Scan [] 0) [1; 0; 0; 0] 0
     = Claude.Scan [] 0.
Proof.
  assert (H : Claude.turnContent
                (document
                   (Sample.windowOf
                      (Sample.claudeTurn
                         "Claude can make mistakes. Please double-check responses.")))
                [[1; 0; 0; 0]] [1; 0; 0; 0] = claudeDisclaimer)
    by (vm_compute; reflexivity).
  split; [exact H|].
  exact (proj2 (claude_disclaimer_rejected _ _ (Claude.Scan [] 0) _ 0 H)).
Defined.

(** *** C10: the ten-character threshold *)

(** C10: in the Claude strategy every assistant record has a content of at
    least 10 characters, and an assembled turn of fewer characters, empty or
    not, leaves the scan state unchanged: no record is emitted for it. *)
Theorem claude_short_turn_dropped :
  (forall (w : window) (m : Message.t),
      m ∈ Claude.detectMessages w ->
      Message.role m = lit "assistant" ->
      10 <= length (Message.fullContent m))
  /\ (forall (w : window) (userElements : list path) (st : Claude.scan)
        (userEl : path) (userIndex : nat),
        length (Claude.turnContent (document w) userElements userEl) < 10 ->
        Claude.assistantStep w userElements st userEl userIndex = st).
Proof.
  split.
  - intros w m Hm%claude_records Hrole.
    destruct Hm as [index raw el ts ord Hne | index texts el ts ord Hvalid];
      simpl in *.
    + by destruct user_is_not_assistant.
    + unfold Claude.isValidTurn in Hvalid.
      apply andb_prop in Hvalid as [Hvalid _].
      apply andb_prop in Hvalid as [Hvalid _].
      apply andb_prop in Hvalid as [Hvalid _].
      by apply Nat.leb_le in Hvalid.
  - intros w userElements st userEl userIndex Hshort.
    unfold Claude.assistantStep. destruct (0 <? length _); [|done].
    unfold Claude.turnContent in Hshort.
    unfold Claude.isValidTurn.
    apply Nat.leb_gt in Hshort. by rewrite Hshort.
Qed.

Lemma claude_short_turn_dropped_witness :
  let w := Sample.windowOf Sample.claudeShort in
  let w' := Sample.windowOf (Sample.claudeTurn "The answer to that question is 42.") in
  let m := record (lit "claude") (lit "assistant") 0 (lit "The answer to that question is 42.")
             [1; 0; 1] 1 (Some 1) in
  ((m ∈ Claude.detectMessages w' /\ Message.role m = lit "assistant")
   /\ 10 <= length (Message.fullContent m))
  /\ (Claude.turnContent (document w) [[1; 0; 0; 0]] [1; 0; 0; 0] = lit "Yes."
      /\ length (Claude.turnContent (document w) [[1; 0; 0; 0]] [1; 0; 0; 0]) < 10)
  /\ Claude.assistantStep w [[1; 0; 0; 0]] (Claude.Scan [] 0) [1; 0; 0; 0] 0
     = Claude.Scan [] 0.
Proof.
  assert (Hm : record (lit "claude") (lit "assistant") 0 (lit "The answer to that question is 42.")
                 [1; 0; 1] 1 (Some 1)
               ∈ Claude.detectMessages
                   (Sample.windowOf (Sample.claudeTurn "The answer to that question is 42.")))
    by (vm_compute; right; left).
  assert (H : length (Claude.turnContent
                        (document (Sample.windowOf Sample.claudeShort))
                        [[1; 0; 0; 0]] [1; 0; 0; 0]) < 10)
    by (vm_compute; lia).
  split; [split; [by split|]|split; [split; [by vm_compute | exact H]|]].
  - exact (proj1 claude_short_turn_dropped _ _ Hm eq_refl).
  - exact (proj2 claude_short_turn_dropped _ _ (Claude.Scan [] 0) _ 0 H).
Defined.

(** *** Document order *)

Lemma before_irrefl p : before p p = false.
Proof.
  induction p as [|i p IH]; simpl; [done|].
  by rewrite Nat.ltb_irrefl, Nat.eqb_refl.
Qed.

Lemma before_trans p q r :
  before p q = true -> before q r = true -> before p r = true.
Proof.
  revert q r. induction p as [|i p IH]; intros [|j q] [|k r]; simpl; try done.
  destruct (i <? j) eqn:Hij, (j <? k) eqn:Hjk, (i <? k) eqn:Hik;
    try done;
    destruct (i =? j) eqn:Eij, (j =? k) eqn:Ejk, (i =? k) eqn:Eik; try done;
    try apply IH;
    (apply Nat.ltb_lt in Hij || apply Nat.ltb_ge in Hij);
    (apply Nat.ltb_lt in Hjk || apply Nat.ltb_ge in Hjk);
    (apply Nat.ltb_lt in Hik || apply Nat.ltb_ge in Hik);
    (apply Nat.eqb_eq in Eij || apply Nat.eqb_neq in Eij);
    (apply Nat.eqb_eq in Ejk || apply Nat.eqb_neq in Ejk);
    (apply Nat.eqb_eq in Eik || apply Nat.eqb_neq in Eik); lia.
Qed.

Lemma before_total p q : p <> q -> before p q = false -> before q p = true.
Proof.
  revert q. induction p as [|i p IH]; intros [|j q]; simpl; try done.
  intros Hne.
  destruct (i <? j) eqn:Hij; [done|].
  destruct (i =? j) eqn:Eij.
  - apply Nat.eqb_eq in Eij as ->.
    rewrite Nat.ltb_irrefl, Nat.eqb_refl. apply IH. congruence.
  - intros _. apply Nat.ltb_ge in Hij. apply Nat.eqb_neq in Eij.
    assert (j < i) as ->%Nat.ltb_lt by lia. done.
Qed.

Lemma before_asym p q : before p q = true -> before q p = false.
Proof.
  intros Hpq. destruct (before q p) eqn:Hqp; [|done].
  by rewrite <- (before_irrefl p), <- (before_trans p q p).
Qed.

Lemma before_app p a b : before (p ++ a) (p ++ b) = before a b.
Proof.
  induction p as [|i p IH]; simpl; [done|].
  by rewrite Nat.ltb_irrefl, Nat.eqb_refl.
Qed.

Lemma isPrefix_before p q : isPrefix p q = true -> p <> q -> before p q = true.
Proof.
  revert q. induction p as [|i p IH]; intros [|j q]; simpl; try done.
  intros [->%Nat.eqb_eq Hpq]%andb_prop Hne.
  rewrite Nat.ltb_irrefl, Nat.eqb_refl. apply IH; [done|congruence].
Qed.

(** The bit [DOCUMENT_POSITION_FOLLOWING] of [a.compareDocumentPosition(b)]
    is set exactly when [a] comes before [b]. *)
Lemma following_bit a b :
  (Z.land (compareDocumentPosition a b) DOCUMENT_POSITION_FOLLOWING =? 0)%Z
  = negb (before a b).
Proof.
  unfold compareDocumentPosition. case_bool_decide as Hab.
  - subst. by rewrite before_irrefl.
  - destruct (isPrefix a b) eqn:Pab.
    { by rewrite (isPrefix_before a b). }
    destruct (isPrefix b a) eqn:Pba.
    { rewrite (before_asym b a); [done|]. apply isPrefix_before; [done|congruence]. }
    by destruct (before a b).
Qed.

Lemma preceding_bit a b :
  (Z.land (compareDocumentPosition a b) DOCUMENT_POSITION_PRECEDING =? 0)%Z
  = negb (before b a).
Proof.
  unfold compareDocumentPosition. case_bool_decide as Hab.
  - subst. by rewrite before_irrefl.
  - destruct (isPrefix a b) eqn:Pab.
    { rewrite (before_asym a b); [done|]. by apply isPrefix_before. }
    destruct (isPrefix b a) eqn:Pba.
    { rewrite (isPrefix_before b a); [done|done|congruence]. }
    destruct (before a b) eqn:Hb.
    + by rewrite (before_asym a b).
    + by rewrite (before_total a b).
Qed.

(** *** The elements of a tree, in document order *)

Lemma node_induction (P : node -> Prop) :
  (forall d, P (Text d)) ->
  (forall t a l cs, Forall P cs -> P (Elem t a l cs)) ->
  forall n, P n.
Proof.
  intros HT HE.
  refine (fix IH (n : node) : P n :=
            match n with
            | Text d => HT d
            | Elem t a l cs =>
                HE t a l cs
                  ((fix all (cs : list node) : Forall P cs :=
                      match cs with
                      | [] => @List.Forall_nil node P
                      | c :: cs' => @List.Forall_cons node P c cs' (IH c) (all cs')
                      end) cs)
            end).
Qed.

Lemma elementsOf_Elem t a l cs p :
  elementsOf (Elem t a l cs) p = p :: elementsOfChildren cs p 0.
Proof.
  simpl. f_equal. generalize 0.
  induction cs as [|c cs IH]; intros i; simpl; [done|]. by rewrite IH.
Qed.

Lemma elementsOfChildren_sorted cs p i :
  Forall (fun c => forall q,
              StronglySorted precedes (elementsOf c q)
              /\ forall x, x ∈ elementsOf c q -> exists r, x = q ++ r) cs ->
  StronglySorted precedes (elementsOfChildren cs p i)
  /\ forall x, x ∈ elementsOfChildren cs p i ->
               exists j r, i <= j /\ x = p ++ j :: r.
Proof.
  intros Hcs. revert i.
  induction Hcs as [|c cs Hc _ IH]; intros i; simpl.
  { split; [constructor|]. by intros x ?%elem_of_nil. }
  destruct (Hc (p ++ [i])) as [Hsorted Hprefix].
  destruct (IH (S i)) as [Hsorted' Hprefix'].
  split.
  - apply StronglySorted_app_2; [|done|done].
    intros x1 x2 (r1 & ->)%Hprefix (j & r2 & Hj & ->)%Hprefix'.
    unfold precedes. rewrite <- app_assoc, before_app. simpl.
    by apply Nat.ltb_lt in Hj as ->.
  - intros x [(r & ->)%Hprefix | (j & r & Hj & ->)%Hprefix']%elem_of_app.
    + exists i, r. split; [lia|]. by rewrite <- app_assoc.
    + exists j, r. split; [lia|done].
Qed.

Lemma elementsOf_sorted n : forall p,
  StronglySorted precedes (elementsOf n p)
  /\ forall x, x ∈ elementsOf n p -> exists r, x = p ++ r.
Proof.
  induction n as [d|t a l cs IH] using node_induction; intros p.
  { split; [constructor|]. by intros x ?%elem_of_nil. }
  rewrite elementsOf_Elem.
  destruct (elementsOfChildren_sorted cs p 0 IH) as [Hsorted Hprefix].
  split.
  - constructor; [done|]. apply Forall_forall.
    intros x (j & r & _ & ->)%Hprefix.
    unfold precedes. by rewrite <- (app_nil_r p) at 1; rewrite before_app.
  - intros x [->|(j & r & _ & ->)%Hprefix]%elem_of_cons.
    + exists []. by rewrite app_nil_r.
    + by eexists.
Qed.

Lemma StronglySorted_sublist {A} (R : A -> A -> Prop) l1 l2 :
  l1 `sublist_of` l2 -> StronglySorted R l2 -> StronglySorted R l1.
Proof.
  induction 1 as [|x l1 l2 Hsub IH|x l1 l2 Hsub IH]; intros Hs; [done| |].
  - apply StronglySorted_inv in Hs as [Hs Hall]. constructor; [by apply IH|].
    apply Forall_forall. intros y Hy. rewrite Forall_forall in Hall.
    apply Hall. by eapply elem_of_sublist.
  - apply StronglySorted_inv in Hs as [Hs _]. by apply IH.
Qed.

Lemma sublist_List_filter {A} (f : A -> bool) l : List.filter f l `sublist_of` l.
Proof.
  induction l as [|x l IH]; simpl; [done|].
  destruct (f x); [by apply sublist_skip | by apply sublist_cons].
Qed.

Lemma precedes_sorted_NoDup l : StronglySorted precedes l -> NoDup l.
Proof.
  induction 1 as [|x l Hs IH Hall]; constructor; [|done].
  intros Hx. rewrite Forall_forall in Hall. specialize (Hall x Hx).
  unfold precedes in Hall. by rewrite before_irrefl in Hall.
Qed.

(** What the queries return is in document order, without repetition. *)
Lemma documentQuerySelectorAll_sorted root sel :
  StronglySorted precedes (documentQuerySelectorAll root sel).
Proof.
  eapply StronglySorted_sublist; [apply sublist_List_filter|].
  apply elementsOf_sorted.
Qed.

Lemma querySelectorAll_sorted root p sel :
  StronglySorted precedes (querySelectorAll root p sel).
Proof.
  eapply StronglySorted_sublist; [apply sublist_List_filter|].
  unfold descendants. destruct (nodeAt root p); [|constructor].
  eapply StronglySorted_sublist; [apply sublist_drop|].
  apply elementsOf_sorted.
Qed.

(** *** Sorting by document position *)

Section SortByPosition.
Context {A : Type} (cmp : A -> A -> Z) (key : A -> path).
Hypothesis cmp_before :
  forall x y, (cmp x y <=? 0)%Z = before (key x) (key y).

Lemma insertSorted_sorted x l :
  key x ∉ key <$> l ->
  StronglySorted (precedesBy key) l -> StronglySorted (precedesBy key) (JS.insertSorted cmp x l).
Proof.
  intros Hx Hs. induction Hs as [|y l Hs IH Hall]; simpl.
  { repeat constructor. }
  rewrite cmp_before. destruct (before (key x) (key y)) eqn:Hxy.
  - constructor; [by constructor|]. constructor; [done|].
    rewrite Forall_forall in Hall |- *. intros z Hz.
    unfold precedesBy, precedes. eapply before_trans; [done|]. by apply Hall.
  - rewrite fmap_cons, not_elem_of_cons in Hx. destruct Hx as [Hne Hx].
    constructor; [by apply IH|].
    rewrite Forall_forall in Hall |- *. intros z Hz.
    rewrite insertSorted_Permutation in Hz.
    apply elem_of_cons in Hz as [->|Hz]; [|by apply Hall].
    by apply before_total.
Qed.

Lemma sort_sorted l :
  NoDup (key <$> l) -> StronglySorted (precedesBy key) (JS.sort cmp l).
Proof.
  induction l as [|x l IH]; simpl; [constructor|].
  intros [Hx Hl]%NoDup_cons. apply insertSorted_sorted; [|by apply IH].
  by rewrite sort_Permutation.
Qed.

Lemma sort_positions_sorted l :
  NoDup (key <$> l) -> StronglySorted precedes (key <$> JS.sort cmp l).
Proof.
  intros Hs%sort_sorted. induction Hs as [|x l' Hs IH Hall]; [constructor|].
  rewrite fmap_cons. constructor; [done|].
  rewrite Forall_forall in Hall. apply Forall_forall.
  intros p (y & -> & Hy)%list_elem_of_fmap. by apply Hall.
Qed.
End SortByPosition.

Lemma qwen_byPosition_before a b :
  (Qwen.byPosition a b <=? 0)%Z = before (Message.element a) (Message.element b).
Proof.
  unfold Qwen.byPosition. rewrite following_bit.
  by destruct (before _ _).
Qed.

Lemma positions_imap_setOrder l : positions (imap Qwen.setOrder l) = positions l.
Proof.
  unfold positions. rewrite fmap_imap.
  rewrite (imap_ext _ (fun _ => Message.element)); [|done].
  apply imap_const.
Qed.

Lemma orders_imap_setOrder l k :
  Message.order <$> imap (fun i => Qwen.setOrder (k + i)) l
  = Some <$> seq k (length l).
Proof.
  revert k. induction l as [|m l IH]; intros k; [done|].
  rewrite imap_cons. simpl. rewrite Nat.add_0_r. f_equal.
  rewrite <- IH. f_equal. apply imap_ext. intros i x _. simpl. f_equal. lia.
Qed.

(** The records that the Qwen loop collects come from distinct candidates. *)
Lemma qwen_step_positions w st msgEl idx :
  positions (Qwen.messages (Qwen.step w st msgEl idx))
  = positions (Qwen.messages st)
  \/ positions (Qwen.messages (Qwen.step w st msgEl idx))
     = positions (Qwen.messages st) ++ [msgEl].
Proof.
  unfold Qwen.step.
  destruct (nodeAt _ _) as [n|]; [|by left].
  destruct (_ || _); [by left|]. destruct (Qwen.isNonMessageId _); [by left|].
  destruct (negb _ && _); [by left|].
  destruct (if Qwen.hasUserClass n then _ else _); [by left|].
  right. unfold positions. simpl. by rewrite fmap_app.
Qed.

Lemma qwen_scan_positions w l : forall i st,
  exists extra,
    positions (Qwen.messages (forEach (Qwen.step w) l i st))
    = positions (Qwen.messages st) ++ extra
    /\ extra `sublist_of` l.
Proof.
  induction l as [|x l IH]; intros i st; simpl.
  { exists []. by rewrite app_nil_r. }
  destruct (IH (S i) (Qwen.step w st x i)) as (extra & -> & Hsub).
  destruct (qwen_step_positions w st x i) as [-> | ->].
  - exists extra. split; [done|]. by apply sublist_cons.
  - exists (x :: extra). rewrite <- app_assoc. split; [done|].
    by apply sublist_skip.
Qed.

Lemma qwen_collected_NoDup w :
  NoDup (positions
           (Qwen.messages
              (forEach (Qwen.step w)
                 (documentQuerySelectorAll (document w) Qwen.selAllMessages) 0
                 (Qwen.Scan [] 0 ∅)))).
Proof.
  destruct (qwen_scan_positions w
              (documentQuerySelectorAll (document w) Qwen.selAllMessages) 0
              (Qwen.Scan [] 0 ∅)) as (extra & -> & Hsub).
  simpl. eapply sublist_NoDup; [|done].
  apply precedes_sorted_NoDup, documentQuerySelectorAll_sorted.
Qed.


Lemma counted_push newMessages messageOrder id role content full el ts :
  counted newMessages messageOrder ->
  counted
    (newMessages ++ [Message.Make id role content full el ts (Some messageOrder)])
    (S messageOrder).
Proof.
  intros [Horders ->]. split.
  - rewrite fmap_app, length_app, seq_app, fmap_app, Horders. done.
  - rewrite length_app. simpl. lia.
Qed.

Lemma claude_step_counted w userElements st userEl userIndex :
  counted (Claude.newMessages st) (Claude.messageOrder st) ->
  counted (Claude.newMessages (Claude.step w userElements st userEl userIndex))
          (Claude.messageOrder (Claude.step w userElements st userEl userIndex)).
Proof.
  intros H. unfold Claude.step.
  assert (Hu : counted (Claude.newMessages (Claude.userStep w st userEl userIndex))
                       (Claude.messageOrder (Claude.userStep w st userEl userIndex))).
  { unfold Claude.userStep. destruct (1 <=? length _); [|done].
    by apply counted_push. }
  unfold Claude.assistantStep.
  destruct (0 <? length _); [|done].
  destruct (Claude.isValidTurn _); [|done].
  by apply counted_push.
Qed.

Lemma deepseek_step_counted w st msgEl index :
  counted (DeepSeek.newMessages st) (DeepSeek.messageOrder st) ->
  counted (DeepSeek.newMessages (DeepSeek.step w st msgEl index))
          (DeepSeek.messageOrder (DeepSeek.step w st msgEl index)).
Proof.
  intros H. unfold DeepSeek.step.
  destruct (DeepSeek.classify _ _) as [[role|] content]; [|done].
  destruct content as [|c content]; [done|].
  destruct (trim _); [done|].
  by apply counted_push.
Qed.

(** The records that the Qwen strategy returns are in document order, and so
    are records discovered in any order once sorted and renumbered. *)
Lemma order_sorted_aux :
  (forall discovered : list Message.t,
      NoDup (positions discovered) ->
      StronglySorted precedes (positions (Qwen.sortAndReorder discovered)))
  /\ (forall w : window,
        StronglySorted precedes (positions (Qwen.detectMessages w)))
  /\ (forall l : list Message.t,
        Message.order <$> Qwen.sortAndReorder l = Some <$> seq 0 (length l)).
Proof.
  assert (Hsort : forall discovered : list Message.t,
             NoDup (positions discovered) ->
             StronglySorted precedes (positions (Qwen.sortAndReorder discovered))).
  { intros discovered Hnd. unfold Qwen.sortAndReorder.
    rewrite positions_imap_setOrder.
    by apply (sort_positions_sorted _ _ qwen_byPosition_before). }
  split; [done|]. split.
  - intros w. apply Hsort, qwen_collected_NoDup.
  - intros l. unfold Qwen.sortAndReorder.
    rewrite <- (sort_length Qwen.byPosition l).
    apply (orders_imap_setOrder _ 0).
Qed.

(** *** C1: the order of the records *)

(** In the DeepSeek strategy an assistant record is anchored to the
    enclosing container: on the sample page the second record, the answer,
    is anchored before the first. The orders are 0 and 1 all the same. *)
Lemma deepseek_anchor_not_in_order :
  positions (DeepSeek.detectMessages (Sample.windowOf Sample.deepseekNested))
  = [[1; 0; 0; 0]; [1; 0; 0]]
  /\ before [1; 0; 0] [1; 0; 0; 0] = true
  /\ Message.order <$> DeepSeek.detectMessages (Sample.windowOf Sample.deepseekNested)
     = [Some 0; Some 1].
Proof. by vm_compute. Qed.

(** The Claude strategy numbers its records as it emits them, each question
    followed by its response: on the sample page the response, anchored in
    the second block, is emitted between the two questions of the first. *)
Lemma claude_emission_not_in_order :
  positions (Claude.detectMessages (Sample.windowOf Sample.claudeTwoQuestions))
  = [[1; 0; 0; 0]; [1; 0; 1; 0]; [1; 0; 0; 1]; [1; 0; 1; 0]]
  /\ before [1; 0; 0; 1] [1; 0; 1; 0] = true
  /\ Message.order <$> Claude.detectMessages (Sample.windowOf Sample.claudeTwoQuestions)
     = [Some 0; Some 1; Some 2; Some 3].
Proof. by vm_compute. Qed.

(** C1, as stated, fails. The records of the ChatGPT strategy carry no
    [order]; the DeepSeek and Claude strategies number their records in the
    order of emission, which on the sample pages is not the document order
    of the records' elements. *)
Lemma order_claim_fails :
  (length (ChatGPT.detectMessages (Sample.windowOf Sample.chatgptTool)) = 2
   /\ forall m,
        m ∈ ChatGPT.detectMessages (Sample.windowOf Sample.chatgptTool) ->
        Message.order m = None)
  /\ ~ StronglySorted precedes
        (positions (DeepSeek.detectMessages (Sample.windowOf Sample.deepseekNested)))
  /\ ~ StronglySorted precedes
        (positions (Claude.detectMessages (Sample.windowOf Sample.claudeTwoQuestions))).
Proof.
  split; [split; [by vm_compute|]|split].
  - intros m Hm%chatgpt_records. by destruct Hm.
  - rewrite (proj1 deepseek_anchor_not_in_order).
    intros [_ Hall]%StronglySorted_inv.
    apply Forall_inv in Hall. by vm_compute in Hall.
  - rewrite (proj1 claude_emission_not_in_order).
    intros [Hs _]%StronglySorted_inv. apply StronglySorted_inv in Hs as [_ Hall].
    apply Forall_inv in Hall. by vm_compute in Hall.
Qed.

(** C1 (amended): for the Qwen, Claude and DeepSeek strategies every record
    carries an [order], equal to its index in the returned sequence, so the
    values are 0..N-1. The Qwen strategy returns its records in strictly
    increasing document position; its final sort and renumbering put
    records discovered in any order, from distinct elements, in document
    order with orders 0..N-1. The records of the ChatGPT strategy have no
    [order]. *)
Theorem order_follows_position :
  (forall (p : platform) (w : window),
      p ∈ [qwen; claude; deepseek] ->
      Message.order <$> detectMessages p w
      = Some <$> seq 0 (length (detectMessages p w)))
  /\ (forall w : window,
        StronglySorted precedes (positions (Qwen.detectMessages w)))
  /\ (forall discovered : list Message.t,
        NoDup (positions discovered) ->
        StronglySorted precedes (positions (Qwen.sortAndReorder discovered))
        /\ positions (Qwen.sortAndReorder discovered) ≡ₚ positions discovered
        /\ Message.order <$> Qwen.sortAndReorder discovered
           = Some <$> seq 0 (length discovered))
  /\ (forall (w : window) (m : Message.t),
        m ∈ detectMessages chatgpt w -> Message.order m = None).
Proof.
  destruct order_sorted_aux as (Hsort & Hqwen & Horders).
  split; [|split; [|split]].
  - intros p w. rewrite !elem_of_cons, elem_of_nil.
    intros [-> | [-> | [-> | []]]]; simpl.
    + unfold Qwen.detectMessages. rewrite Horders.
      unfold Qwen.sortAndReorder. by rewrite length_imap, sort_length.
    + unfold Claude.detectMessages.
      destruct (Claude.resolveContainer _); [|done].
      refine (proj1 (forEach_invariant _
                (fun st => counted (Claude.newMessages st) (Claude.messageOrder st))
                _ _ _ _ _)); [|done].
      intros. by apply claude_step_counted.
    + unfold DeepSeek.detectMessages.
      destruct (DeepSeek.resolveContainer _); [|done].
      refine (proj1 (forEach_invariant _
                (fun st => counted (DeepSeek.newMessages st) (DeepSeek.messageOrder st))
                _ _ _ _ _)); [|done].
      intros. by apply deepseek_step_counted.
  - done.
  - intros discovered Hnd. split; [by apply Hsort|]. split; [|apply Horders].
    unfold Qwen.sortAndReorder. rewrite positions_imap_setOrder.
    unfold positions. by rewrite sort_Permutation.
  - intros w m Hm%chatgpt_records. by destruct Hm.
Qed.

Lemma order_follows_position_witness :
  let m := record (lit "chatgpt") (lit "user") 0 (lit "What is 6 x 7?")
             [1; 0; 0] 0 None in
  (qwen ∈ [qwen; claude; deepseek]
   /\ Message.order <$> detectMessages qwen (Sample.windowOf Sample.qwenChat)
      = [Some 0; Some 1])
  /\ (NoDup (positions Sample.discoveredBackwards)
      /\ positions (Qwen.sortAndReorder Sample.discoveredBackwards)
         = [[1; 0]; [1; 1]]
      /\ StronglySorted precedes
           (positions (Qwen.sortAndReorder Sample.discoveredBackwards)))
  /\ (m ∈ detectMessages chatgpt (Sample.windowOf Sample.chatgptTool)
      /\ Message.order m = None).
Proof.
  assert (H1 : qwen ∈ [qwen; claude; deepseek]) by left.
  assert (H2 : NoDup (positions Sample.discoveredBackwards)).
  { apply (bool_decide_unpack _). by vm_compute. }
  assert (H3 : record (lit "chatgpt") (lit "user") 0 (lit "What is 6 x 7?")
                 [1; 0; 0] 0 None
               ∈ detectMessages chatgpt (Sample.windowOf Sample.chatgptTool))
    by (vm_compute; left).
  split; [|split].
  - split; [exact H1|].
    exact (proj1 order_follows_position qwen (Sample.windowOf Sample.qwenChat) H1).
  - split; [exact H2|]. split; [by vm_compute|].
    exact (proj1 (proj1 (proj2 (proj2 order_follows_position)) _ H2)).
  - split; [exact H3|].
    exact (proj2 (proj2 (proj2 order_follows_position)) _ _ H3).
Defined.

(** *** C4: the container *)

Lemma orElse_Some_r {A} (a : option A) (x : A) : exists y, a <||> Some x = Some y.
Proof. destruct a; simpl; eauto. Qed.

Lemma orElse_is_Some_r {A} (a b : option A) : is_Some b -> is_Some (a <||> b).
Proof. intros [x ->]. destruct a; simpl; eauto. Qed.

Lemma parentElement_Some p q :
  parentElement p = Some q -> exists i, p = q ++ [i].
Proof.
  revert q. induction p as [|i p IH]; intros q; simpl; [done|].
  destruct p as [|j p].
  - intros [= <-]. by exists i.
  - destruct (parentElement (j :: p)) as [q'|] eqn:E; [|done].
    intros [= <-]. destruct (IH q' eq_refl) as [k ->]. by exists k.
Qed.

Lemma parentElement_nonroot p : p <> [] -> is_Some (parentElement p).
Proof.
  induction p as [|i p IH]; [done|]. intros _. simpl.
  destruct p as [|j p]; [eauto|].
  destruct IH as [q ->]; [done|]. simpl. eauto.
Qed.

Lemma isPrefix_app p r : isPrefix p (p ++ r) = true.
Proof. induction p as [|i p IH]; simpl; [done|]. by rewrite Nat.eqb_refl. Qed.

Lemma isPrefix_spec p q : isPrefix p q = true -> exists r, q = p ++ r.
Proof.
  revert q. induction p as [|i p IH]; intros q; simpl; [by exists q|].
  destruct q as [|j q]; [done|].
  intros [->%Nat.eqb_eq (r & ->)%IH]%andb_prop. by exists r.
Qed.

Lemma parent_before p q : parentElement p = Some q -> before q p = true.
Proof.
  intros [i ->]%parentElement_Some.
  rewrite <- (app_nil_r q) at 1. by rewrite before_app.
Qed.

(** The [while] loop of DeepSeek's [getContainer] ends on [commonParent]
    only when started from it. *)
Lemma walkUp_reaches steps cp c :
  DeepSeek.walkUp steps cp (Some c) = Some cp -> isPrefix cp c = true.
Proof.
  revert c. induction steps as [|steps IH]; intros c; simpl.
  { intros [= ->]. rewrite <- (app_nil_r cp) at 2. apply isPrefix_app. }
  case_bool_decide as Hc; simpl.
  { subst. intros _. rewrite <- (app_nil_r cp) at 2. apply isPrefix_app. }
  unfold contains. destruct (isPrefix cp c) eqn:Hp; simpl; [done|].
  destruct (parentElement c) as [c'|] eqn:Hpar.
  - intros (r & ->)%IH%isPrefix_spec.
    apply parentElement_Some in Hpar as [i ->].
    by rewrite <- app_assoc, isPrefix_app in Hp.
  - by destruct steps.
Qed.

Lemma commonParentStep_keeps cp x :
  x <> cp ->
  DeepSeek.commonParentStep (Normal (Some cp)) x = Normal (Some cp).
Proof.
  intros Hne. unfold DeepSeek.commonParentStep.
  case_bool_decide as Hw; [|done]. exfalso.
  simpl in Hw. rewrite bool_decide_eq_false_2 in Hw by done. simpl in Hw.
  unfold contains in Hw. destruct (isPrefix cp x) eqn:Hp; simpl in Hw.
  - by injection Hw.
  - destruct (parentElement x) as [x'|] eqn:Hpar.
    + apply walkUp_reaches, isPrefix_spec in Hw as (r & ->).
      apply parentElement_Some in Hpar as [i ->].
      by rewrite <- app_assoc, isPrefix_app in Hp.
    + by destruct (length x).
Qed.

Lemma commonParentOf_found root sel :
  matchesAt root sel [] = false ->
  exists container,
    DeepSeek.commonParentOf (documentQuerySelectorAll root sel) = Normal container.
Proof.
  intros Hroot.
  pose proof (documentQuerySelectorAll_sorted root sel) as Hsorted.
  unfold DeepSeek.commonParentOf.
  destruct (documentQuerySelectorAll root sel) as [|first rest] eqn:E; [eauto|].
  assert (Hfirst : first <> []).
  { intros ->.
    assert (Hin : [] ∈ documentQuerySelectorAll root sel) by (rewrite E; left).
    unfold documentQuerySelectorAll in Hin.
    apply list_elem_of_In, filter_In in Hin as [_ Hm]. congruence. }
  destruct (parentElement_nonroot first Hfirst) as [cp Hcp]. rewrite Hcp.
  exists (Some cp). simpl. rewrite drop_0.
  apply StronglySorted_inv in Hsorted as [_ Hafter].
  assert (Hrest : Forall (fun x => x <> cp) (take 4 rest)).
  { apply Forall_take, Forall_forall. intros x Hx ->.
    rewrite Forall_forall in Hafter. specialize (Hafter _ Hx).
    apply parent_before in Hcp.
    pose proof (before_trans _ _ _ Hcp Hafter) as Hirr.
    by rewrite before_irrefl in Hirr. }
  induction Hrest as [|x l Hx _ IH]; cbn [foldl]; [done|].
  by rewrite commonParentStep_keeps.
Qed.

(** With a root element that is itself a [.ds-message] and a second message
    below it, DeepSeek's [getContainer] calls [contains] on [null]. *)
Lemma deepseek_getContainer_throws :
  is_Some (body Sample.deepseekRootMessage)
  /\ getContainer deepseek (Sample.windowOf Sample.deepseekRootMessage)
     = Throw (lit "TypeError").
Proof. split; [by eexists|]. by vm_compute. Qed.

(** C4, as stated, fails. Without a [main] element the ChatGPT strategy
    resolves no container ([getContainer] returns [null]) and its scan
    returns early; in a document without body the chains of the other
    strategies end on [null] too; and DeepSeek's [getContainer] can throw. *)
Lemma container_claim_fails :
  (is_Some (body Sample.noMain)
   /\ getContainer chatgpt (Sample.windowOf Sample.noMain) = Normal None
   /\ ChatGPT.detectMessages (Sample.windowOf Sample.noMain) = [])
  /\ (getContainer qwen (Sample.windowOf Sample.noBody) = Normal None
      /\ getContainer claude (Sample.windowOf Sample.noBody) = Normal None
      /\ getContainer deepseek (Sample.windowOf Sample.noBody) = Normal None)
  /\ getContainer deepseek (Sample.windowOf Sample.deepseekRootMessage)
     = Throw (lit "TypeError").
Proof.
  split; [split; [by eexists | by vm_compute]|]. split; [by vm_compute|].
  apply deepseek_getContainer_throws.
Qed.

(** An ordered chain of [||] that ends on the body resolves as a chain. *)
Lemma resolvesChain_foldr attempts b :
  resolvesChain attempts b (foldr orElse (Some b) attempts).
Proof.
  induction attempts as [|a attempts (n & k & Hr & Hk & Hbefore)]; simpl.
  { exists b, 0. split; [done|]. split; [done|]. intros j Hj. lia. }
  destruct a as [x|]; simpl.
  - exists x, 0. split; [done|]. split; [done|]. intros j Hj. lia.
  - exists n, (S k). split; [done|]. split; [done|].
    intros [|j] Hj; [done|]. apply Hbefore. lia.
Qed.

(** What resolving a chain means: the first attempt that finds an element
    decides, and the body is the result when none does. *)
Lemma resolvesChain_first attempts b r :
  resolvesChain attempts b r ->
  (forall k n, attempts !! k = Some (Some n) ->
               (forall j, j < k -> attempts !! j = Some None) -> r = Some n)
  /\ (Forall (fun a => a = None) attempts -> r = Some b).
Proof.
  intros (n & k & -> & Hk & Hbefore). split.
  - intros k' n' Hk' Hbefore'.
    destruct (Nat.lt_trichotomy k k') as [Hlt | [-> | Hlt]].
    + specialize (Hbefore' k Hlt).
      rewrite lookup_app_l in Hk by by eapply lookup_lt_Some.
      congruence.
    + rewrite lookup_app_l in Hk by by eapply lookup_lt_Some.
      congruence.
    + specialize (Hbefore k' Hlt).
      rewrite lookup_app_l in Hbefore by by eapply lookup_lt_Some.
      congruence.
  - intros Hnone. destruct (decide (k < length attempts)) as [Hlt | Hge].
    + rewrite lookup_app_l in Hk by done.
      rewrite Forall_forall in Hnone.
      by specialize (Hnone _ (list_elem_of_lookup_2 _ _ _ Hk)).
    + rewrite lookup_app_r in Hk by lia.
      destruct (k - length attempts) as [|d]; simpl in Hk; [|done].
      by injection Hk as ->.
Qed.

(** Below a root element that is not itself a message, the ancestor
    traversal of DeepSeek's [getContainer] gives the parent of the first
    message, or nothing when there is no message. *)
Lemma commonParentOf_first root sel :
  matchesAt root sel [] = false ->
  DeepSeek.commonParentOf (documentQuerySelectorAll root sel)
  = Normal (head (documentQuerySelectorAll root sel) ≫= parentElement).
Proof.
  intros Hroot.
  pose proof (documentQuerySelectorAll_sorted root sel) as Hsorted.
  unfold DeepSeek.commonParentOf.
  destruct (documentQuerySelectorAll root sel) as [|first rest] eqn:E; [done|].
  assert (Hfirst : first <> []).
  { intros ->.
    assert (Hin : [] ∈ documentQuerySelectorAll root sel) by (rewrite E; left).
    unfold documentQuerySelectorAll in Hin.
    apply list_elem_of_In, filter_In in Hin as [_ Hm]. congruence. }
  destruct (parentElement_nonroot first Hfirst) as [cp Hcp]. simpl. rewrite Hcp.
  simpl. rewrite drop_0.
  apply StronglySorted_inv in Hsorted as [_ Hafter].
  assert (Hrest : Forall (fun x => x <> cp) (take 4 rest)).
  { apply Forall_take, Forall_forall. intros x Hx ->.
    rewrite Forall_forall in Hafter. specialize (Hafter _ Hx).
    apply parent_before in Hcp.
    pose proof (before_trans _ _ _ Hcp Hafter) as Hirr.
    by rewrite before_irrefl in Hirr. }
  induction Hrest as [|x l Hx _ IH]; cbn [foldl]; [done|].
  by rewrite commonParentStep_keeps.
Qed.

(** C4 (amended): in a document that has a body, the container resolution
    of the Qwen, Claude and DeepSeek strategies, in [getContainer] and at
    the head of [detectMessages], returns a node: it goes through its
    ordered chain of attempts, the first that finds an element decides, and
    the chain ends on [document.body], which is the result when no attempt
    finds an element. The chains are, for Qwen at both places
    [.chat-messages-container], [[class*="chat-messages"]], [main]; for
    Claude [[data-testid="conversation-turn-list"]], [main], and in
    [detectMessages] [[class*="conversation"]] after them; for DeepSeek
    [.ds-scroll-area], [[class*="ds-scroll-area"]], [[class*="_0f72b0b"]],
    [main], and in [getContainer] the parent of the first [.ds-message]
    before [main]. For DeepSeek's [getContainer] this is stated for a
    document whose root element is not itself a [.ds-message]. *)
Theorem container_resolution (w : window) (b : path) :
  body (document w) = Some b ->
  let root := document w in
  let find := documentQuerySelector root in
  (resolvesChain
     [find Qwen.selContainer; find Qwen.selChatMessages; find Qwen.selMain] b
     (Qwen.resolveContainer root)
   /\ getContainer qwen w = Normal (Qwen.resolveContainer root))
  /\ (resolvesChain
        [find Claude.selTurnList; find Claude.selMain; find Claude.selConversation]
        b (Claude.resolveContainer root)
      /\ exists r,
           getContainer claude w = Normal r
           /\ resolvesChain [find Claude.selTurnList; find Claude.selMain] b r)
  /\ (resolvesChain
        [find (DeepSeek.byClass "ds-scroll-area");
         find (DeepSeek.byClassPart "ds-scroll-area");
         find (DeepSeek.byClassPart "_0f72b0b");
         find DeepSeek.selMain]
        b (DeepSeek.resolveContainer root)
      /\ (matchesAt root (DeepSeek.byClass "ds-message") [] = false ->
          exists r,
            getContainer deepseek w = Normal r
            /\ resolvesChain
                 [find (DeepSeek.byClass "ds-scroll-area");
                  find (DeepSeek.byClassPart "ds-scroll-area");
                  find (DeepSeek.byClassPart "_0f72b0b");
                  head (documentQuerySelectorAll root (DeepSeek.byClass "ds-message"))
                    ≫= parentElement;
                  find DeepSeek.selMain]
                 b r))
  /\ (forall attempts r,
        resolvesChain attempts b r ->
        is_Some r
        /\ (forall k n, attempts !! k = Some (Some n) ->
                        (forall j, j < k -> attempts !! j = Some None) ->
                        r = Some n)
        /\ (Forall (fun a => a = None) attempts -> r = Some b)).
Proof.
  intros Hb. cbv zeta.
  set (root := document w) in *.
  set (find := documentQuerySelector root).
  split; [|split; [|split]].
  - split; [|done]. unfold Qwen.resolveContainer. fold find. rewrite Hb.
    apply (resolvesChain_foldr
             [find Qwen.selContainer; find Qwen.selChatMessages; find Qwen.selMain]).
  - split.
    + unfold Claude.resolveContainer. fold find. rewrite Hb.
      apply (resolvesChain_foldr
               [find Claude.selTurnList; find Claude.selMain;
                find Claude.selConversation]).
    + eexists. split; [reflexivity|]. unfold Claude.getContainer.
      fold root. fold find. rewrite Hb.
      apply (resolvesChain_foldr [find Claude.selTurnList; find Claude.selMain]).
  - split.
    + unfold DeepSeek.resolveContainer. fold find. rewrite Hb.
      apply (resolvesChain_foldr
               [find (DeepSeek.byClass "ds-scroll-area");
                find (DeepSeek.byClassPart "ds-scroll-area");
                find (DeepSeek.byClassPart "_0f72b0b");
                find DeepSeek.selMain]).
    + intros Hroot. simpl. unfold DeepSeek.getContainer. cbv zeta. fold root.
      rewrite (commonParentOf_first root _ Hroot), Hb. fold find.
      pose proof (resolvesChain_foldr
                    [find (DeepSeek.byClass "ds-scroll-area");
                     find (DeepSeek.byClassPart "ds-scroll-area");
                     find (DeepSeek.byClassPart "_0f72b0b");
                     head (documentQuerySelectorAll root
                             (DeepSeek.byClass "ds-message"))
                       ≫= parentElement;
                     find DeepSeek.selMain] b) as Hchain.
      cbn [foldr] in Hchain.
      destruct (find (DeepSeek.byClass "ds-scroll-area")) as [n1|]; [by eexists|].
      destruct (find (DeepSeek.byClassPart "ds-scroll-area")) as [n2|];
        [by eexists|].
      destruct (find (DeepSeek.byClassPart "_0f72b0b")) as [n3|]; [by eexists|].
      by eexists.
  - intros attempts r Hr. split.
    + destruct Hr as (n & _ & -> & _). by eexists.
    + by apply resolvesChain_first.
Qed.

Lemma container_resolution_witness :
  let w := Sample.windowOf Sample.chatgptTool in
  let w' := Sample.windowOf Sample.noMain in
  (body (document w) = Some [1]
   /\ getContainer qwen w = Normal (Some [1; 0])
   /\ (matchesAt (document w) (DeepSeek.byClass "ds-message") [] = false
       /\ exists r,
            getContainer deepseek w = Normal r
            /\ resolvesChain [None; None; None; None; Some [1; 0]] [1] r)
   /\ resolvesChain [None; None; Some [1; 0]] [1] (Some [1; 0]))
  /\ (body (document w') = Some [1]
      /\ getContainer qwen w' = Normal (Some [1])
      /\ resolvesChain [None; None; None] [1] (Claude.resolveContainer (document w'))
      /\ Claude.resolveContainer (document w') = Some [1]).
Proof.
  assert (Hb : body (document (Sample.windowOf Sample.chatgptTool)) = Some [1])
    by reflexivity.
  assert (Hroot : matchesAt (document (Sample.windowOf Sample.chatgptTool))
                    (DeepSeek.byClass "ds-message") [] = false)
    by reflexivity.
  assert (Hb' : body (document (Sample.windowOf Sample.noMain)) = Some [1])
    by reflexivity.
  pose proof (container_resolution (Sample.windowOf Sample.chatgptTool) [1] Hb) as H.
  pose proof (container_resolution (Sample.windowOf Sample.noMain) [1] Hb') as H'.
  cbv zeta in H, H'.
  split; [split; [exact Hb|]; split; [|split]|split; [exact Hb'|]; split; [|split]].
  - exact (proj2 (proj1 H)).
  - split; [exact Hroot|]. exact (proj2 (proj1 (proj2 (proj2 H))) Hroot).
  - exact (proj1 (proj1 H)).
  - exact (proj2 (proj1 H')).
  - exact (proj1 (proj1 (proj2 H'))).
  - apply (proj2 (proj2 (proj2 (proj2 H')) _ _ (proj1 (proj1 (proj2 H'))))).
    by repeat constructor.
Defined.

(** *** Normalized texts *)

Lemma replaceRuns_spaced b s : spaced b (replaceRuns b s) = true.
Proof.
  revert b. induction s as [|c s IH]; intros b; simpl; [done|].
  destruct (isWhiteSpace c) eqn:Hc.
  - destruct b; [apply IH|]. simpl. by rewrite IH.
  - simpl. by rewrite Hc.
Qed.

Lemma spaced_fixed b s : spaced b s = true -> replaceRuns b s = s.
Proof.
  revert b. induction s as [|c s IH]; intros b; simpl; [done|].
  destruct (isWhiteSpace c).
  - intros [[->%N.eqb_eq Hb%negb_true_iff]%andb_prop Hs]%andb_prop.
    subst b. by rewrite IH.
  - intros Hs. by rewrite IH.
Qed.

Lemma spaced_weaken b s : spaced b s = true -> spaced false s = true.
Proof.
  destruct s as [|c s]; simpl; [done|].
  destruct (isWhiteSpace c); [|done].
  by intros [[-> _]%andb_prop ->]%andb_prop.
Qed.

Lemma spaced_app b x y :
  spaced b (x ++ y) = true -> spaced b x = true /\ spaced false y = true.
Proof.
  revert b. induction x as [|c x IH]; intros b; simpl.
  { intros H. split; [done|]. by eapply spaced_weaken. }
  destruct (isWhiteSpace c).
  - intros [-> [Hx Hy]%IH]%andb_prop. by rewrite Hx.
  - apply IH.
Qed.

Lemma spaced_infix piece s : infix piece s -> spaced false s = true -> spaced false piece = true.
Proof.
  intros (a & b & ->) [_ [H _]%spaced_app]%spaced_app. done.
Qed.

Lemma trimStart_suffix s : exists x, s = x ++ trimStart s.
Proof.
  induction s as [|c s [x IH]]; simpl; [by exists []|].
  destruct (isWhiteSpace c).
  - exists (c :: x). simpl. by f_equal.
  - by exists [].
Qed.

Lemma trimEnd_prefix s : exists y, s = trimEnd s ++ y.
Proof.
  unfold trimEnd. destruct (trimStart_suffix (reverse s)) as [x Hx].
  exists (reverse x). rewrite <- reverse_app, <- Hx. by rewrite reverse_involutive.
Qed.

Lemma trim_infix s : infix (trim s) s.
Proof.
  unfold trim. destruct (trimStart_suffix s) as [x Hx].
  destruct (trimEnd_prefix (trimStart s)) as [y Hy].
  exists x, y. by rewrite <- Hy.
Qed.

Lemma infix_trans a b c : infix a b -> infix b c -> infix a c.
Proof.
  intros (x & y & ->) (x' & y' & ->).
  exists (x' ++ x), (y ++ y'). by rewrite <- !app_assoc.
Qed.

Lemma startsClean_trimStart s : startsClean (trimStart s).
Proof.
  induction s as [|c s IH]; simpl; [done|].
  destruct (isWhiteSpace c) eqn:Hc; [done|]. unfold startsClean. by simpl.
Qed.

Lemma startsClean_fixed s : startsClean s -> trimStart s = s.
Proof.
  destruct s as [|c s]; [done|]. unfold startsClean. simpl. by intros ->.
Qed.

Lemma startsClean_prefix x y : startsClean (x ++ y) -> startsClean x.
Proof. by destruct x. Qed.

Lemma endsClean_reverse s : endsClean s <-> startsClean (reverse s).
Proof. unfold endsClean, startsClean. by rewrite head_reverse. Qed.

Lemma startsClean_trim s : startsClean (trim s).
Proof.
  unfold trim. destruct (trimEnd_prefix (trimStart s)) as [y Hy].
  apply (startsClean_prefix _ y). rewrite <- Hy. apply startsClean_trimStart.
Qed.

Lemma endsClean_trim s : endsClean (trim s).
Proof.
  apply endsClean_reverse. unfold trim, trimEnd.
  rewrite reverse_involutive. apply startsClean_trimStart.
Qed.

Lemma clean_trim_fixed s : startsClean s -> endsClean s -> trim s = s.
Proof.
  intros Hs He%endsClean_reverse. unfold trim, trimEnd.
  rewrite (startsClean_fixed s Hs), (startsClean_fixed _ He).
  apply reverse_involutive.
Qed.

Lemma tidy_normalized s : tidy s -> normalized s.
Proof.
  intros (Hsp & Hs & He). split.
  - by apply spaced_fixed.
  - by apply clean_trim_fixed.
Qed.

(** [x.replace(/\s+/g, ' ').trim()] is tidy. *)
Lemma tidy_trim_collapse raw : tidy (trim (collapseWhiteSpace raw)).
Proof.
  split; [|split].
  - eapply spaced_infix; [apply trim_infix|]. apply replaceRuns_spaced.
  - apply startsClean_trim.
  - apply endsClean_trim.
Qed.

Lemma replaceRuns_snoc b s c :
  isWhiteSpace c = false -> replaceRuns b (s ++ [c]) = replaceRuns b s ++ [c].
Proof.
  intros Hc. revert b. induction s as [|d s IH]; intros b; simpl.
  { by rewrite Hc. }
  destruct (isWhiteSpace d), b; by rewrite IH.
Qed.

(** [x.trim().replace(/\s+/g, ' ')] is tidy. *)
Lemma tidy_collapse_trim raw : tidy (collapseWhiteSpace (trim raw)).
Proof.
  pose proof (startsClean_trim raw) as Hs. pose proof (endsClean_trim raw) as He.
  split; [apply replaceRuns_spaced|]. unfold collapseWhiteSpace. split.
  - destruct (trim raw) as [|c s]; [done|].
    unfold startsClean in *. simpl in *. by rewrite Hs.
  - destruct (trim raw) as [|c s] using rev_ind; [done|].
    unfold endsClean in *. rewrite last_snoc in He.
    by rewrite replaceRuns_snoc, last_snoc.
Qed.

(** The pieces that [split] returns are runs of the text. *)
Lemma splitFrom_infix r s : forall skip piece x,
  skip = 0 \/ piece = [] ->
  x ∈ JS.splitFrom r skip piece s -> infix x (reverse piece ++ s).
Proof.
  induction s as [|c s IH]; intros skip piece x Hskip; simpl.
  { intros ->%list_elem_of_singleton. exists [], []. by rewrite !app_nil_r. }
  destruct skip as [|k].
  - destruct (JS.matchHere r (c :: s)) as [[|k]|].
    + intros Hx%(IH 0 (c :: piece) x); [|by left].
      by rewrite reverse_cons, <- app_assoc in Hx.
    + intros [->|Hx]%elem_of_cons.
      * by exists [], (c :: s).
      * apply (IH k [] x) in Hx as (a & b & Hx); [|by right].
        exists (reverse piece ++ c :: a), b.
        rewrite <- app_assoc. simpl. simpl in Hx. by rewrite Hx.
    + intros Hx%(IH 0 (c :: piece) x); [|by left].
      by rewrite reverse_cons, <- app_assoc in Hx.
  - destruct Hskip as [? | ->]; [done|].
    intros (a & b & Hx)%(IH k [] x); [|by right].
    exists (c :: a), b. simpl. simpl in Hx. by rewrite Hx.
Qed.

Lemma split_infix r s x : x ∈ JS.split r s -> infix x s.
Proof. intros Hx. apply (splitFrom_infix r s 0 [] x); [by left|done]. Qed.

(** A sentence kept by the sentence loop: not empty and tidy. *)
Lemma spaced_after_clean b x y :
  x <> [] -> spaced b x = true -> endsClean x -> spaced false y = true ->
  spaced b (x ++ y) = true.
Proof.
  revert b. induction x as [|c x IH]; intros b Hne Hx He Hy; [done|].
  destruct (decide (x = [])) as [-> | Hx'].
  - unfold endsClean in He. simpl in *. by rewrite He in *.
  - assert (He' : endsClean x) by (by destruct x).
    simpl in Hx |- *. destruct (isWhiteSpace c).
    + apply andb_prop in Hx as [-> Hx]. simpl. by apply IH.
    + by apply IH.
Qed.

Lemma spaced_true_clean s :
  spaced false s = true -> startsClean s -> spaced true s = true.
Proof.
  destruct s as [|c s]; [done|]. unfold startsClean. simpl.
  intros H Hc. by rewrite Hc in *.
Qed.

Lemma join_sentences_tidy us :
  Forall (fun u => u <> [] /\ tidy u) us ->
  us <> [] -> join (lit ". ") us <> [] /\ tidy (join (lit ". ") us).
Proof.
  induction 1 as [|u us [Hne (Hsp & Hs & He)] Hus IH]; [done|]. intros _.
  destruct us as [|v us]; [done|].
  destruct IH as [Hne' (Hsp' & Hs' & He')]; [done|].
  change (join (lit ". ") (u :: v :: us))
    with (u ++ [46%N; 32%N] ++ join (lit ". ") (v :: us)).
  set (rest := join (lit ". ") (v :: us)) in *.
  split; [by destruct u|]. split; [|split].
  - apply spaced_after_clean; [done|done|done|].
    change (spaced true rest = true). by apply spaced_true_clean.
  - by destruct u.
  - unfold endsClean in *. rewrite !last_app.
    destruct (last rest) eqn:E; [done|]. by apply last_None in E.
Qed.

Lemma foldl_invariant {A St} (f : St -> A -> St) (P : St -> Prop) (l : list A) :
  (forall s x, x ∈ l -> P s -> P (f s x)) ->
  forall s, P s -> P (foldl f s l).
Proof.
  induction l as [|x l IH]; intros Hstep s Hs; simpl; [done|].
  apply IH.
  - intros s' y Hy. apply Hstep. by right.
  - apply Hstep; [by left|done].
Qed.

Lemma tidy_trim_of_infix x s :
  infix x s -> spaced false s = true -> tidy (trim x).
Proof.
  intros Hx Hs. split; [|split].
  - eapply spaced_infix; [|done]. eapply infix_trans; [apply trim_infix|done].
  - apply startsClean_trim.
  - apply endsClean_trim.
Qed.

Lemma dedupSentences_tidy s : tidy s -> tidy (Claude.dedupSentences s).
Proof.
  intros Hs. unfold Claude.dedupSentences.
  destruct (1 <? length _); [|done].
  set (sentences := List.filter _ _).
  set (us := Claude.uniqueSentences _).
  destruct (_ && _) eqn:Hkeep; [|done].
  assert (Hus : Forall (fun u => u <> [] /\ tidy u) us).
  { subst us.
    apply (foldl_invariant _
             (fun st => Forall (fun u => u <> [] /\ tidy u)
                               (Claude.uniqueSentences st))); [|constructor].
    intros st x Hx Hst. unfold Claude.sentenceStep.
    case_bool_decide; [done|]. simpl.
    apply Forall_app; split; [done|]. apply Forall_singleton.
    apply list_elem_of_In, filter_In in Hx as [Hx%list_elem_of_In Hlen].
    split.
    - intros Hnil. by rewrite Hnil in Hlen.
    - eapply tidy_trim_of_infix; [by eapply split_infix|]. apply Hs. }
  destruct us as [|u us'] eqn:E.
  { by vm_compute in Hkeep. }
  destruct (join_sentences_tidy (u :: us') Hus) as [_ (Hsp & Hst & He)]; [done|].
  rewrite clean_trim_fixed by done. done.
Qed.

Lemma assembleTurn_tidy blockTexts : tidy (Claude.assembleTurn blockTexts).
Proof. apply dedupSentences_tidy, tidy_trim_collapse. Qed.

(** *** C6: the full content is normalized *)

Lemma isPrefix_refl p : isPrefix p p = true.
Proof. rewrite <- (app_nil_r p) at 2. apply isPrefix_app. Qed.

(** What [querySelectorAll] finds below an element lies strictly inside it
    and matches the selector. *)
Lemma querySelectorAll_inside root p sel x :
  x ∈ querySelectorAll root p sel ->
  (exists j r, x = p ++ j :: r) /\ matchesAt root sel x = true.
Proof.
  unfold querySelectorAll. intros Hin.
  apply list_elem_of_In, filter_In in Hin as [Hx Hm]. split; [|done].
  apply list_elem_of_In in Hx. unfold descendants in Hx.
  destruct (nodeAt root p) as [[d|t a l cs]|].
  - by apply elem_of_nil in Hx.
  - rewrite elementsOf_Elem in Hx. change (drop 1 (p :: ?l)) with l in Hx.
    destruct (elementsOfChildren_sorted cs p 0) as [_ H].
    { apply Forall_forall. intros c _ q. apply elementsOf_sorted. }
    destruct (H x Hx) as (j & r & _ & ->). eauto.
  - by apply elem_of_nil in Hx.
Qed.

Lemma lineage_nodeAt p : forall root above,
  lineage root p above <> [] -> exists n, nodeAt root p = Some n.
Proof.
  induction p as [|i p IH]; intros root above; simpl; [by eexists|].
  destruct root as [d|t a l cs]; [done|].
  destruct (cs !! i) as [c|]; [|done]. apply IH.
Qed.

(** What [querySelector] finds below an element is an element of the
    document inside it. *)
Lemma querySelector_below root p sel q :
  querySelector root p sel = Some q ->
  isPrefix p q = true /\ exists n, nodeAt root q = Some n.
Proof.
  unfold querySelector. intros Hq.
  assert (Hin : q ∈ querySelectorAll root p sel).
  { destruct (querySelectorAll root p sel) as [|x l]; [done|].
    injection Hq as ->. left. }
  apply querySelectorAll_inside in Hin as [(j & r & ->) Hm].
  split; [apply isPrefix_app|].
  apply (lineage_nodeAt _ root []). unfold matchesAt in Hm.
  intros Hnil. by rewrite Hnil in Hm.
Qed.

Lemma firstFound_below root el sels q :
  Qwen.firstFound root el sels = Some q ->
  isPrefix el q = true /\ exists n, nodeAt root q = Some n.
Proof.
  induction sels as [|sel sels IH]; simpl; [done|].
  destruct (querySelector root el sel) as [x|] eqn:Hx; simpl.
  - intros [= ->]. by eapply querySelector_below.
  - exact IH.
Qed.

(** The text that the clone-and-strip step gives, when it gives one. *)
Lemma cloneStripTrim_below root msgEl el sel :
  isPrefix msgEl el = true ->
  sel = Qwen.selControls \/ sel = Qwen.selControlsAndActions ->
  Qwen.cloneStripTrim root el sel <> [] ->
  exists raw, textBelow root msgEl raw /\ Qwen.cloneStripTrim root el sel = trim raw.
Proof.
  intros Hprefix Hsel. unfold Qwen.cloneStripTrim, cloneNode.
  destruct (nodeAt root el) as [n|] eqn:Hn; [|done]. intros _.
  exists (strippedText n sel). split; [|done].
  exists el, n. split; [done|]. split; [done|].
  destruct Hsel as [-> | ->]; [right; by left | right; by right].
Qed.

(** The content of a Qwen message, when there is one, is a text of the
    document below the message element, trimmed. *)
Lemma qwen_userContent_below root msgEl :
  Qwen.userContent root msgEl <> [] ->
  exists raw, textBelow root msgEl raw /\ Qwen.userContent root msgEl = trim raw.
Proof.
  unfold Qwen.userContent.
  destruct (Qwen.firstFound root msgEl Qwen.userContentSelectors) as [contentEl|]
    eqn:Hfound.
  - apply firstFound_below in Hfound as [Hprefix [n Hn]]. intros _.
    exists (textContent n). unfold textAt. rewrite Hn. split; [|done].
    exists contentEl, n. split; [done|]. split; [done|]. by left.
  - destruct (querySelector root msgEl Qwen.selTextContainer) as [textContainer|]
      eqn:Hq.
    + apply querySelector_below in Hq as [Hprefix _].
      apply cloneStripTrim_below; [done | by left].
    + apply cloneStripTrim_below; [apply isPrefix_refl | by right].
Qed.

Lemma qwen_assistantContent_below root msgEl :
  Qwen.assistantContent root msgEl <> [] ->
  exists raw,
    textBelow root msgEl raw /\ Qwen.assistantContent root msgEl = trim raw.
Proof.
  unfold Qwen.assistantContent.
  destruct (Qwen.firstFound root msgEl Qwen.assistantContentSelectors)
    as [contentContainer|] eqn:Hfound.
  - apply firstFound_below in Hfound as [Hprefix _].
    apply cloneStripTrim_below; [done | by right].
  - destruct (querySelector root msgEl Qwen.selResponseBody) as [responseBody|]
      eqn:Hq.
    + apply querySelector_below in Hq as [Hprefix _].
      apply cloneStripTrim_below; [done | by left].
    + apply cloneStripTrim_below; [apply isPrefix_refl | by right].
Qed.

Lemma qwen_step_below w st msgEl idx :
  Forall (fun m => exists raw,
              textBelow (document w) (Message.element m) raw
              /\ Message.fullContent m = trim raw)
         (Qwen.messages st) ->
  Forall (fun m => exists raw,
              textBelow (document w) (Message.element m) raw
              /\ Message.fullContent m = trim raw)
         (Qwen.messages (Qwen.step w st msgEl idx)).
Proof.
  intros H. unfold Qwen.step.
  destruct (nodeAt _ _) as [n|]; [|done].
  destruct (_ || _); [done|]. destruct (Qwen.isNonMessageId _); [done|].
  destruct (negb _ && _); [done|].
  destruct (Qwen.hasUserClass n).
  - pose proof (qwen_userContent_below (document w) msgEl) as Hc.
    destruct (Qwen.userContent (document w) msgEl) as [|c content]; [done|].
    simpl. apply Forall_app; split; [done|]. apply Forall_singleton. by apply Hc.
  - pose proof (qwen_assistantContent_below (document w) msgEl) as Hc.
    destruct (Qwen.assistantContent (document w) msgEl) as [|c content]; [done|].
    simpl. apply Forall_app; split; [done|]. apply Forall_singleton. by apply Hc.
Qed.

Lemma qwen_records_below w m :
  m ∈ Qwen.detectMessages w ->
  exists raw,
    textBelow (document w) (Message.element m) raw
    /\ Message.fullContent m = trim raw.
Proof.
  unfold Qwen.detectMessages, Qwen.sortAndReorder.
  intros (i & m0 & -> & Hm0)%elem_of_lookup_imap_1.
  apply list_elem_of_lookup_2, elem_of_sort in Hm0.
  change (Message.element (Qwen.setOrder i m0)) with (Message.element m0).
  change (Message.fullContent (Qwen.setOrder i m0)) with (Message.fullContent m0).
  revert m0 Hm0. apply Forall_forall.
  apply (forEach_invariant _
           (fun st => Forall (fun m => exists raw,
                                textBelow (document w) (Message.element m) raw
                                /\ Message.fullContent m = trim raw)
                             (Qwen.messages st))); [|constructor].
  intros. by apply qwen_step_below.
Qed.

(** C6, as stated, fails: the Qwen strategy only trims. The answer of the
    sample page keeps its line break and its two consecutive spaces. *)
Lemma qwen_content_not_normalized :
  exists m,
    m ∈ Qwen.detectMessages (Sample.windowOf Sample.qwenChat)
    /\ Message.fullContent m = lit "Line one" ++ [10%N] ++ lit "line  two"
    /\ ~ normalized (Message.fullContent m).
Proof.
  eexists. split; [|split].
  - vm_compute. right. left.
  - reflexivity.
  - intros [H _]. vm_compute in H. discriminate.
Qed.

(** C6 (amended): for the ChatGPT, Claude and DeepSeek strategies the
    [fullContent] of every record is normalized: collapsing its white-space
    runs to single spaces and trimming it change nothing; its white space is
    single spaces, none of them first or last. For the Qwen strategy it is
    trimmed only: it is a text of the document, taken at or below the
    element of the record (the text content of an element, as it is or
    without its controls), with the white space at its two ends removed and
    the white space inside kept as it is in the document. *)
Theorem full_content_normalized (p : platform) (w : window) (m : Message.t) :
  m ∈ detectMessages p w ->
  (p ∈ [chatgpt; claude; deepseek] ->
   normalized (Message.fullContent m) /\ tidy (Message.fullContent m))
  /\ (p = qwen ->
      trim (Message.fullContent m) = Message.fullContent m
      /\ exists raw,
           textBelow (document w) (Message.element m) raw
           /\ Message.fullContent m = trim raw
           /\ infix (Message.fullContent m) raw).
Proof.
  intros Hm. split.
  - intros Hp.
    assert (Htidy : tidy (Message.fullContent m)).
    { revert Hp. rewrite !elem_of_cons, elem_of_nil.
      intros [-> | [-> | [-> | []]]]; simpl in Hm.
      + apply chatgpt_records in Hm as [role index raw el ts _ _].
        apply tidy_trim_collapse.
      + apply claude_records in Hm
          as [index raw el ts ord _ | index texts el ts ord _].
        * apply tidy_collapse_trim.
        * apply assembleTurn_tidy.
      + apply deepseek_records in Hm as [role index raw el ts ord _ _].
        apply tidy_trim_collapse. }
    split; [by apply tidy_normalized | done].
  - intros ->. simpl in Hm.
    destruct (qwen_records_below w m Hm) as (raw & Hraw & Hfull).
    split.
    + rewrite Hfull.
      apply clean_trim_fixed; [apply startsClean_trim | apply endsClean_trim].
    + exists raw. split; [done|]. split; [done|]. rewrite Hfull. apply trim_infix.
Qed.

Lemma full_content_normalized_witness :
  let m := record (lit "deepseek") (lit "user") 0 (lit "Q 1") [1; 0; 0] 0 (Some 0) in
  let m' := record (lit "qwen") (lit "assistant") 1
              (lit "Line one" ++ [10%N] ++ lit "line  two") [1; 1] 1 (Some 1) in
  ((m ∈ detectMessages deepseek (Sample.windowOf Sample.deepseekChat)
    /\ deepseek ∈ [chatgpt; claude; deepseek])
   /\ textAt Sample.deepseekChat [1; 0; 0] = lit "Q  1"
   /\ normalized (lit "Q 1"))
  /\ (m' ∈ detectMessages qwen (Sample.windowOf Sample.qwenChat)
      /\ exists raw,
           textBelow Sample.qwenChat [1; 1] raw
           /\ lit "Line one" ++ [10%N] ++ lit "line  two" = trim raw).
Proof.
  assert (Hm : record (lit "deepseek") (lit "user") 0 (lit "Q 1") [1; 0; 0] 0 (Some 0)
               ∈ detectMessages deepseek (Sample.windowOf Sample.deepseekChat))
    by (vm_compute; left).
  assert (Hp : deepseek ∈ [chatgpt; claude; deepseek]) by (right; right; left).
  assert (Hm' : record (lit "qwen") (lit "assistant") 1
                  (lit "Line one" ++ [10%N] ++ lit "line  two") [1; 1] 1 (Some 1)
                ∈ detectMessages qwen (Sample.windowOf Sample.qwenChat))
    by (vm_compute; right; left).
  split; [split; [by split|split; [by vm_compute|]]|split; [done|]].
  - exact (proj1 (proj1 (full_content_normalized _ _ _ Hm) Hp)).
  - destruct (proj2 (proj2 (full_content_normalized _ _ _ Hm') eq_refl))
      as (raw & Hraw & Hfull & _).
    by exists raw.
Defined.

(** *** C7: discovery is a function of the document *)

Lemma insertSorted_fmap {A} (cmp : A -> A -> Z) (f : A -> A) x l :
  (forall a b, cmp (f a) (f b) = cmp a b) ->
  f <$> JS.insertSorted cmp x l = JS.insertSorted cmp (f x) (f <$> l).
Proof.
  intros Hf. induction l as [|y l IH]; simpl; [done|].
  rewrite Hf. destruct (cmp x y <=? 0)%Z; simpl; [done|]. f_equal. apply IH.
Qed.

Lemma sort_fmap {A} (cmp : A -> A -> Z) (f : A -> A) l :
  (forall a b, cmp (f a) (f b) = cmp a b) ->
  f <$> JS.sort cmp l = JS.sort cmp (f <$> l).
Proof.
  intros Hf. induction l as [|x l IH]; [done|].
  rewrite fmap_cons. unfold JS.sort in *. cbn [foldr].
  rewrite insertSorted_fmap by done. by rewrite IH.
Qed.

Lemma shown_untimed (l : list Message.t) :
  shown <$> (untimed <$> l) = shown <$> l.
Proof. rewrite <- list_fmap_compose. by apply list_fmap_ext. Qed.

Lemma chatgpt_still w :
  untimed <$> ChatGPT.detectMessages w = ChatGPT.detectMessages (still w).
Proof.
  unfold ChatGPT.detectMessages. simpl.
  destruct (documentQuerySelector _ _); [|done].
  apply (forEach_related (ChatGPT.step w) (ChatGPT.step (still w))
           (fun s t => untimed <$> s = t)); [|done].
  intros s t el i <-. unfold ChatGPT.step. simpl.
  destruct (nodeAt (document w) el ≫= _) as [[|c role]|]; try done.
  destruct (trim _); [done|]. by rewrite fmap_app.
Qed.

Lemma qwen_still w :
  untimed <$> Qwen.detectMessages w = Qwen.detectMessages (still w).
Proof.
  unfold Qwen.detectMessages, Qwen.sortAndReorder. simpl.
  rewrite fmap_imap.
  rewrite (imap_ext _ (fun n => Qwen.setOrder n ∘ untimed)) by done.
  rewrite <- imap_fmap, (sort_fmap Qwen.byPosition untimed) by done.
  do 2 f_equal.
  set (R := fun s t : Qwen.scan =>
              untimed <$> Qwen.messages s = Qwen.messages t
              /\ Qwen.order s = Qwen.order t /\ Qwen.seen s = Qwen.seen t).
  refine (proj1 (forEach_related (Qwen.step w) (Qwen.step (still w)) R _ _ _ _ _ _));
    [|done].
  intros s t el i (Hm & Ho & Hs). unfold Qwen.step. simpl.
  rewrite <- Ho, <- Hs.
  destruct (nodeAt _ _) as [n|]; [|done].
  destruct (_ || _); [done|]. destruct (Qwen.isNonMessageId _); [done|].
  destruct (negb _ && _); [done|].
  destruct (if Qwen.hasUserClass n then _ else _); [done|].
  repeat split. simpl. by rewrite fmap_app, Hm.
Qed.

Lemma claude_still w :
  untimed <$> Claude.detectMessages w = Claude.detectMessages (still w).
Proof.
  unfold Claude.detectMessages. simpl.
  destruct (Claude.resolveContainer _) as [container|]; [|done].
  set (userElements := Claude.findUserElements _ _).
  set (R := fun s t : Claude.scan =>
              untimed <$> Claude.newMessages s = Claude.newMessages t
              /\ Claude.messageOrder s = Claude.messageOrder t).
  assert (Hpush : forall s t id role content el,
             R s t -> R (Claude.push w s id role content el)
                        (Claude.push (still w) t id role content el)).
  { intros s t id role content el [Hm Ho]. split; simpl.
    - by rewrite fmap_app, Hm, Ho.
    - by rewrite Ho. }
  refine (proj1 (forEach_related (Claude.step w userElements)
                   (Claude.step (still w) userElements) R _ _ _ _ _ _)); [|done].
  intros s t el i Hst. unfold Claude.step.
  assert (Hu : R (Claude.userStep w s el i) (Claude.userStep (still w) t el i)).
  { unfold Claude.userStep. change (document (still w)) with (document w).
    destruct (1 <=? length _); [|done].
    by apply Hpush. }
  unfold Claude.assistantStep. change (document (still w)) with (document w).
  destruct (0 <? length _); [|done].
  destruct (Claude.isValidTurn _); [|done].
  by apply Hpush.
Qed.

Lemma deepseek_still w :
  untimed <$> DeepSeek.detectMessages w = DeepSeek.detectMessages (still w).
Proof.
  unfold DeepSeek.detectMessages. simpl.
  destruct (DeepSeek.resolveContainer _) as [container|]; [|done].
  set (R := fun s t : DeepSeek.scan =>
              untimed <$> DeepSeek.newMessages s = DeepSeek.newMessages t
              /\ DeepSeek.messageOrder s = DeepSeek.messageOrder t).
  refine (proj1 (forEach_related (DeepSeek.step w) (DeepSeek.step (still w)) R
                   _ _ _ _ _ _)); [|done].
  intros s t el i [Hm Ho]. unfold DeepSeek.step. simpl.
  destruct (DeepSeek.classify _ _) as [[role|] content]; [|done].
  destruct content as [|c content]; [done|].
  destruct (trim _); [done|].
  split; simpl; [|by rewrite Ho]. by rewrite fmap_app, Hm, Ho.
Qed.

Lemma detectMessages_still p w :
  p ∈ HopperPlatform ->
  untimed <$> detectMessages p w = detectMessages p (still w).
Proof.
  unfold HopperPlatform. rewrite !elem_of_cons, elem_of_nil.
  intros [-> | [-> | [-> | [-> | []]]]]; simpl.
  - apply chatgpt_still.
  - apply qwen_still.
  - apply claude_still.
  - apply deepseek_still.
Qed.

(** C7: two scans of the same document, at any times, return sequences
    whose records have the same [id], [role] and [content] at every
    position; and each [id] is made of the strategy's tag, the role, an
    index and the fingerprint of the full content (its first 50 code units
    without white space, cut to 20), the preview being the first 200 code
    units of the full content. *)
Theorem discovery_deterministic (p : platform) (w1 w2 : window) :
  p ∈ HopperPlatform ->
  document w1 = document w2 ->
  shown <$> detectMessages p w1 = shown <$> detectMessages p w2
  /\ forall m,
       m ∈ detectMessages p w1 ->
       derivedId (tagOfPlatform p) m
       /\ Message.content m = substring0 200 (Message.fullContent m).
Proof.
  intros Hp Hdoc. split.
  - rewrite <- (shown_untimed (detectMessages p w1)),
      <- (shown_untimed (detectMessages p w2)).
    rewrite !detectMessages_still by done.
    unfold still. by rewrite Hdoc.
  - intros m Hm. unfold HopperPlatform in Hp.
    rewrite !elem_of_cons, elem_of_nil in Hp.
    destruct Hp as [-> | [-> | [-> | [-> | []]]]]; simpl in Hm.
    + apply chatgpt_records in Hm as [role index raw el ts _ _].
      split; [by exists index | done].
    + apply qwen_records in Hm as [role index raw el ts ord _ _].
      split; [by exists index | done].
    + apply claude_records in Hm as [index raw el ts ord _ | index texts el ts ord _];
        (split; [by exists index | done]).
    + apply deepseek_records in Hm as [role index raw el ts ord _ _].
      split; [by exists index | done].
Qed.

Lemma discovery_deterministic_witness :
  let w1 := Sample.windowOf Sample.qwenChat in
  let w2 := Window Sample.qwenChat 600 (fun k => (1000 + 7 * Z.of_nat k)%Z) in
  let m := record (lit "qwen") (lit "user") 0 (lit "Question") [1; 0] 0 (Some 0) in
  (qwen ∈ HopperPlatform /\ document w1 = document w2)
  /\ shown <$> detectMessages qwen w1 = shown <$> detectMessages qwen w2
  /\ Message.timestamp <$> detectMessages qwen w1 = [0%Z; 1%Z]
  /\ Message.timestamp <$> detectMessages qwen w2 = [1000%Z; 1007%Z]
  /\ (m ∈ detectMessages qwen w1 /\ derivedId (lit "qwen") m).
Proof.
  assert (Hp : qwen ∈ HopperPlatform) by (right; left).
  assert (Hdoc : document (Sample.windowOf Sample.qwenChat)
                 = document (Window Sample.qwenChat 600
                               (fun k => (1000 + 7 * Z.of_nat k)%Z)))
    by reflexivity.
  assert (Hm : record (lit "qwen") (lit "user") 0 (lit "Question") [1; 0] 0 (Some 0)
               ∈ detectMessages qwen (Sample.windowOf Sample.qwenChat))
    by (vm_compute; left).
  split; [by split|]. split; [|split; [by vm_compute|split; [by vm_compute|]]].
  - exact (proj1 (discovery_deterministic qwen _ _ Hp Hdoc)).
  - split; [exact Hm|].
    exact (proj1 (proj2 (discovery_deterministic qwen _ _ Hp Hdoc) _ Hm)).
Defined.

(** *** C9: roles and content of the records *)

(** Every record has a content that is not empty, and the records of the
    Qwen, Claude and DeepSeek strategies have the role user or assistant. *)
Lemma records_well_formed (p : platform) (w : window) (m : Message.t) :
  p ∈ HopperPlatform ->
  m ∈ detectMessages p w ->
  Message.fullContent m <> []
  /\ (p <> chatgpt ->
      Message.role m = lit "user" \/ Message.role m = lit "assistant").
Proof.
  unfold HopperPlatform. rewrite !elem_of_cons, elem_of_nil.
  intros [-> | [-> | [-> | [-> | []]]]] Hm; simpl in Hm.
  - apply chatgpt_records in Hm as [role index raw el ts _ Hne]. by split.
  - apply qwen_records in Hm as [role index raw el ts ord Hrole Hne]. by split.
  - apply claude_records in Hm as [index raw el ts ord Hne | index texts el ts ord Hv].
    + split; [done|]. by left.
    + split; [|by right]. simpl. intros Hnil. rewrite Hnil in Hv. by vm_compute in Hv.
  - apply deepseek_records in Hm as [role index raw el ts ord Hrole Hne]. by split.
Qed.

(** C9: the ChatGPT strategy copies the role from the attribute
    [data-message-author-role] without checking it: on the sample page whose
    second message has the role "tool", the scan returns a record with that
    role, which is neither user nor assistant. *)
Theorem chatgpt_emits_foreign_role :
  exists m,
    m ∈ ChatGPT.detectMessages (Sample.windowOf Sample.chatgptTool)
    /\ Message.role m = lit "tool"
    /\ Message.role m <> lit "user"
    /\ Message.role m <> lit "assistant".
Proof.
  eexists. split; [|split; [|split]].
  - vm_compute. right. left.
  - reflexivity.
  - intros H. vm_compute in H. discriminate.
  - intros H. vm_compute in H. discriminate.
Qed.

(** *** C2: the clone-and-strip fallback *)

Lemma lineage_head root p : forall above n,
  nodeAt root p = Some n -> exists above', lineage root p above = n :: above'.
Proof.
  revert root. induction p as [|i p IH]; intros root above n; simpl.
  { intros [= ->]. eauto. }
  destruct root as [d|t a l cs]; [done|].
  destruct (cs !! i) as [c|]; [|done]. apply IH.
Qed.

(** An element found by [div[id^="message-"]] has an [id] that is not empty. *)
Lemma qwen_candidate_id root msgEl n :
  msgEl ∈ documentQuerySelectorAll root Qwen.selAllMessages ->
  nodeAt root msgEl = Some n ->
  idOf n <> [].
Proof.
  unfold documentQuerySelectorAll.
  intros [_ Hm]%list_elem_of_In%filter_In Hn.
  unfold matchesAt in Hm.
  destruct (lineage_head root msgEl [] n Hn) as [above Hl]. rewrite Hl in Hm.
  unfold Qwen.selAllMessages in Hm. cbn [existsb] in Hm.
  rewrite orb_false_r in Hm. unfold matchComplex in Hm. simpl in Hm.
  apply andb_prop in Hm as [Hm _]. unfold matchCompound in Hm.
  apply andb_prop in Hm as [_ Hm]. cbn [forallb] in Hm.
  apply andb_prop in Hm as [_ Hm]. apply andb_prop in Hm as [Hm _].
  unfold matchSimple in Hm. unfold idOf.
  destruct (getAttribute n (lit "id")) as [x|]; [|done]. simpl.
  apply andb_prop in Hm as [_ Hm]. intros ->. by vm_compute in Hm.
Qed.

Lemma firstFound_None root el sels :
  (forall sel, sel ∈ sels -> querySelector root el sel = None) ->
  Qwen.firstFound root el sels = None.
Proof.
  induction sels as [|sel sels IH]; intros H; simpl; [done|].
  rewrite H by left. simpl. apply IH. intros sel' Hsel. apply H. by right.
Qed.

(** The identifiers in [seen] are those of elements already visited. *)
Lemma qwen_seen_visited w l : forall i st,
  (forall x, x ∈ Qwen.seen st ->
             exists q n, q ∈ l /\ nodeAt (document w) q = Some n /\ idOf n = x) ->
  forall x, x ∈ Qwen.seen (forEach (Qwen.step w) l i st) ->
            exists q n, q ∈ l /\ nodeAt (document w) q = Some n /\ idOf n = x.
Proof.
  intros i st Hst.
  apply (forEach_invariant (Qwen.step w)
           (fun st => forall x, x ∈ Qwen.seen st ->
              exists q n, q ∈ l /\ nodeAt (document w) q = Some n /\ idOf n = x));
    [|done].
  clear. intros st q j Hq Hst x. unfold Qwen.step.
  destruct (nodeAt _ _) as [n|] eqn:Hn; [|by apply Hst].
  destruct (_ || _); [by apply Hst|].
  destruct (Qwen.isNonMessageId _); [by apply Hst|].
  destruct (negb _ && _); [by apply Hst|].
  destruct (if Qwen.hasUserClass n then _ else _); simpl;
    (intros [->%elem_of_singleton | Hx]%elem_of_union; [by exists q, n | by apply Hst]).
Qed.

Lemma qwen_step_keeps w st msgEl idx m :
  m ∈ Qwen.messages st -> m ∈ Qwen.messages (Qwen.step w st msgEl idx).
Proof.
  intros Hm. unfold Qwen.step.
  destruct (nodeAt _ _) as [n|]; [|done].
  destruct (_ || _); [done|]. destruct (Qwen.isNonMessageId _); [done|].
  destruct (negb _ && _); [done|].
  destruct (if Qwen.hasUserClass n then _ else _); [done|].
  simpl. apply elem_of_app. by left.
Qed.

Lemma qwen_scan_keeps w l i st m :
  m ∈ Qwen.messages st -> m ∈ Qwen.messages (forEach (Qwen.step w) l i st).
Proof.
  apply (forEach_invariant (Qwen.step w) (fun st => m ∈ Qwen.messages st)).
  intros. by apply qwen_step_keeps.
Qed.

Lemma NoDup_fmap_unique {A B} (f : A -> B) (l : list A) x y :
  NoDup (f <$> l) -> x ∈ l -> y ∈ l -> f x = f y -> x = y.
Proof.
  induction l as [|z l IH]; [by intros _ ?%elem_of_nil|].
  rewrite fmap_cons. intros [Hz Hl]%NoDup_cons.
  intros [->|Hx]%elem_of_cons [->|Hy]%elem_of_cons Hf; [done| | |by apply IH].
  - destruct Hz. rewrite Hf. by apply list_elem_of_fmap_2.
  - destruct Hz. rewrite <- Hf. by apply list_elem_of_fmap_2.
Qed.

(** A candidate with a fresh identifier, a role signal, no content container
    and a text left after stripping is recorded by the loop. *)
Lemma qwen_step_emits w st msgEl idx n :
  nodeAt (document w) msgEl = Some n ->
  idOf n <> [] ->
  idOf n ∉ Qwen.seen st ->
  Qwen.isNonMessageId (idOf n) = false ->
  (Qwen.hasUserClass n = true
   /\ forall sel, sel ∈ Qwen.userContentSelectors ++ [Qwen.selTextContainer] ->
                  querySelector (document w) msgEl sel = None)
  \/ (Qwen.hasUserClass n = false
      /\ Qwen.hasResponseClass n = true
      /\ forall sel, sel ∈ Qwen.assistantContentSelectors ++ [Qwen.selResponseBody] ->
                     querySelector (document w) msgEl sel = None) ->
  trim (strippedText n Qwen.selControlsAndActions) <> [] ->
  exists m,
    Qwen.messages (Qwen.step w st msgEl idx) = Qwen.messages st ++ [m]
    /\ Message.element m = msgEl
    /\ Message.fullContent m = trim (strippedText n Qwen.selControlsAndActions).
Proof.
  intros Hn Hid Hseen Hfilter Hrole Hne.
  unfold Qwen.step. rewrite Hn.
  unfold JS.eqb. rewrite (bool_decide_eq_false_2 _ Hid), (bool_decide_eq_false_2 _ Hseen).
  rewrite Hfilter. cbn [orb].
  assert (Hclone : Qwen.cloneStripTrim (document w) msgEl Qwen.selControlsAndActions
                   = trim (strippedText n Qwen.selControlsAndActions)).
  { unfold Qwen.cloneStripTrim, cloneNode. by rewrite Hn. }
  destruct Hrole as [[Hu Hsel] | (Hu & Hr & Hsel)]; rewrite Hu.
  - cbn [negb andb].
    assert (Hc : Qwen.userContent (document w) msgEl
                 = trim (strippedText n Qwen.selControlsAndActions)).
    { unfold Qwen.userContent. rewrite firstFound_None.
      - rewrite Hsel; [done|]. apply elem_of_app. right. by left.
      - intros sel Hin. apply Hsel, elem_of_app. by left. }
    rewrite Hc. destruct (trim _) eqn:E; [done|]. eauto.
  - rewrite Hr. cbn [negb andb orb].
    assert (Hc : Qwen.assistantContent (document w) msgEl
                 = trim (strippedText n Qwen.selControlsAndActions)).
    { unfold Qwen.assistantContent. rewrite firstFound_None.
      - rewrite Hsel; [done|]. apply elem_of_app. right. by left.
      - intros sel Hin. apply Hsel, elem_of_app. by left. }
    rewrite Hc. destruct (trim _) eqn:E; [done|]. eauto.
Qed.

(** C2, as stated, fails. The last resort of the ChatGPT strategy takes the
    text of the first descendant whose class contains "message": on the
    sample page none of the three content containers exists and the message
    reads "Hello" once its controls are stripped, but that descendant is an
    empty action bar, and the scan returns no record. The DeepSeek strategy
    drops a message without role signature whatever its text. The Claude
    strategy reads the text of a user message with its controls. *)
Lemma fallback_claim_fails :
  ([1; 0; 0] ∈ querySelectorAll Sample.chatgptActionBar [1; 0] ChatGPT.selRole
   /\ (forall sel,
         sel ∈ [ChatGPT.selWhitespace; ChatGPT.selMarkdown; ChatGPT.selTextBase] ->
         querySelector Sample.chatgptActionBar [1; 0; 0] sel = None)
   /\ (exists clone,
         cloneNode Sample.chatgptActionBar [1; 0; 0] = Some clone
         /\ trim (strippedText clone Qwen.selControlsAndActions) = lit "Hello")
   /\ ChatGPT.detectMessages (Sample.windowOf Sample.chatgptActionBar) = [])
  /\ (DeepSeek.findMessageElements Sample.deepseekPlain [1; 0] = [[1; 0; 0]]
      /\ trim (textAt Sample.deepseekPlain [1; 0; 0]) = lit "Plain text"
      /\ DeepSeek.detectMessages (Sample.windowOf Sample.deepseekPlain) = [])
  /\ Message.fullContent
       <$> Claude.detectMessages (Sample.windowOf Sample.claudeWithButton)
     = [lit "Question?Edit"].
Proof.
  split; [|split; by vm_compute].
  split; [vm_compute; left|]. split; [|split].
  - intros sel. rewrite !elem_of_cons, elem_of_nil.
    by intros [-> | [-> | [-> | []]]]; vm_compute.
  - eexists. split; [reflexivity|]. by vm_compute.
  - by vm_compute.
Qed.

(** C2 (amended): in the Qwen strategy, a candidate message element with a
    role signal, whose identifier no other candidate shares and which is not
    filtered out, for which every content-container selector of its role
    finds nothing, gets its content from the last resort: the subtree is
    cloned, the controls are removed from the clone and the remaining text is
    trimmed. When that text is not empty, the scan returns exactly one
    record for the element, with that text as full content. *)
Theorem qwen_fallback_completeness (w : window) (msgEl : path) (n : node) :
  msgEl ∈ documentQuerySelectorAll (document w) Qwen.selAllMessages ->
  nodeAt (document w) msgEl = Some n ->
  Qwen.isNonMessageId (idOf n) = false ->
  (forall other n',
      other ∈ documentQuerySelectorAll (document w) Qwen.selAllMessages ->
      other <> msgEl ->
      nodeAt (document w) other = Some n' ->
      idOf n' <> idOf n) ->
  (Qwen.hasUserClass n = true
   /\ forall sel, sel ∈ Qwen.userContentSelectors ++ [Qwen.selTextContainer] ->
                  querySelector (document w) msgEl sel = None)
  \/ (Qwen.hasUserClass n = false
      /\ Qwen.hasResponseClass n = true
      /\ forall sel, sel ∈ Qwen.assistantContentSelectors ++ [Qwen.selResponseBody] ->
                     querySelector (document w) msgEl sel = None) ->
  trim (strippedText n Qwen.selControlsAndActions) <> [] ->
  exists m,
    m ∈ Qwen.detectMessages w
    /\ Message.element m = msgEl
    /\ Message.fullContent m = trim (strippedText n Qwen.selControlsAndActions)
    /\ forall m', m' ∈ Qwen.detectMessages w -> Message.element m' = msgEl -> m' = m.
Proof.
  intros Hcand Hn Hfilter Hfresh Hrole Hne.
  pose proof (qwen_candidate_id _ _ _ Hcand Hn) as Hid.
  pose proof (documentQuerySelectorAll_sorted (document w) Qwen.selAllMessages)
    as Hnd%precedes_sorted_NoDup.
  assert (Hunique : forall m m',
             m ∈ Qwen.detectMessages w -> m' ∈ Qwen.detectMessages w ->
             Message.element m' = Message.element m -> m' = m).
  { intros m m' Hm Hm' He.
    eapply (NoDup_fmap_unique Message.element); [|done|done|done].
    apply precedes_sorted_NoDup.
    apply (proj1 (proj2 order_sorted_aux) w). }
  unfold Qwen.detectMessages in *.
  destruct (list_elem_of_split _ _ Hcand) as (l1 & l2 & Hsplit).
  rewrite Hsplit in *. clear Hcand.
  rewrite forEach_app in *. cbn [forEach] in *.
  set (st1 := forEach (Qwen.step w) l1 0 (Qwen.Scan [] 0 ∅)) in *.
  assert (Hseen : idOf n ∉ Qwen.seen st1).
  { intros Hin.
    apply (qwen_seen_visited w l1 0 (Qwen.Scan [] 0 ∅)) in Hin
      as (q & n' & Hq & Hn' & Heq); [|by intros x ?%elem_of_empty].
    apply (Hfresh q n'); [| |done|done].
    - apply elem_of_app. by left.
    - intros ->. apply NoDup_app in Hnd as (_ & Hnd & _).
      apply (Hnd msgEl); [done|by left]. }
  destruct (qwen_step_emits w st1 msgEl (0 + length l1) n Hn Hid Hseen Hfilter Hrole Hne)
    as (m0 & Hm0 & Hel & Hfull).
  assert (Hin : m0 ∈ Qwen.messages
                  (forEach (Qwen.step w) l2 (S (0 + length l1))
                     (Qwen.step w st1 msgEl (0 + length l1)))).
  { apply qwen_scan_keeps. rewrite Hm0. apply elem_of_app. right. by left. }
  apply (elem_of_sort Qwen.byPosition) in Hin.
  apply list_elem_of_lookup in Hin as [i Hi].
  exists (Qwen.setOrder i m0).
  assert (Hout : Qwen.setOrder i m0
                 ∈ Qwen.sortAndReorder
                     (Qwen.messages
                        (forEach (Qwen.step w) l2 (S (0 + length l1))
                           (Qwen.step w st1 msgEl (0 + length l1))))).
  { unfold Qwen.sortAndReorder. by apply elem_of_lookup_imap_2. }
  split; [done|]. split; [done|]. split; [done|].
  intros m' Hm' He. apply Hunique; [done|done|]. by rewrite He.
Qed.

Lemma qwen_fallback_completeness_witness :
  ([1; 0] ∈ documentQuerySelectorAll Sample.qwenBare Qwen.selAllMessages
   /\ nodeAt Sample.qwenBare [1; 0] = Some Sample.qwenBareMessage
   /\ Qwen.hasUserClass Sample.qwenBareMessage = true
   /\ trim (strippedText Sample.qwenBareMessage Qwen.selControlsAndActions)
      = lit "How are you?")
  /\ exists m,
       m ∈ Qwen.detectMessages (Sample.windowOf Sample.qwenBare)
       /\ Message.element m = [1; 0]
       /\ Message.fullContent m = lit "How are you?".
Proof.
  assert (Hcand : [1; 0] ∈ documentQuerySelectorAll
                              (document (Sample.windowOf Sample.qwenBare))
                              Qwen.selAllMessages)
    by (vm_compute; left).
  assert (Hn : nodeAt (document (Sample.windowOf Sample.qwenBare)) [1; 0]
               = Some Sample.qwenBareMessage) by reflexivity.
  assert (Hfilter : Qwen.isNonMessageId (idOf Sample.qwenBareMessage) = false)
    by (by vm_compute).
  assert (Hfresh : forall other n',
             other ∈ documentQuerySelectorAll
                       (document (Sample.windowOf Sample.qwenBare))
                       Qwen.selAllMessages ->
             other <> [1; 0] ->
             nodeAt (document (Sample.windowOf Sample.qwenBare)) other = Some n' ->
             idOf n' <> idOf Sample.qwenBareMessage).
  { intros other n' Hother Hne. vm_compute in Hother.
    apply list_elem_of_singleton in Hother. congruence. }
  assert (Hsel : forall sel,
             sel ∈ Qwen.userContentSelectors ++ [Qwen.selTextContainer] ->
             querySelector (document (Sample.windowOf Sample.qwenBare)) [1; 0] sel
             = None).
  { intros sel. unfold Qwen.userContentSelectors. cbn [app].
    rewrite !elem_of_cons, elem_of_nil.
    by intros [-> | [-> | [-> | [-> | [-> | []]]]]]; vm_compute. }
  assert (Hu : Qwen.hasUserClass Sample.qwenBareMessage = true) by (by vm_compute).
  assert (Htext : trim (strippedText Sample.qwenBareMessage Qwen.selControlsAndActions)
                  = lit "How are you?") by (by vm_compute).
  assert (Hne : trim (strippedText Sample.qwenBareMessage Qwen.selControlsAndActions)
                <> []).
  { rewrite Htext. intros H. vm_compute in H. discriminate. }
  split; [done|].
  destruct (qwen_fallback_completeness (Sample.windowOf Sample.qwenBare) [1; 0]
              Sample.qwenBareMessage Hcand Hn Hfilter Hfresh
              (or_introl (conj Hu Hsel)) Hne)
    as (m & Hm & Hel & Hfull & _).
  exists m. split; [done|]. split; [done|]. by rewrite Hfull.
Defined.

(** ** Further properties of the code *)

(** *** The storage relay *)

(** X1: what a save request stores is what the matching get request
    answers, unless the value is falsy ([null], [false], [0] or the empty
    string), in which case the answer is the default: the empty array for
    messages and favorites, "dark" for the theme. A second save of the same
    kind replaces the first. *)
Theorem storage_round_trip (st : gmap (list N) Storage.value) (v v' : Storage.value) :
  (Storage.sent (Storage.onMessage Storage.GET_MESSAGES
                   (Storage.local (Storage.onMessage (Storage.SAVE_MESSAGES v) st)))
   = Some (Storage.Messages (if Storage.truthy v then v else Storage.Arr [])))
  /\ (Storage.sent (Storage.onMessage Storage.GET_FAVORITES
                      (Storage.local (Storage.onMessage (Storage.SAVE_FAVORITES v) st)))
      = Some (Storage.Favorites (if Storage.truthy v then v else Storage.Arr [])))
  /\ (Storage.sent (Storage.onMessage Storage.GET_THEME
                      (Storage.local (Storage.onMessage (Storage.SAVE_THEME v) st)))
      = Some (Storage.Theme
                (if Storage.truthy v then v else Storage.Str (lit "dark"))))
  /\ (Storage.local (Storage.onMessage (Storage.SAVE_MESSAGES v')
                       (Storage.local (Storage.onMessage (Storage.SAVE_MESSAGES v) st)))
      = Storage.local (Storage.onMessage (Storage.SAVE_MESSAGES v') st)).
Proof.
  unfold Storage.onMessage, Storage.getOr. simpl.
  rewrite !lookup_insert_eq, insert_insert_eq. done.
Qed.

(** X2: on a storage that holds nothing under a key, the get request
    answers the default: the empty array for messages and favorites, "dark"
    for the theme. *)
Theorem storage_defaults (st : gmap (list N) Storage.value) :
  (st !! lit "messages" = None ->
   Storage.sent (Storage.onMessage Storage.GET_MESSAGES st)
   = Some (Storage.Messages (Storage.Arr [])))
  /\ (st !! lit "favorites" = None ->
      Storage.sent (Storage.onMessage Storage.GET_FAVORITES st)
      = Some (Storage.Favorites (Storage.Arr [])))
  /\ (st !! lit "hopperTheme" = None ->
      Storage.sent (Storage.onMessage Storage.GET_THEME st)
      = Some (Storage.Theme (Storage.Str (lit "dark")))).
Proof.
  unfold Storage.onMessage, Storage.getOr. simpl.
  repeat match goal with |- _ /\ _ => split end; by intros ->.
Qed.

Lemma storage_defaults_witness :
  ((∅ : gmap (list N) Storage.value) !! lit "hopperTheme" = None)
  /\ Storage.sent (Storage.onMessage Storage.GET_THEME ∅)
     = Some (Storage.Theme (Storage.Str (lit "dark"))).
Proof.
  assert (H : (∅ : gmap (list N) Storage.value) !! lit "hopperTheme" = None)
    by apply lookup_empty.
  split; [exact H|].
  exact (proj2 (proj2 (storage_defaults ∅)) H).
Defined.

(** X3: a request changes the storage only when it is a save, and a save
    changes the answer of no get request but its own: messages, favorites
    and theme are kept apart. *)
Theorem storage_keys_apart (req get : Storage.request)
  (st : gmap (list N) Storage.value) :
  (Storage.readerOf req = None ->
   Storage.local (Storage.onMessage req st) = st)
  /\ (Storage.isGet get = true ->
      Storage.readerOf req <> Some get ->
      Storage.sent (Storage.onMessage get (Storage.local (Storage.onMessage req st)))
      = Storage.sent (Storage.onMessage get st)).
Proof.
  split.
  - by destruct req.
  - intros Hget Hne.
    destruct req, get; try done; unfold Storage.onMessage, Storage.getOr; simpl;
      by rewrite lookup_insert_ne by (intros H; vm_compute in H; discriminate).
Qed.

Lemma storage_keys_apart_witness :
  (Storage.readerOf (Storage.Other (lit "PING")) = None
   /\ Storage.local (Storage.onMessage (Storage.Other (lit "PING")) ∅) = ∅)
  /\ ((Storage.isGet Storage.GET_THEME = true
       /\ Storage.readerOf (Storage.SAVE_MESSAGES (Storage.Arr [Storage.Num 1]))
          <> Some Storage.GET_THEME)
      /\ Storage.sent
           (Storage.onMessage Storage.GET_THEME
              (Storage.local
                 (Storage.onMessage (Storage.SAVE_MESSAGES (Storage.Arr [Storage.Num 1]))
                    ∅)))
         = Some (Storage.Theme (Storage.Str (lit "dark")))).
Proof.
  assert (H1 : Storage.readerOf (Storage.Other (lit "PING")) = None) by reflexivity.
  assert (H2 : Storage.isGet Storage.GET_THEME = true) by reflexivity.
  assert (H3 : Storage.readerOf (Storage.SAVE_MESSAGES (Storage.Arr [Storage.Num 1]))
               <> Some Storage.GET_THEME) by discriminate.
  split.
  - split; [exact H1|].
    exact (proj1 (storage_keys_apart _ Storage.GET_THEME ∅) H1).
  - split; [by split|].
    exact (proj2 (storage_keys_apart _ _ ∅) H2 H3).
Defined.

(** *** Substrings *)

Lemma startsWith_spec s t : startsWith s t = true <-> exists b, s = t ++ b.
Proof.
  revert s. induction t as [|p t IH]; intros [|c s]; simpl.
  - split; [by exists [] | done].
  - split; [by exists (c :: s) | done].
  - split; [done | by intros [b ?]].
  - rewrite andb_true_iff, N.eqb_eq, IH. split.
    + intros [-> [b ->]]. by exists b.
    + intros [b [= -> ->]]. eauto.
Qed.

Lemma includes_spec s t : includes s t = true <-> exists a b, s = a ++ t ++ b.
Proof.
  induction s as [|c s IH].
  - change (includes [] t) with (startsWith [] t || false).
    rewrite orb_false_r, startsWith_spec. split.
    + intros [b ->]. by exists [], b.
    + intros (a & b & H). destruct a; [by exists b|done].
  - change (includes (c :: s) t) with (startsWith (c :: s) t || includes s t).
    rewrite orb_true_iff, startsWith_spec, IH. split.
    + intros [[b ->] | (a & b & ->)]; [by exists [], b | by exists (c :: a), b].
    + intros ([|c' a] & b & H).
      * left. by exists b.
      * right. injection H as -> ->. by exists a, b.
Qed.

Lemma includes_suffix_of_needle s x y :
  includes s (x ++ y) = true -> includes s y = true.
Proof.
  rewrite !includes_spec. intros (a & b & ->).
  exists (a ++ x), b. by rewrite <- !app_assoc.
Qed.

(** *** [isActive] *)

(** X4: whatever the host name, at most one of the four strategies is
    active: the tests never select two strategies for one page. *)
Theorem at_most_one_active (hostname : jsstring) :
  length (List.filter (fun test => test hostname) IsActive.all) <= 1.
Proof.
  unfold IsActive.all. cbn [List.filter].
  destruct (IsActive.chatgpt hostname) eqn:Hc.
  { apply bool_decide_eq_true in Hc. unfold ChatGPT.hostnames in Hc.
    rewrite !elem_of_cons, elem_of_nil in Hc.
    destruct Hc as [-> | [-> | []]]; vm_compute; lia. }
  destruct (IsActive.claude hostname) eqn:Hl.
  { apply bool_decide_eq_true in Hl. unfold Claude.hostnames in Hl.
    rewrite !elem_of_cons, elem_of_nil in Hl.
    destruct Hl as [-> | []]; vm_compute; lia. }
  destruct (IsActive.deepseek hostname) eqn:Hd.
  { apply bool_decide_eq_true in Hd. unfold DeepSeek.hostnames in Hd.
    rewrite !elem_of_cons, elem_of_nil in Hd.
    destruct Hd as [-> | [-> | [-> | []]]]; vm_compute; lia. }
  destruct (IsActive.qwen hostname); simpl; lia.
Qed.

(** X5: the Qwen strategy is active exactly on the host names that contain
    "qwen.ai" anywhere, its own two host names or not; the other three
    strategies are active on their listed host names only. *)
Theorem qwen_active_on_substring (hostname : jsstring) :
  IsActive.qwen hostname = includes hostname (lit "qwen.ai")
  /\ (IsActive.chatgpt hostname = true <-> hostname ∈ ChatGPT.hostnames)
  /\ (IsActive.claude hostname = true <-> hostname = lit "claude.ai")
  /\ (IsActive.deepseek hostname = true <-> hostname ∈ DeepSeek.hostnames)
  /\ IsActive.qwen (lit "qwen.ai.example.org") = true.
Proof.
  split; [|split; [|split; [|split]]].
  - unfold IsActive.qwen, Qwen.hostnames. cbn [existsb].
    rewrite orb_false_r.
    destruct (includes hostname (lit "chat.qwen.ai")) eqn:E; [|done].
    symmetry. by apply (includes_suffix_of_needle hostname (lit "chat.") (lit "qwen.ai")).
  - apply bool_decide_eq_true.
  - unfold IsActive.claude, Claude.hostnames.
    rewrite bool_decide_eq_true. apply list_elem_of_singleton.
  - apply bool_decide_eq_true.
  - by vm_compute.
Qed.

(** *** [normalizeUrl] *)

Lemma beforeHash_prefix url : exists rest, url = NormalizeUrl.beforeHash url ++ rest.
Proof.
  induction url as [|c url [rest IH]]; simpl; [by exists []|].
  destruct (c =? 35)%N; [by eexists|]. exists rest. simpl. by f_equal.
Qed.

Lemma beforeHash_no_hash url : 35%N ∉ NormalizeUrl.beforeHash url.
Proof.
  induction url as [|c url IH]; simpl; [by intros ?%elem_of_nil|].
  destruct (c =? 35)%N eqn:E; [by intros ?%elem_of_nil|].
  apply N.eqb_neq in E. intros [?|?]%elem_of_cons; [congruence|done].
Qed.

Lemma beforeHash_id url : 35%N ∉ url -> NormalizeUrl.beforeHash url = url.
Proof.
  induction url as [|c url IH]; simpl; [done|].
  intros [Hc Hurl]%not_elem_of_cons.
  assert ((c =? 35)%N = false) as -> by (apply N.eqb_neq; congruence).
  by rewrite IH.
Qed.

Lemma dropFinalSlash_prefix s : exists rest, s = NormalizeUrl.dropFinalSlash s ++ rest.
Proof.
  unfold NormalizeUrl.dropFinalSlash. case_bool_decide.
  - exists (drop (length s - 1) s). by rewrite take_drop.
  - exists []. by rewrite app_nil_r.
Qed.

Lemma dropFinalSlash_snoc s : NormalizeUrl.dropFinalSlash (s ++ [47%N]) = s.
Proof.
  unfold NormalizeUrl.dropFinalSlash. rewrite last_snoc, bool_decide_eq_true_2 by done.
  rewrite length_app. simpl. rewrite Nat.add_sub. by rewrite take_app_length.
Qed.

Lemma segment_no_slash s : 47%N ∉ NormalizeUrl.segment s.
Proof.
  induction s as [|c s IH]; simpl; [by intros ?%elem_of_nil|].
  destruct (c =? 47)%N eqn:E; [by intros ?%elem_of_nil|].
  apply N.eqb_neq in E. intros [?|?]%elem_of_cons; [congruence|done].
Qed.

Lemma segment_id s : 47%N ∉ s -> NormalizeUrl.segment s = s.
Proof.
  induction s as [|c s IH]; simpl; [done|].
  intros [Hc Hs]%not_elem_of_cons.
  assert ((c =? 47)%N = false) as -> by (apply N.eqb_neq; congruence).
  by rewrite IH.
Qed.

Lemma conversationId_shape pathname id :
  NormalizeUrl.conversationId pathname = Some id ->
  id <> [] /\ (47%N ∉ id) /\ includes pathname (lit "/c/" ++ id) = true.
Proof.
  induction pathname as [|c rest IH]; [done|].
  cbn [NormalizeUrl.conversationId].
  assert (Hrest : NormalizeUrl.conversationId rest = Some id ->
                  id <> [] /\ (47%N ∉ id)
                  /\ includes (c :: rest) (lit "/c/" ++ id) = true).
  { intros (? & ? & Hin)%IH. split; [done|]. split; [done|].
    change (includes (c :: rest) (lit "/c/" ++ id))
      with (startsWith (c :: rest) (lit "/c/" ++ id) || includes rest (lit "/c/" ++ id)).
    rewrite Hin. apply orb_true_r. }
  destruct (startsWith (c :: rest) (lit "/c/")) eqn:Hstart; [|done].
  destruct (NormalizeUrl.segment (drop 3 (c :: rest))) as [|d seg] eqn:Hseg; [done|].
  intros [= <-]. split; [done|]. split.
  { rewrite <- Hseg. apply segment_no_slash. }
  apply includes_spec. apply startsWith_spec in Hstart as [b Hb].
  rewrite Hb in Hseg |- *.
  change (drop 3 (lit "/c/" ++ b)) with b in Hseg.
  assert (Hsplit : forall s, exists r, s = NormalizeUrl.segment s ++ r).
  { clear. induction s as [|x s [r IHs]]; simpl; [by exists []|].
    destruct (x =? 47)%N; [by eexists|]. exists r. simpl. by f_equal. }
  destruct (Hsplit b) as [r Hr]. rewrite Hseg in Hr.
  exists [], r. rewrite app_nil_l, <- app_assoc. by rewrite <- Hr.
Qed.

Lemma conversationId_of_normalized id :
  id <> [] -> 47%N ∉ id ->
  NormalizeUrl.conversationId (lit "/c/" ++ id) = Some id.
Proof.
  intros Hne Hid.
  change (lit "/c/" ++ id) with (47%N :: 99%N :: 47%N :: id).
  cbn [NormalizeUrl.conversationId].
  assert (startsWith (47%N :: 99%N :: 47%N :: id) (lit "/c/") = true) as ->.
  { apply startsWith_spec. by exists id. }
  change (drop 3 (47%N :: 99%N :: 47%N :: id)) with id.
  rewrite segment_id by done. by destruct id.
Qed.

(** X6: when the address cannot be parsed, every strategy answers the text
    before the first [#], without its last code unit if that is a slash: the
    answer has no [#], is a prefix of the address, and is the address itself
    when it has no [#] and does not end in a slash. Only one final slash is
    removed. *)
Theorem normalizeUrl_fallback (parseURL : jsstring -> option (jsstring * jsstring))
  (url : jsstring) :
  parseURL url = None ->
  NormalizeUrl.chatgpt parseURL url = NormalizeUrl.fallback url
  /\ NormalizeUrl.qwen parseURL url = NormalizeUrl.fallback url
  /\ NormalizeUrl.claude parseURL url = NormalizeUrl.fallback url
  /\ NormalizeUrl.deepseek parseURL url = NormalizeUrl.fallback url
  /\ (35%N ∉ NormalizeUrl.fallback url)
  /\ (exists rest, url = NormalizeUrl.fallback url ++ rest)
  /\ (35%N ∉ url -> last url <> Some 47%N -> NormalizeUrl.fallback url = url)
  /\ (forall s, NormalizeUrl.beforeHash url = s ++ [47%N] ->
                NormalizeUrl.fallback url = s).
Proof.
  intros Hparse.
  unfold NormalizeUrl.chatgpt, NormalizeUrl.qwen, NormalizeUrl.claude,
    NormalizeUrl.deepseek. rewrite Hparse.
  repeat match goal with |- _ /\ _ => split end; try done.
  - unfold NormalizeUrl.fallback.
    destruct (dropFinalSlash_prefix (NormalizeUrl.beforeHash url)) as [rest Hrest].
    intros Hin. apply (beforeHash_no_hash url). rewrite Hrest.
    apply elem_of_app. by left.
  - unfold NormalizeUrl.fallback.
    destruct (dropFinalSlash_prefix (NormalizeUrl.beforeHash url)) as [r1 H1].
    destruct (beforeHash_prefix url) as [r2 H2].
    exists (r1 ++ r2). rewrite app_assoc, <- H1. done.
  - intros Hhash Hlast. unfold NormalizeUrl.fallback.
    rewrite beforeHash_id by done.
    unfold NormalizeUrl.dropFinalSlash. by rewrite bool_decide_eq_false_2.
  - intros s Hs. unfold NormalizeUrl.fallback. rewrite Hs.
    apply dropFinalSlash_snoc.
Qed.

Lemma normalizeUrl_fallback_witness :
  let parseURL := fun _ : jsstring => @None (jsstring * jsstring) in
  parseURL (lit "/c/abc//#top") = None
  /\ NormalizeUrl.chatgpt parseURL (lit "/c/abc//#top") = lit "/c/abc/"
  /\ NormalizeUrl.fallback (lit "/c/abc//#top") = lit "/c/abc/".
Proof.
  assert (H : (fun _ : jsstring => @None (jsstring * jsstring)) (lit "/c/abc//#top")
              = None) by reflexivity.
  split; [exact H|]. split; [|by vm_compute].
  exact (proj1 (normalizeUrl_fallback _ _ H)).
Defined.

(** X7: for an address whose path holds a conversation segment [/c/{id}],
    the Qwen strategy answers [/c/] followed by the identifier, which is not
    empty and has no slash: the query and the rest of the path do not count,
    so two addresses with that path get the same answer. *)
Theorem qwen_conversation_address (parseURL : jsstring -> option (jsstring * jsstring))
  (url1 url2 pathname search1 search2 id : jsstring) :
  parseURL url1 = Some (pathname, search1) ->
  parseURL url2 = Some (pathname, search2) ->
  NormalizeUrl.conversationId pathname = Some id ->
  NormalizeUrl.qwen parseURL url1 = lit "/c/" ++ id
  /\ NormalizeUrl.qwen parseURL url1 = NormalizeUrl.qwen parseURL url2
  /\ id <> [] /\ (47%N ∉ id)
  /\ includes pathname (lit "/c/" ++ id) = true.
Proof.
  intros H1 H2 Hid. unfold NormalizeUrl.qwen. rewrite H1, H2, Hid.
  split; [done|]. split; [done|]. by apply conversationId_shape.
Qed.

Lemma qwen_conversation_address_witness :
  let parseURL := fun url : jsstring => Some (lit "/c/abc/share", drop 12 url) in
  (parseURL (lit "/c/abc/share?x=1") = Some (lit "/c/abc/share", lit "?x=1")
   /\ parseURL (lit "/c/abc/share?x=2") = Some (lit "/c/abc/share", lit "?x=2")
   /\ NormalizeUrl.conversationId (lit "/c/abc/share") = Some (lit "abc"))
  /\ NormalizeUrl.qwen parseURL (lit "/c/abc/share?x=1") = lit "/c/abc"
  /\ NormalizeUrl.qwen parseURL (lit "/c/abc/share?x=2") = lit "/c/abc".
Proof.
  set (parseURL := fun url : jsstring => Some (lit "/c/abc/share", drop 12 url)).
  assert (H1 : parseURL (lit "/c/abc/share?x=1")
               = Some (lit "/c/abc/share", lit "?x=1")) by reflexivity.
  assert (H2 : parseURL (lit "/c/abc/share?x=2")
               = Some (lit "/c/abc/share", lit "?x=2")) by reflexivity.
  assert (H3 : NormalizeUrl.conversationId (lit "/c/abc/share") = Some (lit "abc"))
    by reflexivity.
  pose proof (qwen_conversation_address parseURL _ _ _ _ _ _ H1 H2 H3) as H.
  split; [done|]. split; [exact (proj1 H)|].
  rewrite <- (proj1 (proj2 H)). exact (proj1 H).
Defined.

(** X8: for an address that is parsed, the ChatGPT, Claude and DeepSeek
    strategies answer the path followed by the query, so two addresses with
    the same path get the same answer only when their queries are equal; so
    does the Qwen strategy when the path holds no conversation segment. *)
Theorem normalizeUrl_keeps_query (parseURL : jsstring -> option (jsstring * jsstring))
  (url1 url2 pathname search1 search2 : jsstring) :
  parseURL url1 = Some (pathname, search1) ->
  parseURL url2 = Some (pathname, search2) ->
  (NormalizeUrl.chatgpt parseURL url1 = NormalizeUrl.chatgpt parseURL url2
   <-> search1 = search2)
  /\ (NormalizeUrl.claude parseURL url1 = NormalizeUrl.claude parseURL url2
      <-> search1 = search2)
  /\ (NormalizeUrl.deepseek parseURL url1 = NormalizeUrl.deepseek parseURL url2
      <-> search1 = search2)
  /\ (NormalizeUrl.conversationId pathname = None ->
      (NormalizeUrl.qwen parseURL url1 = NormalizeUrl.qwen parseURL url2
       <-> search1 = search2)).
Proof.
  intros H1 H2.
  unfold NormalizeUrl.chatgpt, NormalizeUrl.claude, NormalizeUrl.deepseek,
    NormalizeUrl.qwen. rewrite H1, H2.
  repeat match goal with |- _ /\ _ => split end;
    try intros ->; (split; [apply app_inv_head | by intros ->]).
Qed.

Lemma normalizeUrl_keeps_query_witness :
  let parseURL := fun url : jsstring => Some (lit "/chat", drop 5 url) in
  (parseURL (lit "/chat?x=1") = Some (lit "/chat", lit "?x=1")
   /\ parseURL (lit "/chat?x=2") = Some (lit "/chat", lit "?x=2")
   /\ NormalizeUrl.conversationId (lit "/chat") = None)
  /\ NormalizeUrl.chatgpt parseURL (lit "/chat?x=1")
     <> NormalizeUrl.chatgpt parseURL (lit "/chat?x=2")
  /\ NormalizeUrl.qwen parseURL (lit "/chat?x=1")
     <> NormalizeUrl.qwen parseURL (lit "/chat?x=2").
Proof.
  set (parseURL := fun url : jsstring => Some (lit "/chat", drop 5 url)).
  assert (H1 : parseURL (lit "/chat?x=1") = Some (lit "/chat", lit "?x=1"))
    by reflexivity.
  assert (H2 : parseURL (lit "/chat?x=2") = Some (lit "/chat", lit "?x=2"))
    by reflexivity.
  assert (H3 : NormalizeUrl.conversationId (lit "/chat") = None) by reflexivity.
  pose proof (normalizeUrl_keeps_query parseURL _ _ _ _ _ H1 H2) as H.
  split; [done|]. split.
  - intros Heq. apply (proj1 H) in Heq. vm_compute in Heq. discriminate.
  - intros Heq. apply (proj2 (proj2 (proj2 H)) H3) in Heq.
    vm_compute in Heq. discriminate.
Defined.

(** X9: an answer of the Qwen strategy for a conversation is a fixed point.
    Given again as the address, [/c/{id}] is answered by itself, whether
    the parser rejects it, as it does an address without scheme, so that
    the text is cut at [#] and loses a final slash, of which it has
    neither, or takes it as a path. *)
Theorem qwen_normalized_is_fixed (parseURL : jsstring -> option (jsstring * jsstring))
  (id : jsstring) :
  id <> [] -> 47%N ∉ id -> 35%N ∉ id ->
  parseURL (lit "/c/" ++ id) = None
  \/ (exists search, parseURL (lit "/c/" ++ id) = Some (lit "/c/" ++ id, search)) ->
  NormalizeUrl.qwen parseURL (lit "/c/" ++ id) = lit "/c/" ++ id.
Proof.
  intros Hne Hslash Hhash [Hparse | [search Hparse]]; unfold NormalizeUrl.qwen;
    rewrite Hparse.
  - unfold NormalizeUrl.fallback. rewrite beforeHash_id.
    + unfold NormalizeUrl.dropFinalSlash. rewrite bool_decide_eq_false_2; [done|].
      rewrite last_app. destruct (last id) as [c|] eqn:Hlast.
      * intros [= ->]. apply Hslash. apply last_Some in Hlast as [l' ->].
        apply elem_of_app. right. left.
      * destruct id as [|c id' _] using rev_ind; [done|].
        by rewrite last_snoc in Hlast.
    + intros [Hin | Hin]%elem_of_app; [|done].
      revert Hin. apply (bool_decide_unpack _). by vm_compute.
  - by rewrite conversationId_of_normalized.
Qed.

Lemma qwen_normalized_is_fixed_witness :
  let parseURL := fun _ : jsstring => @None (jsstring * jsstring) in
  (lit "abc" <> [] /\ (47%N ∉ lit "abc") /\ (35%N ∉ lit "abc")
   /\ parseURL (lit "/c/" ++ lit "abc") = None)
  /\ NormalizeUrl.qwen parseURL (lit "/c/" ++ lit "abc") = lit "/c/abc".
Proof.
  set (parseURL := fun _ : jsstring => @None (jsstring * jsstring)).
  assert (H1 : lit "abc" <> []) by (intros H; vm_compute in H; discriminate).
  assert (H2 : 47%N ∉ lit "abc").
  { apply (bool_decide_unpack _). by vm_compute. }
  assert (H3 : 35%N ∉ lit "abc").
  { apply (bool_decide_unpack _). by vm_compute. }
  assert (H4 : parseURL (lit "/c/" ++ lit "abc") = None) by reflexivity.
  split; [done|].
  exact (qwen_normalized_is_fixed parseURL _ H1 H2 H3 (or_introl H4)).
Defined.

(** *** The records and the document *)

Lemma sorted_by_positions (l : list Message.t) :
  StronglySorted precedes (positions l) ->
  StronglySorted (precedesBy Message.element) l.
Proof.
  induction l as [|m l IH]; [constructor|].
  unfold positions. rewrite fmap_cons.
  intros [Hs Hall]%StronglySorted_inv. constructor; [by apply IH|].
  rewrite Forall_forall in Hall. apply Forall_forall. intros y Hy.
  apply Hall, list_elem_of_fmap. by exists y.
Qed.

(** Sorting what is already in order changes nothing. *)
Lemma sort_of_sorted {A} (cmp : A -> A -> Z) (key : A -> path) (l : list A) :
  (forall x y, before (key x) (key y) = true -> (cmp x y <=? 0)%Z = true) ->
  StronglySorted (precedesBy key) l -> JS.sort cmp l = l.
Proof.
  intros Hcmp. induction 1 as [|x l Hs IH Hall]; [done|].
  change (JS.sort cmp (x :: l)) with (JS.insertSorted cmp x (JS.sort cmp l)).
  rewrite IH. destruct l as [|y l]; [done|]. simpl.
  rewrite Hcmp; [done|]. apply Forall_inv in Hall. exact Hall.
Qed.

Lemma chatgpt_step_positions w newMessages el index :
  positions (ChatGPT.step w newMessages el index) = positions newMessages
  \/ positions (ChatGPT.step w newMessages el index) = positions newMessages ++ [el].
Proof.
  unfold ChatGPT.step.
  destruct (nodeAt (document w) el ≫= _) as [[|c role]|]; [by left| |by left].
  destruct (trim (collapseWhiteSpace _)); [by left|].
  right. unfold positions. by rewrite fmap_app.
Qed.

Lemma chatgpt_scan_positions w l : forall i st,
  exists extra,
    positions (forEach (ChatGPT.step w) l i st) = positions st ++ extra
    /\ extra `sublist_of` l.
Proof.
  induction l as [|x l IH]; intros i st; simpl.
  { exists []. by rewrite app_nil_r. }
  destruct (IH (S i) (ChatGPT.step w st x i)) as (extra & -> & Hsub).
  destruct (chatgpt_step_positions w st x i) as [-> | ->].
  - exists extra. split; [done|]. by apply sublist_cons.
  - exists (x :: extra). rewrite <- app_assoc. split; [done|].
    by apply sublist_skip.
Qed.

Lemma chatgpt_step_source w (l : list path) newMessages el index :
  el ∈ l ->
  Forall (fun m => Message.element m ∈ l
                   /\ nodeAt (document w) (Message.element m)
                      ≫= (fun n => getAttribute n (lit "data-message-author-role"))
                      = Some (Message.role m)) newMessages ->
  Forall (fun m => Message.element m ∈ l
                   /\ nodeAt (document w) (Message.element m)
                      ≫= (fun n => getAttribute n (lit "data-message-author-role"))
                      = Some (Message.role m))
         (ChatGPT.step w newMessages el index).
Proof.
  intros Hel H. unfold ChatGPT.step.
  destruct (nodeAt (document w) el ≫= _) as [[|c role]|] eqn:Hrole; try done.
  destruct (trim (collapseWhiteSpace _)); [done|].
  apply Forall_app; split; [done|]. by apply Forall_singleton.
Qed.

(** X10: the ChatGPT strategy returns its records in document order, from
    distinct elements; every record comes from an element strictly inside
    the first [main] element, the container that [getContainer] returns,
    which carries the attribute [data-message-author-role], and the role of
    the record is the value of that attribute. *)
Theorem chatgpt_records_follow_document (w : window) :
  StronglySorted precedes (positions (ChatGPT.detectMessages w))
  /\ NoDup (positions (ChatGPT.detectMessages w))
  /\ forall m, m ∈ ChatGPT.detectMessages w ->
       exists container j r n,
         ChatGPT.getContainer w = Some container
         /\ Message.element m = container ++ j :: r
         /\ nodeAt (document w) (Message.element m) = Some n
         /\ getAttribute n (lit "data-message-author-role") = Some (Message.role m).
Proof.
  assert (Hsorted : StronglySorted precedes (positions (ChatGPT.detectMessages w))).
  { unfold ChatGPT.detectMessages.
    destruct (documentQuerySelector _ _) as [container|]; [|constructor].
    destruct (chatgpt_scan_positions w
                (querySelectorAll (document w) container ChatGPT.selRole) 0 [])
      as (extra & -> & Hsub).
    eapply StronglySorted_sublist; [exact Hsub|]. apply querySelectorAll_sorted. }
  split; [done|]. split; [by apply precedes_sorted_NoDup|].
  unfold ChatGPT.detectMessages, ChatGPT.getContainer.
  destruct (documentQuerySelector _ _) as [container|]; [|by intros m ?%elem_of_nil].
  intros m Hm.
  assert (H : Forall (fun m =>
                Message.element m
                ∈ querySelectorAll (document w) container ChatGPT.selRole
                /\ nodeAt (document w) (Message.element m)
                   ≫= (fun n => getAttribute n (lit "data-message-author-role"))
                   = Some (Message.role m))
              (forEach (ChatGPT.step w)
                 (querySelectorAll (document w) container ChatGPT.selRole) 0 [])).
  { apply forEach_invariant; [|constructor].
    intros. by apply chatgpt_step_source. }
  rewrite Forall_forall in H. destruct (H m Hm) as [Hin Hrole].
  apply querySelectorAll_inside in Hin as [(j & r & Hpos) _].
  destruct (nodeAt (document w) (Message.element m)) as [n|]; [|done].
  exists container, j, r, n. done.
Qed.

Lemma chatgpt_records_follow_document_witness :
  let w := Sample.windowOf Sample.chatgptTool in
  let m := record (lit "chatgpt") (lit "tool") 1 (lit "42") [1; 0; 1] 1 None in
  m ∈ ChatGPT.detectMessages w
  /\ exists container j r n,
       ChatGPT.getContainer w = Some container
       /\ Message.element m = container ++ j :: r
       /\ nodeAt (document w) (Message.element m) = Some n
       /\ getAttribute n (lit "data-message-author-role") = Some (Message.role m).
Proof.
  assert (Hm : record (lit "chatgpt") (lit "tool") 1 (lit "42") [1; 0; 1] 1 None
               ∈ ChatGPT.detectMessages (Sample.windowOf Sample.chatgptTool)).
  { vm_compute. right. left. }
  split; [exact Hm|].
  exact (proj2 (proj2 (chatgpt_records_follow_document _)) _ Hm).
Defined.

(** The message elements of the DeepSeek strategy are in document order,
    whichever of its queries found them. *)
Lemma deepseek_findMessageElements_sorted root container :
  StronglySorted precedes (DeepSeek.findMessageElements root container).
Proof.
  unfold DeepSeek.findMessageElements.
  repeat match goal with
         | |- context [if ?b then _ else _] => destruct b
         end;
    first [apply querySelectorAll_sorted | apply documentQuerySelectorAll_sorted].
Qed.

Lemma deepseek_byPosition_before a b :
  before a b = true -> (DeepSeek.byPosition a b <=? 0)%Z = true.
Proof.
  intros H. unfold DeepSeek.byPosition. by rewrite following_bit, H.
Qed.

(** X11: the sort of the DeepSeek strategy changes nothing: the message
    elements that its queries find are already in document order, so the
    scan goes through them as found. *)
Theorem deepseek_sort_changes_nothing (w : window) :
  (forall container,
      JS.sort DeepSeek.byPosition
        (DeepSeek.findMessageElements (document w) container)
      = DeepSeek.findMessageElements (document w) container)
  /\ DeepSeek.detectMessages w
     = match DeepSeek.resolveContainer (document w) with
       | None => []
       | Some container =>
           DeepSeek.newMessages
             (forEach (DeepSeek.step w)
                (DeepSeek.findMessageElements (document w) container) 0
                (DeepSeek.Scan [] 0))
       end.
Proof.
  assert (H : forall container,
             JS.sort DeepSeek.byPosition
               (DeepSeek.findMessageElements (document w) container)
             = DeepSeek.findMessageElements (document w) container).
  { intros container.
    apply (sort_of_sorted DeepSeek.byPosition (fun p => p)).
    - apply deepseek_byPosition_before.
    - exact (deepseek_findMessageElements_sorted (document w) container). }
  split; [done|]. unfold DeepSeek.detectMessages.
  destruct (DeepSeek.resolveContainer _) as [container|]; [|done].
  cbv zeta. by rewrite H.
Qed.

Lemma qwen_step_counted w st msgEl idx :
  counted (Qwen.messages st) (Qwen.order st) ->
  counted (Qwen.messages (Qwen.step w st msgEl idx))
          (Qwen.order (Qwen.step w st msgEl idx)).
Proof.
  intros H. unfold Qwen.step.
  destruct (nodeAt _ _) as [n|]; [|done].
  destruct (_ || _); [done|]. destruct (Qwen.isNonMessageId _); [done|].
  destruct (negb _ && _); [done|].
  destruct (if Qwen.hasUserClass n then _ else _); [done|].
  by apply counted_push.
Qed.

Lemma imap_setOrder_counted l k :
  Message.order <$> l = Some <$> seq k (length l) ->
  imap (fun i => Qwen.setOrder (k + i)) l = l.
Proof.
  revert k. induction l as [|m l IH]; intros k; [done|].
  rewrite imap_cons. simpl. intros [= Hm Hl]. f_equal.
  - rewrite Nat.add_0_r. destruct m. simpl in Hm. unfold Qwen.setOrder. simpl.
    by rewrite Hm.
  - rewrite <- (IH (S k) Hl) at 2. apply imap_ext. intros i x _. simpl.
    f_equal. lia.
Qed.

(** What the Qwen loop has collected is in document order and numbered
    from 0. *)
Lemma qwen_sort_noop (w : window) :
  JS.sort Qwen.byPosition
    (Qwen.messages
       (forEach (Qwen.step w)
          (documentQuerySelectorAll (document w) Qwen.selAllMessages) 0
          (Qwen.Scan [] 0 ∅)))
  = Qwen.messages
      (forEach (Qwen.step w)
         (documentQuerySelectorAll (document w) Qwen.selAllMessages) 0
         (Qwen.Scan [] 0 ∅)).
Proof.
  apply (sort_of_sorted Qwen.byPosition Message.element).
  - intros x y Hxy. by rewrite qwen_byPosition_before.
  - apply sorted_by_positions.
    destruct (qwen_scan_positions w
                (documentQuerySelectorAll (document w) Qwen.selAllMessages) 0
                (Qwen.Scan [] 0 ∅)) as (extra & -> & Hsub).
    eapply StronglySorted_sublist; [exact Hsub|].
    apply documentQuerySelectorAll_sorted.
Qed.

Lemma qwen_renumber_noop (w : window) :
  imap Qwen.setOrder
    (Qwen.messages
       (forEach (Qwen.step w)
          (documentQuerySelectorAll (document w) Qwen.selAllMessages) 0
          (Qwen.Scan [] 0 ∅)))
  = Qwen.messages
      (forEach (Qwen.step w)
         (documentQuerySelectorAll (document w) Qwen.selAllMessages) 0
         (Qwen.Scan [] 0 ∅)).
Proof.
  apply (imap_setOrder_counted _ 0).
  refine (proj1 (forEach_invariant _
            (fun st => counted (Qwen.messages st) (Qwen.order st)) _ _ _ _ _));
    [|done].
  intros. by apply qwen_step_counted.
Qed.

(** X12: the final sort and renumbering of the Qwen strategy change nothing:
    the scan goes through the candidates in document order and numbers its
    records as it emits them, so what the loop has collected is what
    [detectMessages] returns. *)
Theorem qwen_final_sort_changes_nothing (w : window) :
  let collected :=
    Qwen.messages
      (forEach (Qwen.step w)
         (documentQuerySelectorAll (document w) Qwen.selAllMessages) 0
         (Qwen.Scan [] 0 ∅)) in
  JS.sort Qwen.byPosition collected = collected
  /\ imap Qwen.setOrder collected = collected
  /\ Qwen.detectMessages w = collected.
Proof.
  intros collected.
  pose proof (qwen_sort_noop w) as Hsort.
  pose proof (qwen_renumber_noop w) as Hnumber.
  fold collected in Hsort, Hnumber.
  split; [done|]. split; [done|].
  unfold Qwen.detectMessages, Qwen.sortAndReorder. cbv zeta.
  fold collected. by rewrite Hsort, Hnumber.
Qed.

(** *** The identifiers of a batch *)

Lemma forEach_indexed {A St} (f : St -> A -> nat -> St) (P : nat -> St -> Prop)
  (l : list A) :
  (forall s x i, P i s -> P (S i) (f s x i)) ->
  forall i s, P i s -> P (i + length l) (forEach f l i s).
Proof.
  intros Hstep. induction l as [|x l IH]; intros i s Hs; simpl.
  - by rewrite Nat.add_0_r.
  - replace (i + S (length l)) with (S i + length l) by lia.
    apply IH. by apply Hstep.
Qed.

(** The decimal digits of an index: none is a hyphen, and they tell the
    index. *)
Lemma digits_no_hyphen d : 45%N ∉ lit (NilEmpty.string_of_uint d).
Proof.
  unfold lit.
  induction d as [|d IH|d IH|d IH|d IH|d IH|d IH|d IH|d IH|d IH|d IH]; simpl;
    [by intros ?%elem_of_nil|..];
    (intros [Hc|Hin]%elem_of_cons; [by vm_compute in Hc | by apply IH]).
Qed.

Lemma to_uint_nonnil n : Nat.to_uint n <> Decimal.Nil.
Proof.
  rewrite <- (Unsigned.of_to n) at 1. rewrite Unsigned.to_of.
  apply unorm_nonnil.
Qed.

Lemma ofNat_no_hyphen n : 45%N ∉ ofNat n.
Proof.
  unfold ofNat, NilZero.string_of_uint.
  pose proof (digits_no_hyphen (Nat.to_uint n)) as H.
  pose proof (to_uint_nonnil n) as Hn.
  by destruct (Nat.to_uint n).
Qed.

Lemma lit_inj s t : lit s = lit t -> s = t.
Proof.
  unfold lit. intros H.
  rewrite <- (string_of_list_ascii_of_string s), <- (string_of_list_ascii_of_string t).
  f_equal. revert H.
  generalize (list_ascii_of_string s) (list_ascii_of_string t).
  induction l as [|a l IH]; intros [|b l']; simpl; try done.
  intros [= Hab Hl]. f_equal; [|by apply IH].
  by rewrite <- (ascii_N_embedding a), <- (ascii_N_embedding b), Hab.
Qed.

Lemma ofNat_inj n m : ofNat n = ofNat m -> n = m.
Proof.
  unfold ofNat. intros H%lit_inj.
  apply Unsigned.to_uint_inj.
  apply (f_equal NilZero.uint_of_string) in H.
  rewrite !NilZero.usu in H by apply to_uint_nonnil. by injection H.
Qed.

(** Two texts cut at their first occurrence of a code unit. *)
Lemma split_at_first (c : N) (a b x y : jsstring) :
  c ∉ a -> c ∉ b -> a ++ c :: x = b ++ c :: y -> a = b /\ x = y.
Proof.
  revert b. induction a as [|u a IH]; intros [|v b] Ha Hb H; simpl in H.
  - by injection H.
  - injection H as -> _. exfalso. apply Hb. left.
  - injection H as <- _. exfalso. apply Ha. left.
  - injection H as -> H.
    apply not_elem_of_cons in Ha as [_ Ha]. apply not_elem_of_cons in Hb as [_ Hb].
    by destruct (IH b Ha Hb H) as [-> ->].
Qed.

(** An identifier tells its role, its index and its fingerprint when the
    role has no hyphen. *)
Lemma messageId_inj tag r1 r2 i j h1 h2 :
  45%N ∉ r1 -> 45%N ∉ r2 ->
  messageId tag r1 i h1 = messageId tag r2 j h2 ->
  r1 = r2 /\ i = j /\ h1 = h2.
Proof.
  intros H1 H2. unfold messageId. intros H.
  apply app_inv_head, app_inv_head in H.
  change (lit "-") with [45%N] in H. simpl in H. injection H as H.
  apply split_at_first in H as [-> H]; [|done|done].
  apply split_at_first in H as [Hi ->]; [|apply ofNat_no_hyphen..].
  by apply ofNat_inj in Hi as ->.
Qed.

Lemma role_no_hyphen (role : jsstring) :
  role = lit "user" \/ role = lit "assistant" -> 45%N ∉ role.
Proof.
  intros [-> | ->]; apply (bool_decide_unpack _); by vm_compute.
Qed.

Lemma keyed_weaken tag (Q Q' : jsstring * nat -> Prop) msgs :
  (forall k, Q k -> Q' k) -> keyed tag Q msgs -> keyed tag Q' msgs.
Proof.
  intros HQ (keys & Hlab & Hnd & Hall). exists keys.
  split; [done|]. split; [done|]. eapply Forall_impl; [exact Hall|done].
Qed.

Lemma keyed_push tag (Q Q' : jsstring * nat -> Prop) msgs role index hash
  content full el ts ord :
  keyed tag Q msgs ->
  ~ Q (role, index) -> (forall k, Q k -> Q' k) -> Q' (role, index) ->
  keyed tag Q'
    (msgs ++ [Message.Make (messageId tag role index hash) role content full
                el ts ord]).
Proof.
  intros (keys & Hlab & Hnd & Hall) Hfresh HQ Hnew.
  exists (keys ++ [(role, index)]). split; [|split].
  - apply Forall2_app; [done|]. constructor; [|constructor].
    split; [done|]. by exists hash.
  - apply NoDup_app. split; [done|]. split; [|apply NoDup_singleton].
    intros k Hk ->%list_elem_of_singleton.
    rewrite Forall_forall in Hall. by apply Hfresh, Hall.
  - apply Forall_app. split; [|by apply Forall_singleton].
    eapply Forall_impl; [exact Hall|done].
Qed.

Lemma keyed_NoDup tag Q msgs :
  keyed tag Q msgs ->
  Forall (fun m => 45%N ∉ Message.role m) msgs ->
  NoDup (Message.id <$> msgs).
Proof.
  intros (keys & Hlab & Hnd & _). revert Hnd.
  induction Hlab as [|m k msgs keys [Hrole [hash Hid]] Hlab IH];
    intros Hnd Hroles; [constructor|].
  apply NoDup_cons in Hnd as [Hk Hnd]. apply Forall_cons in Hroles as [Hm Hroles].
  rewrite fmap_cons. constructor; [|by apply IH].
  intros (m' & Heq & Hm')%list_elem_of_fmap.
  apply list_elem_of_lookup in Hm' as [n Hn].
  destruct (Forall2_lookup_l _ _ _ _ _ Hlab Hn) as (k' & Hk' & Hrole' & hash' & Hid').
  rewrite Forall_forall in Hroles.
  assert (Hm'' : 45%N ∉ Message.role m').
  { apply Hroles. by eapply list_elem_of_lookup_2. }
  rewrite Hid, Hid' in Heq. rewrite Hrole in Hm. rewrite Hrole' in Hm''.
  apply messageId_inj in Heq as (H1 & H2 & _); [|done|done].
  apply Hk. apply list_elem_of_lookup_2 in Hk'.
  destruct k, k'. simpl in *. by subst.
Qed.

Lemma chatgpt_step_keyed w msgs el i :
  keyed (lit "chatgpt") (fun k => k.2 < i) msgs ->
  keyed (lit "chatgpt") (fun k => k.2 < S i) (ChatGPT.step w msgs el i).
Proof.
  intros H.
  assert (Hsame : keyed (lit "chatgpt") (fun k => k.2 < S i) msgs).
  { eapply keyed_weaken; [|done]. simpl. lia. }
  unfold ChatGPT.step.
  destruct (nodeAt (document w) el ≫= _) as [[|c role]|]; try done.
  destruct (trim (collapseWhiteSpace _)); [done|].
  eapply keyed_push; [exact H| | |]; simpl; lia.
Qed.

Lemma deepseek_step_keyed w st msgEl i :
  keyed (lit "deepseek") (fun k => k.2 < i) (DeepSeek.newMessages st) ->
  keyed (lit "deepseek") (fun k => k.2 < S i)
        (DeepSeek.newMessages (DeepSeek.step w st msgEl i)).
Proof.
  intros H.
  assert (Hsame : keyed (lit "deepseek") (fun k => k.2 < S i) (DeepSeek.newMessages st)).
  { eapply keyed_weaken; [|done]. simpl. lia. }
  unfold DeepSeek.step.
  destruct (DeepSeek.classify _ _) as [[role|] content]; [|done].
  destruct content as [|c content]; [done|].
  destruct (trim _); [done|].
  eapply keyed_push; [exact H| | |]; simpl; lia.
Qed.

Lemma claude_step_keyed w userElements st userEl i :
  keyed (lit "claude") (fun k => k.2 < i) (Claude.newMessages st) ->
  keyed (lit "claude") (fun k => k.2 < S i)
        (Claude.newMessages (Claude.step w userElements st userEl i)).
Proof.
  intros H. unfold Claude.step.
  assert (Hu : keyed (lit "claude")
                 (fun k => k.2 < i \/ k = (lit "user", i))
                 (Claude.newMessages (Claude.userStep w st userEl i))).
  { unfold Claude.userStep. destruct (1 <=? length _).
    - unfold Claude.push. simpl.
      eapply keyed_push; [exact H| | |]; simpl; [lia|tauto|tauto].
    - eapply keyed_weaken; [|done]. simpl. tauto. }
  assert (Hsame : keyed (lit "claude") (fun k => k.2 < S i)
                    (Claude.newMessages (Claude.userStep w st userEl i))).
  { eapply keyed_weaken; [|done]. simpl. intros k [?| ->]; simpl; lia. }
  unfold Claude.assistantStep.
  destruct (0 <? length _); [|done].
  destruct (Claude.isValidTurn _); [|done].
  unfold Claude.push. simpl.
  eapply keyed_push; [exact Hu| | |]; simpl.
  - intros [?|Heq]; [lia|]. injection Heq as Heq. by vm_compute in Heq.
  - intros k [?| ->]; simpl; lia.
  - lia.
Qed.

Lemma qwen_step_keyed w st msgEl idx :
  keyed (lit "qwen") (fun k => k.2 < Qwen.order st) (Qwen.messages st) ->
  keyed (lit "qwen") (fun k => k.2 < Qwen.order (Qwen.step w st msgEl idx))
        (Qwen.messages (Qwen.step w st msgEl idx)).
Proof.
  intros H. unfold Qwen.step.
  destruct (nodeAt _ _) as [n|]; [|done].
  destruct (_ || _); [done|]. destruct (Qwen.isNonMessageId _); [done|].
  destruct (negb _ && _); [done|].
  destruct (if Qwen.hasUserClass n then _ else _); [done|].
  simpl. eapply keyed_push; [exact H| | |]; simpl; lia.
Qed.

Lemma keyed_nil tag Q : keyed tag Q [].
Proof. exists []. split; [constructor|]. split; [constructor|constructor]. Qed.

Lemma ids_imap_setOrder l :
  Message.id <$> imap Qwen.setOrder l = Message.id <$> l.
Proof.
  rewrite fmap_imap.
  rewrite (imap_ext _ (fun _ => Message.id)); [|done].
  apply imap_const.
Qed.

(** X13: within one scan the identifiers are pairwise distinct. For the
    Qwen, Claude and DeepSeek strategies this holds on every document; for
    the ChatGPT strategy it holds when no role has a hyphen, and on a page
    with the roles [a-1] and [a] two records get the same identifier. *)
Theorem identifiers_distinct (p : platform) (w : window) :
  p ∈ HopperPlatform ->
  (p = chatgpt -> forall m, m ∈ detectMessages p w -> 45%N ∉ Message.role m) ->
  NoDup (Message.id <$> detectMessages p w)
  /\ ~ NoDup (Message.id <$> ChatGPT.detectMessages (Sample.windowOf chatgptHyphen)).
Proof.
  intros Hp Hchatgpt.
  split; [|vm_compute; intros [Hnotin _]%NoDup_cons; apply Hnotin; left].
  assert (Hroles : Forall (fun m => 45%N ∉ Message.role m) (detectMessages p w)).
  { apply Forall_forall. intros m Hm.
    pose proof (proj2 (records_well_formed p w m Hp Hm)) as Hrole.
    revert Hp Hchatgpt Hrole Hm. unfold HopperPlatform.
    rewrite !elem_of_cons, elem_of_nil.
    intros [-> | [-> | [-> | [-> | []]]]] Hchatgpt Hrole Hm;
      [by apply Hchatgpt|..];
      apply role_no_hyphen, Hrole; intros H; apply (f_equal name) in H;
      by vm_compute in H. }
  revert Hp Hroles. unfold HopperPlatform. rewrite !elem_of_cons, elem_of_nil.
  intros [-> | [-> | [-> | [-> | []]]]]; simpl; intros Hroles.
  - unfold ChatGPT.detectMessages in *.
    destruct (documentQuerySelector _ _) as [container|]; [|constructor].
    eapply keyed_NoDup; [|exact Hroles].
    apply (forEach_indexed (ChatGPT.step w)
             (fun i msgs => keyed (lit "chatgpt") (fun k => k.2 < i) msgs));
      [|apply keyed_nil].
    intros. by apply chatgpt_step_keyed.
  - unfold Qwen.detectMessages, Qwen.sortAndReorder in *. cbv zeta in *.
    rewrite ids_imap_setOrder. rewrite sort_Permutation.
    eapply keyed_NoDup.
    + apply (forEach_invariant (Qwen.step w)
               (fun st => keyed (lit "qwen") (fun k => k.2 < Qwen.order st)
                            (Qwen.messages st))); [|apply keyed_nil].
      intros. by apply qwen_step_keyed.
    + apply Forall_forall. intros m Hm. rewrite Forall_forall in Hroles.
      assert (Hin : m ∈ JS.sort Qwen.byPosition
                      (Qwen.messages
                         (forEach (Qwen.step w)
                            (documentQuerySelectorAll (document w)
                               Qwen.selAllMessages) 0 (Qwen.Scan [] 0 ∅))))
        by by apply elem_of_sort.
      apply list_elem_of_lookup in Hin as [n Hn].
      specialize (Hroles (Qwen.setOrder n m)). simpl in Hroles. apply Hroles.
      apply list_elem_of_lookup. exists n. by rewrite list_lookup_imap, Hn.
  - unfold Claude.detectMessages in *.
    destruct (Claude.resolveContainer _) as [container|]; [|constructor].
    eapply keyed_NoDup; [|exact Hroles].
    apply (forEach_indexed (Claude.step w _)
             (fun i st => keyed (lit "claude") (fun k => k.2 < i)
                            (Claude.newMessages st)));
      [|apply keyed_nil].
    intros. by apply claude_step_keyed.
  - unfold DeepSeek.detectMessages in *.
    destruct (DeepSeek.resolveContainer _) as [container|]; [|constructor].
    eapply keyed_NoDup; [|exact Hroles].
    apply (forEach_indexed (DeepSeek.step w)
             (fun i st => keyed (lit "deepseek") (fun k => k.2 < i)
                            (DeepSeek.newMessages st)));
      [|apply keyed_nil].
    intros. by apply deepseek_step_keyed.
Qed.

Lemma identifiers_distinct_witness :
  NoDup (Message.id <$> detectMessages chatgpt (Sample.windowOf Sample.chatgptTool)).
Proof.
  refine (proj1 (identifiers_distinct chatgpt (Sample.windowOf Sample.chatgptTool) _ _)).
  - unfold HopperPlatform. left.
  - intros _ m Hm. vm_compute in Hm.
    apply elem_of_cons in Hm as [-> | Hm];
      [apply (bool_decide_unpack _); by vm_compute|].
    apply elem_of_cons in Hm as [-> | Hm];
      [apply (bool_decide_unpack _); by vm_compute|].
    by apply elem_of_nil in Hm.
Defined.

(** *** The fingerprint and the shape of a record *)

Lemma stripWhiteSpace_app x y :
  stripWhiteSpace (x ++ y) = stripWhiteSpace x ++ stripWhiteSpace y.
Proof. unfold stripWhiteSpace. apply filter_app. Qed.

(** X14: the fingerprint that goes into an identifier has at most 20 code
    units, none of them white space; it is the start of the content without
    its white space, and it is the same for two contents that agree on
    their first 50 code units: an identifier no longer changes once the
    first 50 code units of a message are fixed. *)
Theorem fingerprint_shape (a b : jsstring) :
  take 50 a = take 50 b ->
  contentHash a = contentHash b
  /\ length (contentHash a) <= 20
  /\ Forall (fun c => isWhiteSpace c = false) (contentHash a)
  /\ exists rest, stripWhiteSpace a = contentHash a ++ rest.
Proof.
  intros Hab. unfold contentHash, substring0.
  split; [by rewrite Hab|]. split; [rewrite length_take; lia|]. split.
  - apply Forall_forall. intros c Hc.
    apply elem_of_take in Hc as (i & Hc & _).
    apply list_elem_of_lookup_2 in Hc. unfold stripWhiteSpace in Hc.
    apply list_elem_of_filter in Hc as [Hc _]. by destruct (isWhiteSpace c).
  - exists (drop 20 (stripWhiteSpace (take 50 a)) ++ stripWhiteSpace (drop 50 a)).
    by rewrite app_assoc, take_drop, <- stripWhiteSpace_app, take_drop.
Qed.

Lemma fingerprint_shape_witness :
  take 50 (replicate 50 97%N ++ lit "x") = take 50 (replicate 50 97%N ++ lit "y")
  /\ contentHash (replicate 50 97%N ++ lit "x")
     = contentHash (replicate 50 97%N ++ lit "y").
Proof.
  assert (H : take 50 (replicate 50 97%N ++ lit "x")
              = take 50 (replicate 50 97%N ++ lit "y")) by reflexivity.
  split; [exact H|].
  exact (proj1 (fingerprint_shape _ _ H)).
Defined.

Lemma record_derived tag role index text el ts ord :
  let m := record tag role index text el ts ord in
  Message.content m = take 200 (Message.fullContent m)
  /\ derivedId tag m.
Proof. split; [done|]. by exists index. Qed.

(** X15: in every record that a strategy returns, the preview [content] is
    the first 200 code units of [fullContent], hence the full content itself
    when that has at most 200 code units, and the identifier is made of the
    strategy's tag, the record's role, an index and the fingerprint of the
    full content; the full content is not empty. *)
Theorem record_shape (p : platform) (w : window) (m : Message.t) :
  p ∈ HopperPlatform ->
  m ∈ detectMessages p w ->
  Message.content m = take 200 (Message.fullContent m)
  /\ length (Message.content m) <= 200
  /\ (length (Message.fullContent m) <= 200 ->
      Message.content m = Message.fullContent m)
  /\ derivedId (tagOfPlatform p) m
  /\ Message.fullContent m <> [].
Proof.
  intros Hp Hm.
  assert (H : Message.content m = take 200 (Message.fullContent m)
              /\ derivedId (tagOfPlatform p) m).
  { revert Hp Hm. unfold HopperPlatform. rewrite !elem_of_cons, elem_of_nil.
    intros [-> | [-> | [-> | [-> | []]]]] Hm; simpl in Hm.
    - apply chatgpt_records in Hm as []. apply record_derived.
    - apply qwen_records in Hm as []. apply record_derived.
    - apply claude_records in Hm as [|]; apply record_derived.
    - apply deepseek_records in Hm as []. apply record_derived. }
  destruct H as [Hc Hid]. split; [done|]. rewrite Hc.
  split; [rewrite length_take; lia|]. split; [by apply take_ge|].
  split; [done|]. exact (proj1 (records_well_formed p w m Hp Hm)).
Qed.

Lemma record_shape_witness :
  exists m,
    m ∈ detectMessages deepseek (Sample.windowOf Sample.deepseekChat)
    /\ Message.content m = take 200 (Message.fullContent m)
    /\ derivedId (lit "deepseek") m.
Proof.
  assert (Hp : deepseek ∈ HopperPlatform).
  { unfold HopperPlatform. do 3 right. left. }
  assert (Hm : record (lit "deepseek") (lit "user") 0 (lit "Q 1") [1; 0; 0] 0 (Some 0)
               ∈ detectMessages deepseek (Sample.windowOf Sample.deepseekChat)).
  { vm_compute. left. }
  eexists. split; [exact Hm|].
  destruct (record_shape deepseek _ _ Hp Hm) as (H1 & _ & _ & H2 & _).
  split; [exact H1 | exact H2].
Defined.

(** *** The deduplication of the blocks of a Claude turn *)

Lemma trim_trim s : trim (trim s) = trim s.
Proof. apply clean_trim_fixed; [apply startsClean_trim | apply endsClean_trim]. Qed.

Lemma findIndex_Some {A} (f : A -> bool) (l : list A) i :
  findIndex f l = Some i -> exists x, l !! i = Some x /\ f x = true.
Proof.
  revert i. induction l as [|y l IH]; intros i; simpl; [done|].
  destruct (f y) eqn:Hy.
  - intros [= <-]. by exists y.
  - destruct (findIndex f l) as [j|]; [|done]. simpl. intros [= <-].
    by apply IH.
Qed.

(** Deleting a member of a set kept as a list of distinct members. *)
Lemma setDelete_lookup (l : list jsstring) i x :
  NoDup l -> l !! i = Some x -> Claude.setDelete x l = Claude.splice1 i l.
Proof.
  unfold Claude.setDelete, Claude.splice1.
  revert i. induction l as [|y l IH]; intros i Hnd Hi; [done|].
  apply NoDup_cons in Hnd as [Hy Hnd]. destruct i as [|i]; simpl in Hi.
  - injection Hi as ->. simpl. unfold JS.eqb at 1.
    rewrite bool_decide_eq_true_2 by done. simpl. rewrite drop_0.
    clear IH Hnd. induction l as [|z l IH]; [done|].
    apply not_elem_of_cons in Hy as [Hne Hy]. simpl. unfold JS.eqb at 1.
    rewrite bool_decide_eq_false_2 by done. simpl. f_equal. by apply IH.
  - simpl. unfold JS.eqb at 1. rewrite bool_decide_eq_false_2.
    + simpl. f_equal. by apply IH.
    + intros ->. apply Hy. by eapply list_elem_of_lookup_2.
Qed.

Lemma Forall_of_sublist {A} (P : A -> Prop) (l1 l2 : list A) :
  l1 `sublist_of` l2 -> Forall P l2 -> Forall P l1.
Proof.
  intros Hsub Hall. rewrite Forall_forall in Hall. apply Forall_forall.
  intros x Hx. apply Hall. by eapply elem_of_sublist.
Qed.

Lemma splice1_sublist {A} i (l : list A) : Claude.splice1 i l `sublist_of` l.
Proof.
  unfold Claude.splice1.
  transitivity (take i l ++ drop i l); [|by rewrite take_drop].
  apply sublist_app; [done|].
  replace (drop (S i) l) with (drop 1 (drop i l))
    by (rewrite drop_drop; f_equal; lia).
  apply sublist_drop.
Qed.

Lemma splice1_fmap {A B} (f : A -> B) i (l : list A) :
  f <$> Claude.splice1 i l = Claude.splice1 i (f <$> l).
Proof. unfold Claude.splice1. by rewrite fmap_app, fmap_take, fmap_drop. Qed.

Lemma splice1_length {A} i (l : list A) : length (Claude.splice1 i l) <= length l.
Proof. apply sublist_length, splice1_sublist. Qed.

(** The inner loop: it answers [true] only on a set that is not empty and
    then changes nothing; otherwise it keeps the state or takes one text
    out of it. *)
Lemma compareWithSeen_cases cur toVisit st :
  match Claude.compareWithSeen cur toVisit st with
  | (true, st') => st' = st /\ toVisit <> []
  | (false, st') =>
      st' = st
      \/ exists seen indexToRemove,
           seen ∈ toVisit
           /\ findIndex (fun t => JS.eqb (toLowerCase (trim t)) seen)
                        (Claude.uniqueTexts st) = Some indexToRemove
           /\ st' = Claude.Dedup
                      (Claude.splice1 indexToRemove (Claude.uniqueTexts st))
                      (Claude.setDelete seen (Claude.seenContent st))
  end.
Proof.
  induction toVisit as [|seen rest IH]; simpl; [by left|].
  destruct (_ && _); [done|]. destruct (_ && _).
  - destruct (findIndex _ _) as [i|] eqn:Hi; [|by left].
    right. exists seen, i. split; [left|done].
  - destruct (Claude.compareWithSeen cur rest st) as [[|] st'].
    + by destruct IH.
    + destruct IH as [-> | (s & i & Hs & Hi & ->)]; [by left|].
      right. exists s, i. split; [by right|done].
Qed.

Lemma dedupStep_kept (toUse : list jsstring) st blockText :
  blockText ∈ toUse ->
  Forall (fun t => t <> [] /\ trim t = t /\ exists b, b ∈ toUse /\ t = trim b)
         (Claude.uniqueTexts st) ->
  Forall (fun t => t <> [] /\ trim t = t /\ exists b, b ∈ toUse /\ t = trim b)
         (Claude.uniqueTexts (Claude.dedupStep st blockText)).
Proof.
  intros Hin H. unfold Claude.dedupStep.
  destruct (trim blockText) as [|c current] eqn:E; [done|].
  case_bool_decide; [done|].
  pose proof (compareWithSeen_cases (toLowerCase (c :: current))
                (Claude.seenContent st) st) as Hcases.
  destruct (Claude.compareWithSeen _ _ st) as [[|] st'].
  { by destruct Hcases as [-> _]. }
  simpl. apply Forall_app. split.
  - destruct Hcases as [-> | (s & i & _ & _ & ->)]; [done|]. simpl.
    eapply Forall_of_sublist; [apply splice1_sublist|done].
  - apply Forall_singleton. split; [done|]. split.
    + rewrite <- E. apply trim_trim.
    + exists blockText. by rewrite E.
Qed.

Lemma dedupStep_length st blockText :
  length (Claude.uniqueTexts (Claude.dedupStep st blockText))
  <= S (length (Claude.uniqueTexts st)).
Proof.
  unfold Claude.dedupStep.
  destruct (trim blockText) as [|c current]; [lia|].
  case_bool_decide; [lia|].
  pose proof (compareWithSeen_cases (toLowerCase (c :: current))
                (Claude.seenContent st) st) as Hcases.
  destruct (Claude.compareWithSeen _ _ st) as [[|] st'].
  { destruct Hcases as [-> _]. lia. }
  simpl. rewrite length_app. simpl.
  destruct Hcases as [-> | (s & i & _ & _ & ->)]; [lia|]. simpl.
  pose proof (splice1_length i (Claude.uniqueTexts st)). lia.
Qed.

Lemma dedupStep_consistent st blockText :
  consistent st -> consistent (Claude.dedupStep st blockText).
Proof.
  intros Hst. unfold Claude.dedupStep.
  destruct (trim blockText) as [|c current] eqn:E; [done|].
  case_bool_decide as Hseen; [done|].
  pose proof (compareWithSeen_cases (toLowerCase (c :: current))
                (Claude.seenContent st) st) as Hcases.
  destruct (Claude.compareWithSeen _ _ st) as [[|] st'].
  { by destruct Hcases as [-> _]. }
  assert (Hst' : consistent st'
                 /\ forall x, x ∈ Claude.seenContent st' -> x ∈ Claude.seenContent st).
  { destruct Hcases as [-> | (s & i & Hs & Hi & ->)]; [done|].
    destruct Hst as (Hsame & Hnd & Htrim).
    apply findIndex_Some in Hi as (t & Ht & Heq).
    apply bool_decide_eq_true in Heq.
    assert (Hlook : Claude.seenContent st !! i = Some s).
    { rewrite Hsame, list_lookup_fmap, Ht. simpl.
      rewrite Forall_forall in Htrim.
      rewrite <- (Htrim t) by by eapply list_elem_of_lookup_2.
      by rewrite Heq. }
    rewrite (setDelete_lookup _ i s Hnd Hlook).
    split.
    - split; [|split]; simpl.
      + by rewrite Hsame, splice1_fmap.
      + eapply sublist_NoDup; [done|apply splice1_sublist].
      + eapply Forall_of_sublist; [apply splice1_sublist|done].
    - simpl. intros x Hx. eapply elem_of_sublist; [exact Hx|].
      apply splice1_sublist. }
  destruct Hst' as [(Hsame & Hnd & Htrim) Hsub].
  assert (Hfresh : toLowerCase (c :: current) ∉ Claude.seenContent st').
  { intros Hin. by apply Hseen, Hsub. }
  unfold Claude.setAdd. rewrite bool_decide_eq_false_2 by done.
  split; [|split]; simpl.
  - by rewrite fmap_app, Hsame.
  - apply NoDup_app. split; [done|]. split; [|apply NoDup_singleton].
    by intros x Hx ->%list_elem_of_singleton.
  - apply Forall_app. split; [done|]. apply Forall_singleton.
    rewrite <- E. apply trim_trim.
Qed.

(** The loop loses nothing that it has kept: once a text is kept the array
    is never empty again, and it is empty only after blocks without text. *)
Lemma dedupStep_nonempty st blockText :
  (Claude.uniqueTexts st = [] -> Claude.seenContent st = []) ->
  (Claude.uniqueTexts (Claude.dedupStep st blockText) = [] ->
   Claude.seenContent (Claude.dedupStep st blockText) = [])
  /\ (Claude.uniqueTexts (Claude.dedupStep st blockText) = [] ->
      Claude.uniqueTexts st = [] /\ trim blockText = []).
Proof.
  intros Hst. unfold Claude.dedupStep.
  destruct (trim blockText) as [|c current] eqn:E; [done|].
  case_bool_decide as Hseen.
  { split; [done|]. intros Hnil. rewrite (Hst Hnil) in Hseen.
    by apply elem_of_nil in Hseen. }
  pose proof (compareWithSeen_cases (toLowerCase (c :: current))
                (Claude.seenContent st) st) as Hcases.
  destruct (Claude.compareWithSeen _ _ st) as [[|] st'].
  - destruct Hcases as [-> Hne]. split; [done|].
    intros Hnil. by rewrite (Hst Hnil) in Hne.
  - simpl. split; intros Hnil; by apply app_nil in Hnil as [_ ?].
Qed.

Lemma dedup_fold_nonempty toUse : forall st,
  (Claude.uniqueTexts st = [] -> Claude.seenContent st = []) ->
  Claude.uniqueTexts (foldl Claude.dedupStep st toUse) = [] ->
  Claude.uniqueTexts st = [] /\ Forall (fun b => trim b = []) toUse.
Proof.
  induction toUse as [|b toUse IH]; intros st Hst; simpl; [done|].
  destruct (dedupStep_nonempty st b Hst) as [Hst' Hb].
  intros Hnil. destruct (IH _ Hst' Hnil) as [Hu Hall].
  destruct (Hb Hu) as [? ?]. split; [done|]. by constructor.
Qed.

Lemma dedup_fold_length toUse : forall st,
  length (Claude.uniqueTexts (foldl Claude.dedupStep st toUse))
  <= length (Claude.uniqueTexts st) + length toUse.
Proof.
  induction toUse as [|b toUse IH]; intros st; simpl; [lia|].
  specialize (IH (Claude.dedupStep st b)).
  pose proof (dedupStep_length st b). lia.
Qed.

(** The branch that is to keep at least one block adds nothing: the loop
    has already kept a text whenever a block has one. *)
Lemma dedupBlocks_loop toUse :
  Claude.dedupBlocks toUse
  = Claude.uniqueTexts (foldl Claude.dedupStep (Claude.Dedup [] []) toUse).
Proof.
  unfold Claude.dedupBlocks.
  destruct (length _ =? 0) eqn:Hlen; [|done].
  destruct (0 <? length toUse); [|done]. simpl.
  apply Nat.eqb_eq, nil_length_inv in Hlen.
  destruct (dedup_fold_nonempty toUse (Claude.Dedup [] []) (fun _ => eq_refl) Hlen)
    as [_ Hall].
  destruct (List.find _ toUse) as [firstBlock|] eqn:Hfind; [|done].
  apply find_some in Hfind as [Hin%list_elem_of_In Hne].
  rewrite Forall_forall in Hall. by rewrite (Hall _ Hin) in Hne.
Qed.

(** What the deduplication keeps is trimmed and not empty, and it keeps a
    text whenever a block has one. *)
Lemma dedupBlocks_kept toUse :
  (forall t, t ∈ Claude.dedupBlocks toUse -> t <> [] /\ trim t = t)
  /\ ((exists b, b ∈ toUse /\ trim b <> []) -> Claude.dedupBlocks toUse <> []).
Proof.
  rewrite dedupBlocks_loop. split.
  - intros t Ht.
    assert (H : Forall (fun t => t <> [] /\ trim t = t
                                 /\ exists b, b ∈ toUse /\ t = trim b)
                  (Claude.uniqueTexts
                     (foldl Claude.dedupStep (Claude.Dedup [] []) toUse))).
    { apply (foldl_invariant _
               (fun st => Forall (fun t => t <> [] /\ trim t = t
                                           /\ exists b, b ∈ toUse /\ t = trim b)
                                 (Claude.uniqueTexts st))); [|constructor].
      intros st b Hb Hst. by apply dedupStep_kept. }
    rewrite Forall_forall in H. destruct (H t Ht) as (? & ? & _). done.
  - intros (b & Hb & Hne) Hnil.
    destruct (dedup_fold_nonempty toUse (Claude.Dedup [] []) (fun _ => eq_refl) Hnil)
      as [_ Hall].
    rewrite Forall_forall in Hall. by apply Hne, Hall.
Qed.

(** X16: the deduplication of the blocks of a Claude turn only drops
    blocks. Every text that it keeps is the trimmed text of one of the
    blocks and is not empty; no two texts kept are equal when case is
    ignored; at most one text is kept per block, and a text is kept
    whenever some block has one. The branch that is to keep at least one
    block never adds anything: what the loop has kept is the result. *)
Theorem claude_dedup_keeps (toUse : list jsstring) :
  Claude.dedupBlocks toUse
  = Claude.uniqueTexts (foldl Claude.dedupStep (Claude.Dedup [] []) toUse)
  /\ (forall t, t ∈ Claude.dedupBlocks toUse ->
        t <> [] /\ trim t = t /\ exists b, b ∈ toUse /\ t = trim b)
  /\ NoDup (toLowerCase <$> Claude.dedupBlocks toUse)
  /\ length (Claude.dedupBlocks toUse) <= length toUse
  /\ ((exists b, b ∈ toUse /\ trim b <> []) -> Claude.dedupBlocks toUse <> []).
Proof.
  rewrite dedupBlocks_loop. split; [done|]. split; [|split; [|split]].
  - apply Forall_forall.
    apply (foldl_invariant _
             (fun st => Forall (fun t => t <> [] /\ trim t = t
                                         /\ exists b, b ∈ toUse /\ t = trim b)
                               (Claude.uniqueTexts st))); [|constructor].
    intros st b Hb Hst. by apply dedupStep_kept.
  - assert (H : consistent (foldl Claude.dedupStep (Claude.Dedup [] []) toUse)).
    { apply (foldl_invariant _ consistent).
      - intros st b _ Hst. by apply dedupStep_consistent.
      - split; [done|]. split; constructor. }
    destruct H as (Hsame & Hnd & _). by rewrite <- Hsame.
  - apply (dedup_fold_length toUse (Claude.Dedup [] [])).
  - intros (b & Hb & Hne) Hnil.
    destruct (dedup_fold_nonempty toUse (Claude.Dedup [] []) (fun _ => eq_refl) Hnil)
      as [_ Hall].
    rewrite Forall_forall in Hall. by apply Hne, Hall.
Qed.

Lemma claude_dedup_keeps_witness :
  let upper := [201; 67; 79; 76; 69]%N ++ lit " polytechnique" in
  let lower := [233; 99; 111; 108; 101]%N ++ lit " polytechnique" in
  ((exists b, b ∈ [lit " Hello "; lit "hello"] /\ trim b <> [])
   /\ Claude.dedupBlocks [lit " Hello "; lit "hello"] <> [])
  /\ toLowerCase upper = lower
  /\ Claude.dedupBlocks [upper; lower] = [upper]
  /\ NoDup (toLowerCase <$> Claude.dedupBlocks [upper; lower]).
Proof.
  assert (H : exists b, b ∈ [lit " Hello "; lit "hello"] /\ trim b <> []).
  { exists (lit "hello"). split; [right; left|].
    intros Hnil. by vm_compute in Hnil. }
  split; [split; [exact H|]|split; [by vm_compute|split; [by vm_compute|]]].
  - exact (proj2 (proj2 (proj2 (proj2 (claude_dedup_keeps _)))) H).
  - exact (proj1 (proj2 (proj2 (claude_dedup_keeps _)))).
Defined.

(** *** What survives the assembly of a Claude turn *)

Lemma trimStart_keeps s c :
  c ∈ s -> isWhiteSpace c = false -> c ∈ trimStart s.
Proof.
  induction s as [|d s IH]; [done|]. simpl.
  intros [-> | Hin]%elem_of_cons Hc.
  - rewrite Hc. left.
  - destruct (isWhiteSpace d); [by apply IH | by right].
Qed.

Lemma trim_keeps s c : c ∈ s -> isWhiteSpace c = false -> c ∈ trim s.
Proof.
  intros Hin Hc. unfold trim, trimEnd. rewrite elem_of_reverse.
  apply trimStart_keeps; [|done]. rewrite elem_of_reverse.
  by apply trimStart_keeps.
Qed.

Lemma replaceRuns_keeps b s c :
  c ∈ s -> isWhiteSpace c = false -> c ∈ replaceRuns b s.
Proof.
  revert b. induction s as [|d s IH]; intros b; [done|]. simpl.
  intros [-> | Hin]%elem_of_cons Hc.
  - rewrite Hc. left.
  - destruct (isWhiteSpace d); [destruct b|]; try right; by apply IH.
Qed.

Lemma join_keeps sep (l : list jsstring) x c : x ∈ l -> c ∈ x -> c ∈ join sep l.
Proof.
  induction l as [|y l IH]; [by intros ?%elem_of_nil|].
  intros [-> | Hin]%elem_of_cons Hc.
  - destruct l; simpl; [done|]. apply elem_of_app. by left.
  - destruct l as [|z l]; [by apply elem_of_nil in Hin|].
    change (join sep (y :: z :: l)) with (y ++ sep ++ join sep (z :: l)).
    rewrite !elem_of_app. right. right. by apply IH.
Qed.

Lemma trimmed_inked t : t <> [] -> trim t = t -> inked t.
Proof.
  intros Hne Ht. pose proof (startsClean_trim t) as H. rewrite Ht in H.
  destruct t as [|c t]; [done|]. exists c. split; [left | exact H].
Qed.

Lemma inked_trim s : inked s -> trim s <> [].
Proof.
  intros (c & Hin & Hc) Hnil.
  pose proof (trim_keeps s c Hin Hc) as H. rewrite Hnil in H.
  by apply elem_of_nil in H.
Qed.

Lemma cleanText_trimmed text : trim (Claude.cleanText text) = Claude.cleanText text.
Proof. unfold Claude.cleanText, Claude.disclaimerPatterns. cbn [foldl]. apply trim_trim. Qed.

(** When a block has a text, so has one of the texts that are used. *)
Lemma blockTextsToUse_inked blockTexts :
  (exists b, b ∈ blockTexts /\ trim b <> []) ->
  exists b, b ∈ Claude.blockTextsToUse blockTexts /\ trim b <> [].
Proof.
  intros H. unfold Claude.blockTextsToUse.
  destruct (Claude.cleanBlockTexts blockTexts) as [|b cleaned] eqn:E; [done|].
  simpl. exists b. split; [left|].
  assert (Hb : b ∈ Claude.cleanBlockTexts blockTexts) by (rewrite E; left).
  unfold Claude.cleanBlockTexts in Hb.
  apply list_elem_of_In, filter_In in Hb as [Hb Hlen].
  apply list_elem_of_In, list_elem_of_fmap in Hb as (text & -> & _).
  rewrite cleanText_trimmed. intros Hnil. by rewrite Hnil in Hlen.
Qed.

Lemma combine_nonempty uniqueTexts t :
  t ∈ uniqueTexts -> inked t -> Claude.combine uniqueTexts <> [].
Proof.
  intros Ht (c & Hc & Hink). unfold Claude.combine.
  apply inked_trim. exists c. split; [|done].
  apply replaceRuns_keeps; [|done]. by eapply join_keeps.
Qed.

(** The sentence pass never empties a text and never takes more than half
    of it away. *)
Lemma dedupSentences_bounds s :
  (s <> [] -> Claude.dedupSentences s <> [])
  /\ length s <= 2 * length (Claude.dedupSentences s).
Proof.
  unfold Claude.dedupSentences. cbv zeta.
  destruct (1 <? length _); [|split; [done|lia]].
  destruct (_ && _) eqn:H; [|split; [done|lia]].
  apply andb_true_iff in H as [H1 H2].
  unfold Claude.atLeast50 in H2. apply Nat.leb_le in H2. apply Nat.ltb_lt in H1.
  split; [|lia]. intros _ Hnil. rewrite Hnil in H1. simpl in H1. lia.
Qed.

Lemma blockTextsOf_trimmed root assistantBlocks :
  Forall (fun b => b <> [] /\ trim b = b) (Claude.blockTextsOf root assistantBlocks).
Proof.
  apply Forall_forall. intros b Hb. unfold Claude.blockTextsOf in Hb.
  apply list_elem_of_In, filter_In in Hb as [Hb Hlen].
  apply list_elem_of_In, list_elem_of_fmap in Hb as (block & -> & _).
  split; [|apply trim_trim]. intros Hnil. by rewrite Hnil in Hlen.
Qed.

(** X17: the assembly of a Claude turn does not lose a response. The texts
    taken from the blocks are trimmed and not empty; when there is one, the
    assembled text is not empty, whatever the removal of disclaimers, the
    deduplication of blocks and the deduplication of sentences drop; and the
    sentence pass keeps at least half of the combined text. *)
Theorem claude_turn_not_lost (root : node) (assistantBlocks : list path) :
  let blockTexts := Claude.blockTextsOf root assistantBlocks in
  Forall (fun b => b <> [] /\ trim b = b) blockTexts
  /\ (blockTexts <> [] -> Claude.assembleTurn blockTexts <> [])
  /\ length (Claude.combine (Claude.dedupBlocks (Claude.blockTextsToUse blockTexts)))
     <= 2 * length (Claude.assembleTurn blockTexts).
Proof.
  intros blockTexts.
  pose proof (blockTextsOf_trimmed root assistantBlocks) as Htrimmed.
  fold blockTexts in Htrimmed.
  split; [done|]. split; [|apply dedupSentences_bounds].
  intros Hne. unfold Claude.assembleTurn.
  apply dedupSentences_bounds.
  destruct blockTexts as [|b rest] eqn:E; [done|].
  apply Forall_inv in Htrimmed as [Hb Htrim].
  destruct (blockTextsToUse_inked (b :: rest)) as (u & Hu & Hune).
  { exists b. split; [left|]. by rewrite Htrim. }
  set (toUse := Claude.blockTextsToUse (b :: rest)) in *.
  assert (Hkept : Claude.dedupBlocks toUse <> []).
  { apply (fun H => proj2 (dedupBlocks_kept toUse) H). by exists u. }
  destruct (Claude.dedupBlocks toUse) as [|t kept] eqn:Ek; [done|].
  assert (Ht : t ∈ Claude.dedupBlocks toUse) by (rewrite Ek; left).
  apply (proj1 (dedupBlocks_kept toUse)) in Ht as [Htne Httrim].
  rewrite <- Ek. apply (combine_nonempty _ t); [by rewrite Ek; left|].
  by apply trimmed_inked.
Qed.

Lemma claude_turn_not_lost_witness :
  let root := Sample.claudeTurn "The answer to that question is 42." in
  Claude.blockTextsOf root [[1; 0; 1]] <> []
  /\ Claude.assembleTurn (Claude.blockTextsOf root [[1; 0; 1]]) <> [].
Proof.
  assert (H : Claude.blockTextsOf
                (Sample.claudeTurn "The answer to that question is 42.") [[1; 0; 1]]
              <> []).
  { intros Hnil. by vm_compute in Hnil. }
  split; [exact H|].
  exact (proj1 (proj2 (claude_turn_not_lost _ _)) H).
Defined.

(** *** The ancestor traversal of DeepSeek's [getContainer] *)

Lemma commonParent_unmoved cp (l : list path) :
  Forall (fun x => x <> cp) l ->
  foldl DeepSeek.commonParentStep (Normal (Some cp)) l = Normal (Some cp).
Proof.
  induction 1 as [|x l Hx _ IH]; cbn [foldl]; [done|].
  by rewrite commonParentStep_keeps.
Qed.

(** X18: the ancestor traversal of DeepSeek's [getContainer] never moves
    up. On a document without scroll area whose root element is not itself
    a [.ds-message], the result is the parent element of the first
    [.ds-message], whether or not the other messages are inside it; on the
    sample page with two messages in two blocks of their own, the node
    returned does not contain the second message. *)
Theorem deepseek_container_is_first_parent (w : window) (first : path)
  (rest : list path) :
  documentQuerySelectorAll (document w) (DeepSeek.byClass "ds-message")
  = first :: rest ->
  first <> [] ->
  DeepSeek.commonParentOf (first :: rest) = Normal (parentElement first)
  /\ is_Some (parentElement first)
  /\ (documentQuerySelector (document w) (DeepSeek.byClass "ds-scroll-area") = None ->
      documentQuerySelector (document w) (DeepSeek.byClassPart "ds-scroll-area") = None ->
      documentQuerySelector (document w) (DeepSeek.byClassPart "_0f72b0b") = None ->
      DeepSeek.getContainer w = Normal (parentElement first))
  /\ (exists container second,
         DeepSeek.getContainer (Sample.windowOf deepseekApart) = Normal (Some container)
         /\ documentQuerySelectorAll deepseekApart (DeepSeek.byClass "ds-message") !! 1
            = Some second
         /\ contains container second = false).
Proof.
  intros Hall Hfirst.
  pose proof (documentQuerySelectorAll_sorted (document w)
                (DeepSeek.byClass "ds-message")) as Hsorted.
  rewrite Hall in Hsorted.
  destruct (parentElement_nonroot first Hfirst) as [cp Hcp].
  assert (Hcommon : DeepSeek.commonParentOf (first :: rest) = Normal (Some cp)).
  { unfold DeepSeek.commonParentOf. rewrite Hcp. simpl. rewrite drop_0.
    apply commonParent_unmoved.
    apply StronglySorted_inv in Hsorted as [_ Hafter].
    apply Forall_take, Forall_forall. intros x Hx ->.
    rewrite Forall_forall in Hafter. specialize (Hafter _ Hx).
    apply parent_before in Hcp.
    pose proof (before_trans _ _ _ Hcp Hafter) as Hirr.
    by rewrite before_irrefl in Hirr. }
  rewrite Hcp. split; [done|]. split; [by eexists|]. split.
  - intros H1 H2 H3. unfold DeepSeek.getContainer. cbv zeta.
    rewrite H1, H2, H3, Hall, Hcommon. done.
  - eexists. eexists. split; [|split]; by vm_compute.
Qed.

Lemma deepseek_container_is_first_parent_witness :
  let w := Sample.windowOf deepseekApart in
  (documentQuerySelectorAll (document w) (DeepSeek.byClass "ds-message")
   = [[1; 0; 0]; [1; 1; 0]]
   /\ [1; 0; 0] <> @nil nat)
  /\ DeepSeek.getContainer w = Normal (Some [1; 0]).
Proof.
  assert (H1 : documentQuerySelectorAll (document (Sample.windowOf deepseekApart))
                 (DeepSeek.byClass "ds-message")
               = [[1; 0; 0]; [1; 1; 0]]) by by vm_compute.
  assert (H2 : [1; 0; 0] <> @nil nat) by discriminate.
  split; [by split|].
  refine (proj1 (proj2 (proj2
            (deepseek_container_is_first_parent _ _ _ H1 H2))) _ _ _);
    by vm_compute.
Defined.

(** *** The assistant blocks of a Claude turn *)

Lemma pushNew_NoDup assistantBlocks b :
  NoDup assistantBlocks -> NoDup (Claude.pushNew assistantBlocks b).
Proof.
  intros Hnd. unfold Claude.pushNew, includesEl. case_bool_decide; [done|].
  apply NoDup_app. split; [done|]. split; [|apply NoDup_singleton].
  by intros x Hx ->%list_elem_of_singleton.
Qed.

Lemma pushNew_cases assistantBlocks b :
  Claude.pushNew assistantBlocks b = assistantBlocks
  \/ Claude.pushNew assistantBlocks b = assistantBlocks ++ [b].
Proof. unfold Claude.pushNew. destruct (includesEl _ _); [by left | by right]. Qed.

Lemma scanParentSiblings_NoDup root userElements siblings : forall assistantBlocks,
  NoDup assistantBlocks ->
  NoDup (Claude.scanParentSiblings root userElements siblings assistantBlocks).
Proof.
  induction siblings as [|sibling rest IH]; intros blocks Hnd; simpl; [done|].
  destruct (includesEl userElements sibling); [done|]. apply IH.
  assert (Hsel : NoDup (foldl (fun blocks selector =>
                                 foldl Claude.pushNew blocks
                                   (querySelectorAll root sibling selector))
                              blocks Claude.assistantSelectors)).
  { apply (foldl_invariant _ (fun l => NoDup l)); [|done].
    intros l selector _ Hl.
    apply (foldl_invariant _ (fun l => NoDup l)); [|done].
    intros l' b _ Hl'. by apply pushNew_NoDup. }
  destruct (_ && _); [|done].
  destruct (Claude.looksLikeUser root sibling); [done|]. by apply pushNew_NoDup.
Qed.

Lemma scanNextSiblings_NoDup root userElements checked :
  forall nextSibling assistantBlocks,
  NoDup assistantBlocks ->
  NoDup (Claude.scanNextSiblings root userElements checked nextSibling
           assistantBlocks).
Proof.
  induction checked as [|checked IH]; intros [next|] blocks Hnd; simpl; try done.
  destruct (includesEl userElements next); [done|]. apply IH.
  destruct (_ && _); [|done].
  destruct (Claude.looksLikeUser root next); [done|]. by apply pushNew_NoDup.
Qed.

Lemma ascend_NoDup root userElements depth : forall current assistantBlocks,
  NoDup assistantBlocks ->
  NoDup (Claude.ascend root userElements depth current assistantBlocks).
Proof.
  induction depth as [|depth IH]; intros current blocks Hnd;
    cbn [Claude.ascend]; [done|].
  destruct (parentElement current) as [parent|]; [|done]. cbv zeta.
  set (scanned := Claude.scanNextSiblings _ _ _ _ _).
  assert (Hscanned : NoDup scanned).
  { by apply scanNextSiblings_NoDup, scanParentSiblings_NoDup. }
  destruct (0 <? length scanned); [done|]. by apply IH.
Qed.

(** What the spatial heuristic has collected. *)
Lemma spatialStep_selected root userElements userRect nextUserRect
  (P : path -> Prop) assistantBlocks el :
  (includesEl userElements el = false ->
   closest root el Claude.selUserMessage = None ->
   (bottom userRect < top (layoutAt root el))%Z ->
   20 <= length (trim (textAt root el)) ->
   (30 <= offsetHeight (layoutAt root el))%Z ->
   P el) ->
  NoDup assistantBlocks /\ Forall P assistantBlocks ->
  NoDup (Claude.spatialStep root userElements userRect nextUserRect
           assistantBlocks el)
  /\ Forall P (Claude.spatialStep root userElements userRect nextUserRect
                 assistantBlocks el).
Proof.
  intros HP [Hnd Hall]. unfold Claude.spatialStep.
  destruct (includesEl userElements el) eqn:Huser; [done|]. simpl.
  case_bool_decide as Hclosest; [done|].
  destruct (top (layoutAt root el) <=? bottom userRect)%Z eqn:Htop; [done|].
  destruct (match nextUserRect with Some _ => _ | None => _ end); [done|].
  destruct (length (trim (textAt root el)) <? 20) eqn:Hlen; [done|]. simpl.
  destruct (offsetHeight (layoutAt root el) <? 30)%Z eqn:Hheight; [done|].
  assert (Hel : P el).
  { apply HP; [done| | | |].
    - destruct (closest root el Claude.selUserMessage); [|done].
      exfalso. apply Hclosest. by eexists.
    - by apply Z.leb_gt in Htop.
    - by apply Nat.ltb_ge in Hlen.
    - by apply Z.ltb_ge in Hheight. }
  assert (Hpush : NoDup (Claude.pushNew assistantBlocks el)
                  /\ Forall P (Claude.pushNew assistantBlocks el)).
  { split; [by apply pushNew_NoDup|].
    destruct (pushNew_cases assistantBlocks el) as [-> | ->]; [done|].
    apply Forall_app. split; [done|]. by apply Forall_singleton. }
  destruct (_ || _); [done|].
  destruct (_ && _); [|done].
  destruct (_ && _); [done|done].
Qed.

(** X19: the blocks that the Claude strategy collects for a user message
    hold no element twice. A block selected by the spatial heuristic is a
    candidate [div] that is not a user element and has no user message
    around it; it starts below the bottom of the user message, its trimmed
    text has at least 20 code units and its height is at least 30. *)
Theorem claude_blocks_selected (root : node) (userElements : list path)
  (userEl : path) :
  NoDup (Claude.findAssistantBlocks root userElements userEl)
  /\ forall b, b ∈ Claude.heuristicB root userElements userEl ->
       (b ∉ userElements)
       /\ closest root b Claude.selUserMessage = None
       /\ matchesAt root Claude.selCandidates b = true
       /\ (bottom (layoutAt root userEl) < top (layoutAt root b))%Z
       /\ 20 <= length (trim (textAt root b))
       /\ (30 <= offsetHeight (layoutAt root b))%Z.
Proof.
  set (P := fun b : path =>
              (b ∉ userElements)
              /\ closest root b Claude.selUserMessage = None
              /\ matchesAt root Claude.selCandidates b = true
              /\ (bottom (layoutAt root userEl) < top (layoutAt root b))%Z
              /\ 20 <= length (trim (textAt root b))
              /\ (30 <= offsetHeight (layoutAt root b))%Z).
  assert (HB : NoDup (Claude.heuristicB root userElements userEl)
               /\ Forall P (Claude.heuristicB root userElements userEl)).
  { unfold Claude.heuristicB. cbv zeta.
    apply (foldl_invariant _ (fun l => NoDup l /\ Forall P l));
      [|split; constructor].
    intros l el Hel Hl. apply spatialStep_selected; [|done].
    intros Huser Hclosest Htop Hlen Hheight.
    apply list_elem_of_In, filter_In in Hel as [_ Hmatch].
    split; [|done]. unfold includesEl in Huser.
    by apply bool_decide_eq_false in Huser. }
  destruct HB as [HBnd HBall]. split.
  - unfold Claude.findAssistantBlocks. cbv zeta.
    destruct (length _ =? 0); [done|].
    apply ascend_NoDup. constructor.
  - by apply Forall_forall.
Qed.

Lemma claude_blocks_selected_witness :
  [1; 0; 1; 0; 0] ∈ Claude.heuristicB claudeSpatial [[1; 0; 0; 0]] [1; 0; 0; 0]
  /\ 20 <= length (trim (textAt claudeSpatial [1; 0; 1; 0; 0])).
Proof.
  assert (H : [1; 0; 1; 0; 0]
              ∈ Claude.heuristicB claudeSpatial [[1; 0; 0; 0]] [1; 0; 0; 0]).
  { vm_compute. left. }
  split; [exact H|].
  exact (proj1 (proj2 (proj2 (proj2 (proj2
           (proj2 (claude_blocks_selected _ _ _) _ H)))))).
Defined.

(** *** The elements behind the records of the Qwen strategy *)

(** An element found by [div[id^="message-"]] has an [id] that starts with
    [message-]. *)
Lemma qwen_candidate_prefix root msgEl n :
  msgEl ∈ documentQuerySelectorAll root Qwen.selAllMessages ->
  nodeAt root msgEl = Some n ->
  startsWith (idOf n) (lit "message-") = true.
Proof.
  unfold documentQuerySelectorAll.
  intros [_ Hm]%list_elem_of_In%filter_In Hn.
  unfold matchesAt in Hm.
  destruct (lineage_head root msgEl [] n Hn) as [above Hl]. rewrite Hl in Hm.
  unfold Qwen.selAllMessages in Hm. cbn [existsb] in Hm.
  rewrite orb_false_r in Hm. unfold matchComplex in Hm. simpl in Hm.
  apply andb_prop in Hm as [Hm _]. unfold matchCompound in Hm.
  apply andb_prop in Hm as [_ Hm]. cbn [forallb] in Hm.
  apply andb_prop in Hm as [_ Hm]. apply andb_prop in Hm as [Hm _].
  unfold matchSimple in Hm. unfold idOf.
  destruct (getAttribute n (lit "id")) as [x|]; [|done]. simpl.
  by apply andb_prop in Hm as [_ Hm].
Qed.

Lemma qwen_step_ids w (l : list path) st msgEl idx :
  msgEl ∈ documentQuerySelectorAll (document w) Qwen.selAllMessages ->
  NoDup (elementId (document w) <$> Qwen.messages st)
  /\ Forall (fun m => elementId (document w) m ∈ Qwen.seen st
                      /\ startsWith (elementId (document w) m) (lit "message-") = true
                      /\ Qwen.isNonMessageId (elementId (document w) m) = false)
            (Qwen.messages st) ->
  NoDup (elementId (document w) <$> Qwen.messages (Qwen.step w st msgEl idx))
  /\ Forall (fun m => elementId (document w) m ∈ Qwen.seen (Qwen.step w st msgEl idx)
                      /\ startsWith (elementId (document w) m) (lit "message-") = true
                      /\ Qwen.isNonMessageId (elementId (document w) m) = false)
            (Qwen.messages (Qwen.step w st msgEl idx)).
Proof.
  intros Hcand [Hnd Hall]. unfold Qwen.step.
  destruct (nodeAt (document w) msgEl) as [n|] eqn:Hn; [|done].
  destruct (JS.eqb (idOf n) [] || bool_decide (idOf n ∈ Qwen.seen st)) eqn:Hseen;
    [done|].
  apply orb_false_iff in Hseen as [_ Hseen%bool_decide_eq_false].
  destruct (Qwen.isNonMessageId (idOf n)) eqn:Hfilter; [done|].
  destruct (negb _ && _); [done|].
  assert (Hold : Forall (fun m =>
                    elementId (document w) m ∈ {[idOf n]} ∪ Qwen.seen st
                    /\ startsWith (elementId (document w) m) (lit "message-") = true
                    /\ Qwen.isNonMessageId (elementId (document w) m) = false)
                   (Qwen.messages st)).
  { eapply Forall_impl; [exact Hall|]. intros m (? & ? & ?).
    split; [|done]. apply elem_of_union. by right. }
  destruct (if Qwen.hasUserClass n then _ else _); [done|]. simpl.
  rewrite fmap_app. simpl. unfold elementId at 2. simpl. rewrite Hn. split.
  - apply NoDup_app. split; [done|]. split; [|apply NoDup_singleton].
    intros x Hx ->%list_elem_of_singleton.
    apply list_elem_of_fmap in Hx as (m & Hm & Hin).
    rewrite Forall_forall in Hall. destruct (Hall m Hin) as [Hs _].
    apply Hseen. by rewrite Hm.
  - apply Forall_app. split; [done|]. apply Forall_singleton.
    unfold elementId. simpl. rewrite Hn. split; [|split].
    + apply elem_of_union. left. by apply elem_of_singleton.
    + by eapply qwen_candidate_prefix.
    + done.
Qed.

Lemma elementIds_imap_setOrder root l :
  elementId root <$> imap Qwen.setOrder l = elementId root <$> l.
Proof.
  rewrite fmap_imap.
  rewrite (imap_ext _ (fun _ => elementId root)); [|done].
  apply imap_const.
Qed.

(** X20: the records of one scan of the Qwen strategy come from elements
    with pairwise distinct [id] attributes: an element whose [id] repeats
    that of a candidate accepted before gives no record. Each of these
    [id]s starts with [message-] and contains none of [input-container],
    [button-] and [language]. *)
Theorem qwen_records_distinct_elements (w : window) :
  NoDup (elementId (document w) <$> Qwen.detectMessages w)
  /\ forall m, m ∈ Qwen.detectMessages w ->
       startsWith (elementId (document w) m) (lit "message-") = true
       /\ includes (elementId (document w) m) (lit "input-container") = false
       /\ includes (elementId (document w) m) (lit "button-") = false
       /\ includes (elementId (document w) m) (lit "language") = false.
Proof.
  set (allMessages := documentQuerySelectorAll (document w) Qwen.selAllMessages).
  set (final := forEach (Qwen.step w) allMessages 0 (Qwen.Scan [] 0 ∅)).
  assert (H : NoDup (elementId (document w) <$> Qwen.messages final)
              /\ Forall (fun m =>
                   elementId (document w) m ∈ Qwen.seen final
                   /\ startsWith (elementId (document w) m) (lit "message-") = true
                   /\ Qwen.isNonMessageId (elementId (document w) m) = false)
                 (Qwen.messages final)).
  { apply (forEach_invariant (Qwen.step w)
             (fun st =>
                NoDup (elementId (document w) <$> Qwen.messages st)
                /\ Forall (fun m =>
                     elementId (document w) m ∈ Qwen.seen st
                     /\ startsWith (elementId (document w) m) (lit "message-") = true
                     /\ Qwen.isNonMessageId (elementId (document w) m) = false)
                   (Qwen.messages st))).
    - intros st x i Hx Hst. by apply (qwen_step_ids w allMessages).
    - split; constructor. }
  destruct H as [Hnd Hall].
  assert (Hsame : elementId (document w) <$> Qwen.detectMessages w
                  ≡ₚ elementId (document w) <$> Qwen.messages final).
  { unfold Qwen.detectMessages, Qwen.sortAndReorder. cbv zeta.
    fold allMessages. fold final.
    by rewrite elementIds_imap_setOrder, sort_Permutation. }
  split; [by rewrite Hsame|].
  intros m Hm.
  assert (Hin : elementId (document w) m
                ∈ elementId (document w) <$> Qwen.messages final).
  { rewrite <- Hsame. by apply list_elem_of_fmap_2. }
  apply list_elem_of_fmap in Hin as (m0 & -> & Hm0).
  rewrite Forall_forall in Hall. destruct (Hall m0 Hm0) as (_ & Hprefix & Hfilter).
  split; [done|]. unfold Qwen.isNonMessageId in Hfilter.
  apply orb_false_iff in Hfilter as [Hfilter ?].
  by apply orb_false_iff in Hfilter as [? ?].
Qed.

Lemma qwen_records_distinct_elements_witness :
  let w := Sample.windowOf Sample.qwenChat in
  exists m,
    m ∈ Qwen.detectMessages w
    /\ elementId (document w) m = lit "message-1"
    /\ startsWith (elementId (document w) m) (lit "message-") = true.
Proof.
  assert (Hm : record (lit "qwen") (lit "user") 0 (lit "Question") [1; 0] 0 (Some 0)
               ∈ Qwen.detectMessages (Sample.windowOf Sample.qwenChat)).
  { vm_compute. left. }
  eexists. split; [exact Hm|]. split; [by vm_compute|].
  exact (proj1 (proj2 (qwen_records_distinct_elements _) _ Hm)).
Defined.

(** *** Trimming and collapsing in either order *)

Lemma trimStart_split s :
  exists a, Forall (fun c => isWhiteSpace c = true) a /\ s = a ++ trimStart s.
Proof.
  induction s as [|c s (a & Ha & IH)]; [by exists []|]. simpl.
  destruct (isWhiteSpace c) eqn:Hc.
  - exists (c :: a). split; [by constructor|]. simpl. by f_equal.
  - by exists [].
Qed.

Lemma trimEnd_split s :
  exists z, Forall (fun c => isWhiteSpace c = true) z /\ s = trimEnd s ++ z.
Proof.
  unfold trimEnd. destruct (trimStart_split (reverse s)) as (a & Ha & Hs).
  exists (reverse a). split; [by apply Forall_reverse|].
  rewrite <- reverse_app, <- Hs. by rewrite reverse_involutive.
Qed.

Lemma trimStart_ws_app pre x :
  Forall (fun c => isWhiteSpace c = true) pre -> trimStart (pre ++ x) = trimStart x.
Proof. induction 1 as [|c pre Hc _ IH]; simpl; [done|]. by rewrite Hc. Qed.

Lemma trimStart_ws z :
  Forall (fun c => isWhiteSpace c = true) z -> trimStart z = [].
Proof.
  intros Hz. rewrite <- (app_nil_r z). by rewrite trimStart_ws_app.
Qed.

Lemma trim_ws z : Forall (fun c => isWhiteSpace c = true) z -> trim z = [].
Proof. intros Hz. unfold trim. by rewrite trimStart_ws. Qed.

(** A clean text between two runs of white space is what [trim] leaves. *)
Lemma trim_padded pre R post :
  Forall (fun c => isWhiteSpace c = true) pre ->
  Forall (fun c => isWhiteSpace c = true) post ->
  startsClean R -> endsClean R ->
  trim (pre ++ R ++ post) = R.
Proof.
  intros Hpre Hpost Hstart Hend. unfold trim. rewrite trimStart_ws_app by done.
  destruct R as [|c R'] eqn:E.
  { simpl. by rewrite trimStart_ws. }
  rewrite <- E in *. assert (HR : trimStart (R ++ post) = R ++ post).
  { apply startsClean_fixed. subst R. exact Hstart. }
  rewrite HR. unfold trimEnd. rewrite reverse_app.
  rewrite trimStart_ws_app by by apply Forall_reverse.
  rewrite startsClean_fixed by by apply endsClean_reverse.
  apply reverse_involutive.
Qed.

Lemma replaceRuns_ws b z :
  Forall (fun c => isWhiteSpace c = true) z ->
  Forall (fun c => isWhiteSpace c = true) (replaceRuns b z).
Proof.
  intros Hz. revert b. induction Hz as [|c z Hc _ IH]; intros b; simpl; [done|].
  rewrite Hc. destruct b; [done|]. by constructor.
Qed.

Lemma replaceRuns_app b x y :
  exists b', replaceRuns b (x ++ y) = replaceRuns b x ++ replaceRuns b' y.
Proof.
  revert b. induction x as [|c x IH]; intros b; simpl; [by exists b|].
  destruct (isWhiteSpace c).
  - destruct (IH true) as [b' ->]. exists b'. by destruct b.
  - destruct (IH false) as [b' ->]. by exists b'.
Qed.

Lemma replaceRuns_clean b r :
  startsClean r -> replaceRuns b r = replaceRuns false r.
Proof.
  destruct r as [|c r]; [done|]. unfold startsClean. simpl. by intros ->.
Qed.

(** [s.replace(/\s+/g, ' ').trim()] and [s.trim().replace(/\s+/g, ' ')]
    are the same text. *)
Lemma trim_collapse_commute s :
  trim (collapseWhiteSpace s) = collapseWhiteSpace (trim s).
Proof.
  destruct (trimStart_split s) as (a & Ha & Hs).
  destruct (trimEnd_split (trimStart s)) as (z & Hz & Hm).
  fold (trim s) in Hm.
  destruct (tidy_collapse_trim s) as (_ & Hstart & Hend).
  unfold collapseWhiteSpace in *.
  destruct (trim s) as [|c m] eqn:E.
  { simpl. rewrite Hs, Hm. simpl. apply trim_ws, replaceRuns_ws.
    by apply Forall_app. }
  rewrite <- E in *.
  assert (Hclean : startsClean (trim s ++ z)).
  { pose proof (startsClean_trim s) as H. rewrite E in H |- *. exact H. }
  rewrite Hs at 1. rewrite Hm.
  destruct (replaceRuns_app false a (trim s ++ z)) as [b1 ->].
  rewrite (replaceRuns_clean b1) by done.
  destruct (replaceRuns_app false (trim s) z) as [b2 ->].
  apply trim_padded; [by apply replaceRuns_ws | by apply replaceRuns_ws | done | done].
Qed.

(** X21: collapsing the white-space runs and trimming give the same text in
    either order, so the ChatGPT and DeepSeek strategies, which collapse and
    then trim, and the Claude strategy, which trims a user message and then
    collapses, normalize a text in the same way; normalizing twice changes
    nothing more. *)
Theorem normalization_order_irrelevant (s : jsstring) :
  trim (collapseWhiteSpace s) = collapseWhiteSpace (trim s)
  /\ trim (collapseWhiteSpace (trim (collapseWhiteSpace s)))
     = trim (collapseWhiteSpace s)
  /\ collapseWhiteSpace (trim (collapseWhiteSpace (trim s)))
     = collapseWhiteSpace (trim s).
Proof.
  split; [apply trim_collapse_commute|].
  destruct (tidy_normalized _ (tidy_trim_collapse s)) as [Hc Ht].
  split.
  - by rewrite Hc, Ht.
  - rewrite <- (trim_collapse_commute s). by rewrite Ht, Hc.
Qed.

(** *** One record per candidate *)

Lemma deepseek_step_length w st msgEl index :
  length (DeepSeek.newMessages (DeepSeek.step w st msgEl index))
  <= S (length (DeepSeek.newMessages st)).
Proof.
  unfold DeepSeek.step.
  destruct (DeepSeek.classify _ _) as [[role|] content]; [|lia].
  destruct content as [|c content]; [lia|].
  destruct (trim _); [lia|]. simpl. rewrite length_app. simpl. lia.
Qed.

Lemma claude_step_length w userElements st userEl userIndex :
  length (Claude.newMessages (Claude.step w userElements st userEl userIndex))
  <= 2 + length (Claude.newMessages st).
Proof.
  unfold Claude.step.
  assert (Hu : length (Claude.newMessages (Claude.userStep w st userEl userIndex))
               <= 1 + length (Claude.newMessages st)).
  { unfold Claude.userStep. destruct (1 <=? length _); [|lia].
    simpl. rewrite length_app. simpl. lia. }
  unfold Claude.assistantStep.
  destruct (0 <? length _); [|lia].
  destruct (Claude.isValidTurn _); [|lia].
  simpl. rewrite length_app. simpl. lia.
Qed.

Lemma forEach_length {A St} (f : St -> A -> nat -> St) (size : St -> nat) (k : nat)
  (l : list A) :
  (forall s x i, size (f s x i) <= k + size s) ->
  forall i s, size (forEach f l i s) <= k * length l + size s.
Proof.
  intros Hstep. induction l as [|x l IH]; intros i s; simpl; [lia|].
  specialize (IH (S i) (f s x i)). specialize (Hstep s x i). lia.
Qed.

(** X22: a candidate element gives at most one record, a user message of
    the Claude strategy at most two. The positions of the records of the
    ChatGPT and Qwen strategies are a sub-sequence of their candidates; the
    Claude strategy returns at most twice as many records as it finds user
    messages and the DeepSeek strategy at most as many as it finds message
    elements; without a container the ChatGPT, Claude and DeepSeek
    strategies return nothing. *)
Theorem records_per_candidate (w : window) :
  match ChatGPT.getContainer w with
  | Some container =>
      positions (ChatGPT.detectMessages w)
      `sublist_of` querySelectorAll (document w) container ChatGPT.selRole
  | None => ChatGPT.detectMessages w = []
  end
  /\ positions (Qwen.detectMessages w)
     `sublist_of` documentQuerySelectorAll (document w) Qwen.selAllMessages
  /\ match Claude.resolveContainer (document w) with
     | Some container =>
         length (Claude.detectMessages w)
         <= 2 * length (Claude.findUserElements (document w) container)
     | None => Claude.detectMessages w = []
     end
  /\ match DeepSeek.resolveContainer (document w) with
     | Some container =>
         length (DeepSeek.detectMessages w)
         <= length (DeepSeek.findMessageElements (document w) container)
     | None => DeepSeek.detectMessages w = []
     end.
Proof.
  split; [|split; [|split]].
  - unfold ChatGPT.getContainer, ChatGPT.detectMessages.
    destruct (documentQuerySelector _ _) as [container|]; [|done].
    by destruct (chatgpt_scan_positions w
                   (querySelectorAll (document w) container ChatGPT.selRole) 0 [])
      as (extra & -> & Hsub).
  - unfold Qwen.detectMessages, Qwen.sortAndReorder. cbv zeta.
    rewrite qwen_sort_noop, qwen_renumber_noop.
    by destruct (qwen_scan_positions w
                   (documentQuerySelectorAll (document w) Qwen.selAllMessages) 0
                   (Qwen.Scan [] 0 ∅)) as (extra & -> & Hsub).
  - unfold Claude.detectMessages.
    destruct (Claude.resolveContainer _) as [container|]; [|done]. cbv zeta.
    pose proof (forEach_length
                  (Claude.step w (Claude.findUserElements (document w) container))
                  (fun st => length (Claude.newMessages st)) 2
                  (Claude.findUserElements (document w) container)
                  (claude_step_length w _) 0 (Claude.Scan [] 0)) as H.
    simpl in H. lia.
  - unfold DeepSeek.detectMessages.
    destruct (DeepSeek.resolveContainer _) as [container|]; [|done]. cbv zeta.
    rewrite sort_of_sorted with (key := fun p : path => p);
      [|apply deepseek_byPosition_before
       |exact (deepseek_findMessageElements_sorted (document w) container)].
    pose proof (forEach_length (DeepSeek.step w)
                  (fun st => length (DeepSeek.newMessages st)) 1
                  (DeepSeek.findMessageElements (document w) container)
                  (deepseek_step_length w) 0 (DeepSeek.Scan [] 0)) as H.
    simpl in H. lia.
Qed.

(** *** Streaming and the viewport *)

Lemma existsb_impl {A} (f g : A -> bool) (l : list A) :
  (forall x, f x = true -> g x = true) -> existsb f l = true -> existsb g l = true.
Proof.
  intros H. rewrite !existsb_exists. intros (x & Hx & Hf). exists x. auto.
Qed.

(** X23: the streaming tests look at the viewport only to leave out what is
    far below it: on the same document, what the Claude and DeepSeek tests
    detect in a viewport they detect in every taller one, and the Qwen test
    does not depend on the viewport. *)
Theorem streaming_monotone_in_viewport (w w' : window) :
  document w = document w' ->
  (innerHeight w <= innerHeight w')%Z ->
  (Claude.isStreaming w = true -> Claude.isStreaming w' = true)
  /\ (DeepSeek.isStreaming w = true -> DeepSeek.isStreaming w' = true)
  /\ Qwen.isStreaming w = Qwen.isStreaming w'.
Proof.
  destruct w as [root h clock], w' as [root' h' clock']. simpl.
  intros <- Hh. split; [|split].
  - unfold Claude.isStreaming. rewrite !orb_true_iff.
    intros [[H | H] | H]; [left; left | left; right | right].
    + revert H. unfold Claude.spinnerShown. simpl. apply existsb_impl.
      intros x. rewrite !andb_true_iff, !Z.ltb_lt. intros [? ?]. split; [done|lia].
    + revert H. unfold Claude.incompleteAtBottom. simpl.
      destruct (last _) as [lastUserMsg|]; [|done].
      rewrite !andb_true_iff, !Z.ltb_lt. intros [? ?]. split; [lia|done].
    + revert H. unfold Claude.busyNearInput. simpl.
      destruct (documentQuerySelector _ _) as [inputArea|]; [|done].
      rewrite !andb_true_iff, !Z.ltb_lt. intros [? ?]. split; [lia|done].
  - unfold DeepSeek.isStreaming. simpl. apply existsb_impl.
    intros x. rewrite !andb_true_iff, !Z.ltb_lt.
    intros [[? ?] ?]. split; [split; [done|lia]|done].
  - done.
Qed.

Lemma streaming_monotone_in_viewport_witness :
  let w := Window deepseekLoading 600 (fun _ => 0%Z) in
  let w' := Window deepseekLoading 900 (fun _ => 0%Z) in
  (document w = document w' /\ (innerHeight w <= innerHeight w')%Z
   /\ DeepSeek.isStreaming w = true)
  /\ DeepSeek.isStreaming w' = true.
Proof.
  assert (H1 : document (Window deepseekLoading 600 (fun _ => 0%Z))
               = document (Window deepseekLoading 900 (fun _ => 0%Z)))
    by reflexivity.
  assert (H2 : (innerHeight (Window deepseekLoading 600 (fun _ => 0%Z))
                <= innerHeight (Window deepseekLoading 900 (fun _ => 0%Z)))%Z)
    by (simpl; lia).
  assert (H3 : DeepSeek.isStreaming (Window deepseekLoading 600 (fun _ => 0%Z)) = true)
    by by vm_compute.
  split; [by repeat split|].
  exact (proj1 (proj2 (streaming_monotone_in_viewport _ _ H1 H2)) H3).
Defined.

(** *** The records of the user, and the anchor of a response *)

Lemma scan_sublist {St} (f : St -> path -> nat -> St) (pos : St -> list path)
  (l : list path) :
  (forall s x i, pos (f s x i) = pos s \/ pos (f s x i) = pos s ++ [x]) ->
  forall i s, exists extra,
    pos (forEach f l i s) = pos s ++ extra /\ extra `sublist_of` l.
Proof.
  intros Hstep. induction l as [|x l IH]; intros i s; simpl.
  { exists []. by rewrite app_nil_r. }
  destruct (IH (S i) (f s x i)) as (extra & -> & Hsub).
  destruct (Hstep s x i) as [-> | ->].
  - exists extra. split; [done|]. by apply sublist_cons.
  - exists (x :: extra). rewrite <- app_assoc. split; [done|].
    by apply sublist_skip.
Qed.

Lemma userPositions_app l1 l2 :
  userPositions (l1 ++ l2) = userPositions l1 ++ userPositions l2.
Proof. unfold userPositions, positions. by rewrite List.filter_app, fmap_app. Qed.

Lemma claude_step_userPositions w userElements st userEl userIndex :
  userPositions (Claude.newMessages (Claude.step w userElements st userEl userIndex))
  = userPositions (Claude.newMessages st)
  \/ userPositions (Claude.newMessages (Claude.step w userElements st userEl userIndex))
     = userPositions (Claude.newMessages st) ++ [userEl].
Proof.
  unfold Claude.step.
  assert (Ha : forall st',
             userPositions (Claude.newMessages
                              (Claude.assistantStep w userElements st' userEl userIndex))
             = userPositions (Claude.newMessages st')).
  { intros st'. unfold Claude.assistantStep.
    destruct (0 <? length _); [|done]. destruct (Claude.isValidTurn _); [|done].
    simpl. rewrite userPositions_app. simpl. apply app_nil_r. }
  rewrite Ha. unfold Claude.userStep.
  destruct (1 <=? length _); [|by left].
  right. simpl. by rewrite userPositions_app.
Qed.

Lemma deepseek_step_userPositions w st msgEl index :
  userPositions (DeepSeek.newMessages (DeepSeek.step w st msgEl index))
  = userPositions (DeepSeek.newMessages st)
  \/ userPositions (DeepSeek.newMessages (DeepSeek.step w st msgEl index))
     = userPositions (DeepSeek.newMessages st) ++ [msgEl].
Proof.
  unfold DeepSeek.step.
  destruct (DeepSeek.classify _ _) as [[role|] content]; [|by left].
  destruct content as [|c content]; [by left|].
  destruct (trim _); [by left|].
  simpl. rewrite userPositions_app.
  unfold userPositions at 2 5, isUserRecord. simpl.
  unfold JS.eqb. case_bool_decide as Hrole; simpl.
  - right. subst role. by rewrite bool_decide_eq_false_2.
  - left. apply app_nil_r.
Qed.

Lemma claude_findUserElements_sorted root container :
  StronglySorted precedes (Claude.findUserElements root container).
Proof.
  unfold Claude.findUserElements.
  repeat match goal with
         | |- context [if ?b then _ else _] => destruct b
         end;
    first [apply querySelectorAll_sorted | apply documentQuerySelectorAll_sorted].
Qed.

(** X24: the records of the user are in document order in the Claude and
    DeepSeek strategies too, where a response is anchored to a block or a
    container and may come out of place: they come, one at most per
    element, from the user messages that the Claude strategy finds and from
    the message elements that the DeepSeek strategy finds. *)
Theorem user_records_in_document_order (w : window) :
  StronglySorted precedes (userPositions (Claude.detectMessages w))
  /\ StronglySorted precedes (userPositions (DeepSeek.detectMessages w))
  /\ match Claude.resolveContainer (document w) with
     | Some container =>
         userPositions (Claude.detectMessages w)
         `sublist_of` Claude.findUserElements (document w) container
     | None => True
     end
  /\ match DeepSeek.resolveContainer (document w) with
     | Some container =>
         userPositions (DeepSeek.detectMessages w)
         `sublist_of` DeepSeek.findMessageElements (document w) container
     | None => True
     end.
Proof.
  assert (Hc : match Claude.resolveContainer (document w) with
               | Some container =>
                   userPositions (Claude.detectMessages w)
                   `sublist_of` Claude.findUserElements (document w) container
               | None => True
               end).
  { unfold Claude.detectMessages.
    destruct (Claude.resolveContainer _) as [container|]; [|done]. cbv zeta.
    destruct (scan_sublist
                (Claude.step w (Claude.findUserElements (document w) container))
                (fun st => userPositions (Claude.newMessages st))
                (Claude.findUserElements (document w) container)
                (claude_step_userPositions w _) 0 (Claude.Scan [] 0))
      as (extra & -> & Hsub).
    done. }
  assert (Hd : match DeepSeek.resolveContainer (document w) with
               | Some container =>
                   userPositions (DeepSeek.detectMessages w)
                   `sublist_of` DeepSeek.findMessageElements (document w) container
               | None => True
               end).
  { unfold DeepSeek.detectMessages.
    destruct (DeepSeek.resolveContainer _) as [container|]; [|done]. cbv zeta.
    rewrite sort_of_sorted with (key := fun p : path => p);
      [|apply deepseek_byPosition_before
       |exact (deepseek_findMessageElements_sorted (document w) container)].
    destruct (scan_sublist (DeepSeek.step w)
                (fun st => userPositions (DeepSeek.newMessages st))
                (DeepSeek.findMessageElements (document w) container)
                (deepseek_step_userPositions w) 0 (DeepSeek.Scan [] 0))
      as (extra & -> & Hsub).
    done. }
  split; [|split; [|by split]].
  - revert Hc. unfold Claude.detectMessages.
    destruct (Claude.resolveContainer _) as [container|]; [|constructor].
    intros Hsub. eapply StronglySorted_sublist; [exact Hsub|].
    apply claude_findUserElements_sorted.
  - revert Hd. unfold DeepSeek.detectMessages.
    destruct (DeepSeek.resolveContainer _) as [container|]; [|constructor].
    intros Hsub. eapply StronglySorted_sublist; [exact Hsub|].
    apply deepseek_findMessageElements_sorted.
Qed.

Lemma insertSorted_topFirst root x l :
  StronglySorted (topFirst root) l ->
  StronglySorted (topFirst root) (JS.insertSorted (Claude.byTop root) x l).
Proof.
  induction 1 as [|y l Hs IH Hall]; simpl; [repeat constructor|].
  unfold Claude.byTop at 1.
  destruct (top (layoutAt root x) - top (layoutAt root y) <=? 0)%Z eqn:Hxy.
  - apply Z.leb_le in Hxy. constructor; [by constructor|].
    constructor; [unfold topFirst; lia|].
    eapply Forall_impl; [exact Hall|]. unfold topFirst. intros z Hz. lia.
  - apply Z.leb_gt in Hxy. constructor; [done|].
    apply Forall_forall. intros z Hz.
    rewrite insertSorted_Permutation in Hz.
    apply elem_of_cons in Hz as [-> | Hz]; [unfold topFirst; lia|].
    rewrite Forall_forall in Hall. by apply Hall.
Qed.

Lemma sort_topFirst root l :
  StronglySorted (topFirst root) (JS.sort (Claude.byTop root) l).
Proof.
  induction l as [|x l IH]; [constructor|].
  change (JS.sort (Claude.byTop root) (x :: l))
    with (JS.insertSorted (Claude.byTop root) x (JS.sort (Claude.byTop root) l)).
  by apply insertSorted_topFirst.
Qed.

(** The first block after the sort is one of the blocks, and none of them
    starts above it. *)
Lemma sort_byTop_head root blocks :
  blocks <> [] ->
  exists h,
    head (JS.sort (Claude.byTop root) blocks) = Some h
    /\ h ∈ blocks
    /\ forall b, b ∈ blocks -> topFirst root h b.
Proof.
  intros Hne. pose proof (sort_topFirst root blocks) as Hsorted.
  pose proof (sort_length (Claude.byTop root) blocks) as Hlen.
  destruct (JS.sort (Claude.byTop root) blocks) as [|h rest] eqn:E.
  { destruct blocks; [done|discriminate]. }
  exists h. split; [done|].
  assert (Hin : forall b, b ∈ blocks <-> b ∈ h :: rest).
  { intros b. by rewrite <- E, elem_of_sort. }
  split; [apply Hin; left|].
  apply StronglySorted_inv in Hsorted as [_ Hall]. rewrite Forall_forall in Hall.
  intros b [-> | Hb]%Hin%elem_of_cons; [unfold topFirst; lia | by apply Hall].
Qed.

(** X25: the second half of the Claude callback leaves the state as it is
    or adds one record of the assistant. The content of that record is the
    assembled turn; its element, to which the record is anchored, is one of
    the blocks collected for the user message, and none of these starts
    above it; a content of fewer than 200 code units does not end in
    [...]. *)
Theorem claude_assistant_anchor (w : window) (userElements : list path)
  (st : Claude.scan) (userEl : path) (userIndex : nat) :
  let root := document w in
  let blocks := Claude.findAssistantBlocks root userElements userEl in
  Claude.assistantStep w userElements st userEl userIndex = st
  \/ exists m,
       Claude.newMessages (Claude.assistantStep w userElements st userEl userIndex)
       = Claude.newMessages st ++ [m]
       /\ Message.role m = lit "assistant"
       /\ Message.fullContent m = Claude.turnContent root userElements userEl
       /\ Message.element m ∈ blocks
       /\ (forall b, b ∈ blocks -> topFirst root (Message.element m) b)
       /\ (length (Message.fullContent m) < 200 ->
           endsWith (Message.fullContent m) (lit "...") = false).
Proof.
  intros root blocks. unfold Claude.assistantStep. fold root. fold blocks.
  destruct (0 <? length blocks) eqn:Hlen; [|by left].
  destruct (Claude.isValidTurn _) eqn:Hvalid; [|by left].
  right. eexists. split; [reflexivity|].
  cbn [Message.role Message.fullContent Message.element].
  split; [done|]. split; [done|].
  destruct (sort_byTop_head root blocks) as (h & Hhead & Hin & Hmin).
  { intros Hnil. by rewrite Hnil in Hlen. }
  rewrite Hhead. cbn [default from_option id]. split; [done|]. split; [done|].
  intros Hshort. unfold Claude.isValidTurn in Hvalid.
  apply andb_prop in Hvalid as [_ Hvalid]. apply negb_true_iff in Hvalid.
  unfold Claude.endsWithEllipsis in Hvalid.
  apply Nat.ltb_lt in Hshort. rewrite Hshort, andb_true_r in Hvalid.
  destruct (assembleTurn_tidy (Claude.blockTextsOf root
              (JS.sort (Claude.byTop root) blocks))) as (_ & Hs & He).
  by rewrite clean_trim_fixed in Hvalid.
Qed.

Lemma claude_assistant_anchor_witness :
  let w := Sample.windowOf (Sample.claudeTurn "The answer to that question is 42.") in
  exists m,
    Claude.newMessages
      (Claude.assistantStep w [[1; 0; 0; 0]] (Claude.Scan [] 0) [1; 0; 0; 0] 0)
    = [m]
    /\ Message.element m
       ∈ Claude.findAssistantBlocks (document w) [[1; 0; 0; 0]] [1; 0; 0; 0].
Proof.
  destruct (claude_assistant_anchor
              (Sample.windowOf (Sample.claudeTurn "The answer to that question is 42."))
              [[1; 0; 0; 0]] (Claude.Scan [] 0) [1; 0; 0; 0] 0)
    as [H | (m & Hm & _ & _ & Hel & _)].
  - vm_compute in H. discriminate.
  - exists m. split; [exact Hm | exact Hel].
Defined.

(** *** The anchor of a DeepSeek record *)

(** [closest] answers the element itself or one of its ancestors, and one
    that matches. *)
Lemma closestFrom_spec root sel steps : forall p q,
  closestFrom root sel steps p = Some q ->
  isPrefix q p = true /\ matchesAt root sel q = true.
Proof.
  induction steps as [|k IH]; intros p q; simpl;
    destruct (matchesAt root sel p) eqn:Hm.
  - intros [= <-]. split; [apply isPrefix_refl | done].
  - done.
  - intros [= <-]. split; [apply isPrefix_refl | done].
  - destruct (parentElement p) as [p'|] eqn:Hp; [|done].
    intros [(r & ->)%isPrefix_spec Hq]%IH. split; [|done].
    apply parentElement_Some in Hp as [i ->].
    rewrite <- app_assoc. apply isPrefix_app.
Qed.

Lemma matchesAt_app root sel1 sel2 p :
  matchesAt root (sel1 ++ sel2) p = matchesAt root sel1 p || matchesAt root sel2 p.
Proof.
  unfold matchesAt. destruct (lineage root p []) as [|self above]; [done|].
  apply existsb_app.
Qed.

Lemma assistantContainerOf_spec root msgEl q :
  DeepSeek.assistantContainerOf root msgEl = Some q ->
  isPrefix q msgEl = true
  /\ matchesAt root DeepSeek.selAssistantSignature q = true.
Proof.
  unfold DeepSeek.assistantContainerOf, DeepSeek.selAssistantSignature, closest.
  rewrite !matchesAt_app.
  destruct (closestFrom root (DeepSeek.byClass "_4f9bf79") _ msgEl) eqn:H1; simpl.
  { intros [= ->]. apply closestFrom_spec in H1 as [? ->]. done. }
  destruct (closestFrom root (DeepSeek.byClassPart "_4f9bf79") _ msgEl) eqn:H2; simpl.
  { intros [= ->]. apply closestFrom_spec in H2 as [? ->].
    by rewrite orb_true_r. }
  destruct (closestFrom root (DeepSeek.byClass "_43c05b5") _ msgEl) eqn:H3; simpl.
  { intros [= ->]. apply closestFrom_spec in H3 as [? ->].
    by rewrite !orb_true_r. }
  intros [? ->]%closestFrom_spec. by rewrite !orb_true_r.
Qed.

(** X26: the callback of the DeepSeek scan leaves the state as it is or
    adds one record, of the user or of the assistant, numbered by the
    counter of the records. The element of a user record is the message
    element itself; the element of an assistant record is the message
    element or an element around it that carries one of the assistant
    signatures: in every case it contains the message element. *)
Theorem deepseek_record_anchor (w : window) (st : DeepSeek.scan) (msgEl : path)
  (index : nat) :
  DeepSeek.step w st msgEl index = st
  \/ exists m,
       DeepSeek.step w st msgEl index
       = DeepSeek.Scan (DeepSeek.newMessages st ++ [m]) (S (DeepSeek.messageOrder st))
       /\ Message.order m = Some (DeepSeek.messageOrder st)
       /\ (Message.role m = lit "user" /\ Message.element m = msgEl
           \/ Message.role m = lit "assistant"
              /\ (Message.element m = msgEl
                  \/ matchesAt (document w) DeepSeek.selAssistantSignature
                       (Message.element m) = true))
       /\ contains (Message.element m) msgEl = true.
Proof.
  unfold DeepSeek.step.
  pose proof (deepseek_classify_role (document w) msgEl) as Hrole.
  destruct (DeepSeek.classify _ _) as [[role|] content]; [|by left].
  destruct content as [|c content]; [by left|].
  destruct (trim _); [by left|].
  right. eexists. split; [reflexivity|]. simpl. split; [done|].
  destruct (Hrole role (c :: content) eq_refl) as [-> | ->].
  - unfold JS.eqb. rewrite bool_decide_eq_false_2 by apply user_is_not_assistant.
    split; [by left | apply isPrefix_refl].
  - unfold JS.eqb. rewrite bool_decide_eq_true_2 by done.
    destruct (DeepSeek.assistantContainerOf (document w) msgEl) as [q|] eqn:Hq; simpl.
    + apply assistantContainerOf_spec in Hq as [Hprefix Hmatch].
      split; [right; split; [done|by right] | done].
    + split; [right; split; [done|by left] | apply isPrefix_refl].
Qed.

Lemma deepseek_record_anchor_witness :
  let w := Sample.windowOf Sample.deepseekNested in
  exists m,
    DeepSeek.newMessages (DeepSeek.step w (DeepSeek.Scan [] 0) [1; 0; 0; 1] 1) = [m]
    /\ contains (Message.element m) [1; 0; 0; 1] = true.
Proof.
  destruct (deepseek_record_anchor (Sample.windowOf Sample.deepseekNested)
              (DeepSeek.Scan [] 0) [1; 0; 0; 1] 1)
    as [H | (m & Hm & _ & _ & Hel)].
  - vm_compute in H. discriminate.
  - exists m. split; [by rewrite Hm | exact Hel].
Defined.

(** *** The streaming test of the Qwen strategy *)

(** X27: the streaming test of the Qwen strategy sees only the messages
    whose class contains [response-meesage-container], so spelt: when it
    answers true, the document has an element [div] with an [id] that
    starts with [message-] and such a class, with a content container and
    a loading indicator inside. On the sample page whose loading answer has
    the class [response-message-container], which [detectMessages] accepts
    as well, the scan returns the answer and the test answers false. *)
Theorem qwen_streaming_needs_misspelt_class (w : window) :
  Qwen.isStreaming w = true ->
  (exists msg n,
      nodeAt (document w) msg = Some n
      /\ includes (className n) (lit "response-meesage-container") = true
      /\ startsWith (idOf n) (lit "message-") = true
      /\ is_Some (querySelector (document w) msg Qwen.selStreamingContent)
      /\ is_Some (querySelector (document w) msg Qwen.selLoading))
  /\ Qwen.isStreaming (Sample.windowOf (qwenLoading "response-message-container"))
     = false
  /\ Message.fullContent
       <$> Qwen.detectMessages
             (Sample.windowOf (qwenLoading "response-message-container"))
     = [lit "Partial answer"].
Proof.
  intros H. split; [|split; by vm_compute].
  unfold Qwen.isStreaming in H. cbv zeta in H.
  apply existsb_exists in H as (msg & Hin & Hmsg).
  apply filter_In in Hin as [_ Hm].
  unfold matchesAt in Hm.
  destruct (lineage_nodeAt msg (document w) []) as [n Hn].
  { intros Hnil. by rewrite Hnil in Hm. }
  destruct (lineage_head (document w) msg [] n Hn) as [above Hl]. rewrite Hl in Hm.
  exists msg, n. split; [done|].
  unfold Qwen.selAssistantMessages in Hm. cbn [existsb] in Hm.
  rewrite orb_false_r in Hm. unfold matchComplex in Hm. simpl in Hm.
  apply andb_prop in Hm as [Hm _]. unfold matchCompound in Hm.
  apply andb_prop in Hm as [_ Hm]. cbn [forallb] in Hm.
  apply andb_prop in Hm as [_ Hm]. apply andb_prop in Hm as [Hid Hm].
  apply andb_prop in Hm as [Hclass _].
  unfold matchSimple in Hid, Hclass. unfold idOf, className.
  destruct (getAttribute n (lit "id")) as [x|]; [|done].
  destruct (getAttribute n (lit "class")) as [c|]; [|done]. simpl.
  apply andb_prop in Hid as [_ Hid]. apply andb_prop in Hclass as [_ Hclass].
  split; [done|]. split; [done|].
  destruct (querySelector (document w) msg Qwen.selStreamingContent) as [content|];
    [|done].
  split; [by eexists|]. by apply bool_decide_eq_true in Hmsg.
Qed.

Lemma qwen_streaming_needs_misspelt_class_witness :
  let w := Sample.windowOf (qwenLoading "response-meesage-container") in
  Qwen.isStreaming w = true
  /\ exists msg n,
       nodeAt (document w) msg = Some n
       /\ includes (className n) (lit "response-meesage-container") = true.
Proof.
  assert (H : Qwen.isStreaming
                (Sample.windowOf (qwenLoading "response-meesage-container")) = true)
    by by vm_compute.
  split; [exact H|].
  destruct (proj1 (qwen_streaming_needs_misspelt_class _ H))
    as (msg & n & Hn & Hclass & _).
  by exists msg, n.
Defined.
